(** * A proof-of-work block producer and validator (crypto.go)

    Shallow embedding of the mining and validation pipeline of crypto.go
    and the properties of its specification.

    Go strings are byte sequences: they are modelled by [string], whose
    characters are the bytes.  Go's [int] is the 64-bit two's complement
    integer, modelled by [Z] with the wrap-around written out. *)

From Stdlib Require Import ZArith List String Ascii Lia DecimalString DecimalZ.
From stdpp Require Import gmap strings list.

Local Open Scope string_scope.
Local Open Scope list_scope.
Local Open Scope Z_scope.

(** ** Bytes *)

Definition byte_of_ascii (c : ascii) : Z := Z.of_N (N_of_ascii c).
Definition ascii_of_byte (b : Z) : ascii := ascii_of_N (Z.to_N b).

Fixpoint bytes_of_string (s : string) : list Z :=
  match s with
  | EmptyString => []
  | String c r => byte_of_ascii c :: bytes_of_string r
  end.

Fixpoint string_of_bytes (l : list Z) : string :=
  match l with
  | [] => EmptyString
  | b :: r => String (ascii_of_byte b) (string_of_bytes r)
  end.

(** ** crypto/sha256: [sha256.Sum256], after FIPS 180-4 *)

Module SHA256.

Definition mask32 : Z := 0xffffffff.
Definition add32 (x y : Z) : Z := Z.land (x + y) mask32.
Definition rotr (n x : Z) : Z :=
  Z.lor (Z.shiftr x n) (Z.land (Z.shiftl x (32 - n)) mask32).
Definition not32 (x : Z) : Z := Z.lxor x mask32.

Definition Ch (x y z : Z) : Z := Z.lxor (Z.land x y) (Z.land (not32 x) z).
Definition Maj (x y z : Z) : Z :=
  Z.lxor (Z.lxor (Z.land x y) (Z.land x z)) (Z.land y z).
Definition bigsigma0 (x : Z) : Z := Z.lxor (Z.lxor (rotr 2 x) (rotr 13 x)) (rotr 22 x).
Definition bigsigma1 (x : Z) : Z := Z.lxor (Z.lxor (rotr 6 x) (rotr 11 x)) (rotr 25 x).
Definition sigma0 (x : Z) : Z := Z.lxor (Z.lxor (rotr 7 x) (rotr 18 x)) (Z.shiftr x 3).
Definition sigma1 (x : Z) : Z := Z.lxor (Z.lxor (rotr 17 x) (rotr 19 x)) (Z.shiftr x 10).

(** The first sixty-four primes. *)
Definition primes : list Z :=
  [2; 3; 5; 7; 11; 13; 17; 19; 23; 29; 31; 37; 41; 43; 47; 53; 59; 61; 67; 71;
   73; 79; 83; 89; 97; 101; 103; 107; 109; 113; 127; 131; 137; 139; 149; 151;
   157; 163; 167; 173; 179; 181; 191; 193; 197; 199; 211; 223; 227; 229; 233;
   239; 241; 251; 257; 263; 269; 271; 277; 281; 283; 293; 307; 311].

(** The integer cube root of [n], one bit at a time from bit [i] down. *)
Fixpoint cube_root (i : nat) (n r : Z) : Z :=
  match i with
  | O => r
  | S i' =>
      let c := r + 2 ^ Z.of_nat i' in
      cube_root i' n (if c * c * c <=? n then c else r)
  end.

(** The round constants: the first 32 bits of the fractional parts of
    the cube roots of the primes. *)
Definition K : list Z :=
  Eval vm_compute in
    map (fun p => Z.land (cube_root 40 (p * 2 ^ 96) 0) mask32) primes.

(** The eight working variables, also the chaining value. *)
Record regs := Regs { ra : Z; rb : Z; rc : Z; rd : Z; re : Z; rf : Z; rg : Z; rh : Z }.

(** The initial value: the first 32 bits of the fractional parts of the
    square roots of the first eight primes. *)
Definition init : regs :=
  Eval vm_compute in
    let h := fun p => Z.land (Z.sqrt (p * 2 ^ 64)) mask32 in
    Regs (h 2) (h 3) (h 5) (h 7) (h 11) (h 13) (h 17) (h 19).

(** One round.  [win] holds the sixteen most recent words of the message
    schedule, oldest first: its head is the word of this round, and the
    word sixteen rounds ahead is appended. *)
Definition round (st : regs * list Z) (k : Z) : regs * list Z :=
  let '(r, win) := st in
  let wt := nth 0 win 0 in
  let t1 := add32 (add32 (add32 (add32 (rh r) (bigsigma1 (re r))) (Ch (re r) (rf r) (rg r))) k) wt in
  let t2 := add32 (bigsigma0 (ra r)) (Maj (ra r) (rb r) (rc r)) in
  let wnew := add32 (add32 (add32 (sigma1 (nth 14 win 0)) (nth 9 win 0))
                           (sigma0 (nth 1 win 0))) wt in
  (Regs (add32 t1 t2) (ra r) (rb r) (rc r) (add32 (rd r) t1) (re r) (rf r) (rg r),
   tl win ++ [wnew]).

Definition compress (h : regs) (block : list Z) : regs :=
  let r := fst (fold_left round K (h, block)) in
  Regs (add32 (ra h) (ra r)) (add32 (rb h) (rb r)) (add32 (rc h) (rc r))
       (add32 (rd h) (rd r)) (add32 (re h) (re r)) (add32 (rf h) (rf r))
       (add32 (rg h) (rg r)) (add32 (rh h) (rh r)).

(** Big-endian packing of bytes into 32-bit words. *)
Fixpoint words_of_bytes (l : list Z) : list Z :=
  match l with
  | b0 :: b1 :: b2 :: b3 :: r =>
      Z.lor (Z.shiftl b0 24) (Z.lor (Z.shiftl b1 16) (Z.lor (Z.shiftl b2 8) b3))
      :: words_of_bytes r
  | _ => []
  end.

Definition bytes_of_word (x : Z) : list Z :=
  [ Z.land (Z.shiftr x 24) 0xff; Z.land (Z.shiftr x 16) 0xff;
    Z.land (Z.shiftr x 8) 0xff; Z.land x 0xff ].

(** Padding: a 1 bit, zeros up to 56 modulo 64 bytes, and the bit length
    as a 64-bit big-endian integer. *)
Definition pad (msg : list Z) : list Z :=
  let n := Z.of_nat (length msg) in
  let zeros := Z.to_nat ((55 - n) mod 64) in
  let bits := 8 * n in
  msg ++ [0x80] ++ repeat 0 zeros
      ++ bytes_of_word (Z.land (Z.shiftr bits 32) mask32)
      ++ bytes_of_word (Z.land bits mask32).

(** The padded message is consumed sixteen words at a time. *)
Fixpoint blocks (n : nat) (h : regs) (ws : list Z) : regs :=
  match n with
  | O => h
  | S n' => blocks n' (compress h (firstn 16 ws)) (skipn 16 ws)
  end.

Definition Sum256 (msg : list Z) : list Z :=
  let ws := words_of_bytes (pad msg) in
  let r := blocks (Nat.div (length ws) 16) init ws in
  flat_map bytes_of_word [ra r; rb r; rc r; rd r; re r; rf r; rg r; rh r].

End SHA256.

(** ** encoding/hex and math/big *)

Definition hexdigit (n : Z) : ascii :=
  if n <? 10 then ascii_of_byte (48 + n) else ascii_of_byte (87 + n).

(** [hex.EncodeToString]: two lowercase digits per byte. *)
Fixpoint hex_EncodeToString (l : list Z) : string :=
  match l with
  | [] => EmptyString
  | b :: r => String (hexdigit (Z.shiftr b 4))
                (String (hexdigit (Z.land b 0xf)) (hex_EncodeToString r))
  end.

(** [new(big.Int).SetBytes]: the bytes read as a big-endian unsigned
    integer. *)
Definition big_SetBytes (l : list Z) : Z :=
  fold_left (fun acc b => 256 * acc + b) l 0.

Definition sha256_Sum256 (s : string) : list Z := SHA256.Sum256 (bytes_of_string s).

(** ** The data model *)

Record Transaction := mkTransaction { ID : string; Data : string }.

(** A Go slice is [nil] or holds a sequence of elements; both [nil] and
    the empty slice have length zero, and ranging over either visits
    nothing. *)
Definition slice (A : Type) : Type := option (list A).

Definition elems {A} (s : slice A) : list A :=
  match s with
  | None => []
  | Some l => l
  end.

Record Block := mkBlock {
  PrevHash : string;
  Transactions : slice Transaction;
  Nonce : Z;
  Hash : string;
  PrevCID : string;
  BlockNumber : Z
}.

(** Go's [int]: [x + 1] wraps around at 2^63. *)
Definition int_wrap (x : Z) : Z := (x + 2 ^ 63) mod 2 ^ 64 - 2 ^ 63.
Definition int_incr (x : Z) : Z := int_wrap (x + 1).

(** The process-wide target: [big.NewInt(1).Lsh(big.NewInt(1), 245)]. *)
Definition target : Z := Z.shiftl 1 245.

(** ** fmt: the verbs [%s], [%d] and [%v] on the values printed here *)

Definition fmt_d (n : Z) : string := NilZero.string_of_int (Z.to_int n).

(** [%v] of a struct is its fields between braces, separated by a
    space; [%v] of a slice is its elements between brackets, separated by
    a space (a nil slice prints like the empty one). *)
Definition fmt_Transaction (t : Transaction) : string :=
  "{" +:+ ID t +:+ " " +:+ Data t +:+ "}".

Fixpoint fmt_join (l : list string) : string :=
  match l with
  | [] => ""
  | [x] => x
  | x :: r => x +:+ " " +:+ fmt_join r
  end.

Definition fmt_Transactions (l : list Transaction) : string :=
  "[" +:+ fmt_join (map fmt_Transaction l) +:+ "]".

Definition fmt_Block (b : Block) : string :=
  "{" +:+ PrevHash b +:+ " " +:+ fmt_Transactions (elems (Transactions b))
      +:+ " " +:+ fmt_d (Nonce b) +:+ " " +:+ Hash b +:+ " " +:+ PrevCID b
      +:+ " " +:+ fmt_d (BlockNumber b) +:+ "}".

(** [fmt.Sprintf("%s:%v:%d", prevHash, transactions, nonce)]: the text
    hashed by the proof of work. *)
Definition blockData (prevHash : string) (transactions : list Transaction)
    (nonce : Z) : string :=
  prevHash +:+ ":" +:+ fmt_Transactions transactions +:+ ":" +:+ fmt_d nonce.

(** ** generateTransactionID and getBlockHash *)

Definition generateTransactionID (data : string) : string :=
  hex_EncodeToString (sha256_Sum256 data).

Definition getBlockHash (blockData : string) : string :=
  hex_EncodeToString (sha256_Sum256 blockData).

(** ** The mining engine: startMining

    The goroutine interacts with its environment through the channels
    [transactionBuffer], [stopMining] and [newBlock], through IPFS and
    through the network.  The environment is made explicit:
    - [stop n] is what the [n]-th [select] on [stopMining] observes
      ([true]: the channel is ready, the case is taken);
    - [ipfs_add n data] is the result of the [n]-th call of
      [ipfsShell.Add]: an identifier, or [None] for an error;
    - [transactionBuffer] holds the transactions that arrive, in order;
      receiving from it when it is empty waits.
    What the goroutine does is recorded as a sequence of events; a send
    on [newBlock] is recorded when it is made (it completes when a
    receiver takes the block). *)

Inductive Event :=
| EvPoll (fired : bool)
| EvDequeue (tx : Transaction)
| EvAttempt (nonce : Z)
| EvMined (b : Block)
| EvUploadFailed (b : Block)
| EvUploaded (b : Block) (cid : string)
| EvSend (miner : string) (b : Block)
| EvNewBlock (b : Block).

Inductive Outcome :=
| Stopped
| Mined (b : Block)
| AwaitingTransactions
| OutOfFuel.

Record State := mkState {
  transactionBuffer : list Transaction;
  connectedMiners : list string;
  minedBlocks : Z;
  polls : nat;
  uploads : nat
}.

Definition set_PrevCID (b : Block) (cid : string) : Block :=
  mkBlock (PrevHash b) (Transactions b) (Nonce b) (Hash b) cid (BlockNumber b).

Definition polled (st : State) : State :=
  mkState (transactionBuffer st) (connectedMiners st) (minedBlocks st)
          (S (polls st)) (uploads st).

(** [minedBlocks++] followed by the call of [uploadBlockToIPFS]. *)
Definition counted (st : State) : State :=
  mkState (transactionBuffer st) (connectedMiners st) (int_incr (minedBlocks st))
          (polls st) (S (uploads st)).

Definition with_buffer (st : State) (buf : list Transaction) : State :=
  mkState buf (connectedMiners st) (minedBlocks st) (polls st) (uploads st).

(** [for len(transactions) < 3 { tx := <-transactionBuffer; ... }]:
    [n] receptions are still to be made.  [None] when the buffer runs
    empty: the goroutine waits, what it received so far is consumed. *)
Fixpoint collect (n : nat) (transactions buf : list Transaction)
    : option (list Transaction) * list Transaction * list Event :=
  match n with
  | O => (Some transactions, buf, [])
  | S n' =>
      match buf with
      | [] => (None, [], [])
      | tx :: rest =>
          let '(r, buf', evs) := collect n' (transactions ++ [tx]) rest in
          (r, buf', EvDequeue tx :: evs)
      end
  end.

(** [hashInt.Cmp(target) == -1] for the digest of the candidate text. *)
Definition hit (prevHash : string) (transactions : list Transaction) (nonce : Z) : bool :=
  let hash := sha256_Sum256 (blockData prevHash transactions nonce) in
  let hashInt := big_SetBytes hash in
  hashInt <? target.

(** The [Block] literal built when the nonce meets the target. *)
Definition candidate (prevHash prevCID : string) (transactions : list Transaction)
    (nonce number : Z) : Block :=
  let hash := sha256_Sum256 (blockData prevHash transactions nonce) in
  mkBlock prevHash (Some transactions) nonce (hex_EncodeToString hash) prevCID number.

Section Mining.

Variable stop : nat -> bool.
Variable ipfs_add : nat -> string -> option string.

(** [uploadBlockToIPFS]: the [%v] text of the block is added to IPFS. *)
Definition uploadBlockToIPFS (n : nat) (block : Block) : option string :=
  ipfs_add n (fmt_Block block).

(** The proof-of-work loop.  Every iteration first selects on
    [stopMining]; the fuel bounds the number of iterations. *)
Fixpoint proofOfWork (fuel : nat) (prevHash prevCID : string)
    (transactions : list Transaction) (nonce : Z) (st : State)
    : Outcome * State * list Event :=
  match fuel with
  | O => (OutOfFuel, st, [])
  | S fuel' =>
      if stop (polls st) then (Stopped, polled st, [EvPoll true])
      else
        if hit prevHash transactions nonce then
          let block := candidate prevHash prevCID transactions nonce (minedBlocks st) in
          (* minedBlocks++, then the upload *)
          match uploadBlockToIPFS (uploads st) block with
          | None =>
              (* continue: the next iteration starts with the same nonce *)
              let '(o, st', evs) :=
                proofOfWork fuel' prevHash prevCID transactions nonce
                  (counted (polled st)) in
              (o, st', EvPoll false :: EvAttempt nonce :: EvMined block
                         :: EvUploadFailed block :: evs)
          | Some blockCID =>
              let block' := set_PrevCID block blockCID in
              (Mined block', counted (polled st),
               EvPoll false :: EvAttempt nonce :: EvMined block
                 :: EvUploaded block blockCID
                 :: map (fun miner => EvSend miner block') (connectedMiners st)
                 ++ [EvNewBlock block'])
          end
        else
          let '(o, st', evs) :=
            proofOfWork fuel' prevHash prevCID transactions (int_incr nonce)
              (polled st) in
          (o, st', EvPoll false :: EvAttempt nonce :: evs)
  end.

(** [startMining].  The proof-of-work loop has no [break]: control leaves
    it through [return] only, so that the enclosing [for] never begins a
    second iteration, and its body is the whole function. *)
Definition startMining (fuel : nat) (prevHash prevCID : string) (st : State)
    : Outcome * State * list Event :=
  if stop (polls st) then (Stopped, polled st, [EvPoll true])
  else
    let st1 := polled st in
    match collect 3 [] (transactionBuffer st1) with
    | (None, buf, evs) =>
        (AwaitingTransactions, with_buffer st1 buf, EvPoll false :: evs)
    | (Some transactions, buf, evs) =>
        let '(o, st', evs') :=
          proofOfWork fuel prevHash prevCID transactions 0 (with_buffer st1 buf) in
        (o, st', EvPoll false :: evs ++ evs')
    end.

End Mining.

Arguments hit : simpl never.
Arguments candidate : simpl never.

(** ** Traces of the mining engine *)

(** A block is emitted when it is handed to [sendBlockToMiner] or put on
    the [newBlock] channel. *)
Definition emitted (evs : list Event) (b : Block) : Prop :=
  In (EvNewBlock b) evs \/ exists miner, In (EvSend miner b) evs.

(** The transactions received from the buffer, in order. *)
Fixpoint dequeued (evs : list Event) : list Transaction :=
  match evs with
  | [] => []
  | EvDequeue tx :: r => tx :: dequeued r
  | _ :: r => dequeued r
  end.

(** The proof-of-work invariant of a block. *)
Definition proof_of_work (b : Block) : Prop :=
  let digest := sha256_Sum256 (blockData (PrevHash b) (elems (Transactions b)) (Nonce b)) in
  Hash b = hex_EncodeToString digest /\ big_SetBytes digest < target.

(** *** A run of the engine

    Six transactions wait in the buffer; two peers are connected; the stop
    signal never fires and IPFS accepts the upload.  The third nonce
    meets the target. *)

Definition transaction_of (data : string) : Transaction :=
  mkTransaction (generateTransactionID data) data.

Definition run_state : State :=
  mkState [transaction_of "result-A"; transaction_of "result-B";
           transaction_of "result-3620"; transaction_of "result-D";
           transaction_of "result-E"; transaction_of "result-F"]
          ["127.0.0.1"; "10.0.0.2"] 0 0 0.

Definition never : nat -> bool := fun _ => false.
Definition ipfs_ok : nat -> string -> option string := fun _ _ => Some "QmBlock".
Definition ipfs_down : nat -> string -> option string := fun _ _ => None.

Definition run_result : Outcome * State * list Event :=
  Eval vm_compute in startMining never ipfs_ok 10 "-1" "-1" run_state.

Definition run_block : Block :=
  Eval vm_compute in
    match run_result.1.1 with
    | Mined b => b
    | _ => mkBlock "" None 0 "" "" 0
    end.

(** The claim of a chained next cycle, for one run: once a block is
    emitted while three more transactions wait in the buffer, they are
    received for a next candidate. *)
Definition next_cycle_follows (stop : nat -> bool)
    (ipfs_add : nat -> string -> option string) (fuel : nat)
    (prevHash prevCID : string) (st : State) : Prop :=
  forall o st' evs b,
    startMining stop ipfs_add fuel prevHash prevCID st = (o, st', evs) ->
    emitted evs b ->
    exists pre post tx, evs = pre ++ EvNewBlock b :: post /\ In (EvDequeue tx) post.

(** *** The stop signal during the search *)

(** The nonces tried, in order. *)
Fixpoint attempted (evs : list Event) : list Z :=
  match evs with
  | [] => []
  | EvAttempt nonce :: r => nonce :: attempted r
  | _ :: r => attempted r
  end.

(** Every attempt comes right after a [select] that found the stop
    channel not ready. *)
Fixpoint attempts_polled (evs : list Event) : bool :=
  match evs with
  | [] => true
  | EvAttempt _ :: _ => false
  | EvPoll false :: EvAttempt _ :: r => attempts_polled r
  | _ :: r => attempts_polled r
  end.

(** *** Dissemination and the upload to IPFS *)

(** The calls of [sendBlockToMiner], in order. *)
Fixpoint broadcast (evs : list Event) : list (string * Block) :=
  match evs with
  | [] => []
  | EvSend miner b :: r => (miner, b) :: broadcast r
  | _ :: r => broadcast r
  end.

Definition stop_at (n : nat) : nat -> bool := fun k => Nat.leb n k.

(** The run above with IPFS unreachable, and the stop signal fired in
    time for the sixth select. *)
Definition failed_result : Outcome * State * list Event :=
  Eval vm_compute in startMining (stop_at 5) ipfs_down 10 "-1" "-1" run_state.

Definition failed_block : Block :=
  Eval vm_compute in
    candidate "-1" "-1" (firstn 3 (transactionBuffer run_state)) 2 0.

(** The claim of a broadcast that survives a failed upload, for one run:
    a block whose upload failed is still sent to every connected peer. *)
Definition broadcast_despite_failure (stop : nat -> bool)
    (ipfs_add : nat -> string -> option string) (fuel : nat)
    (prevHash prevCID : string) (st : State) : Prop :=
  forall o st' evs b,
    startMining stop ipfs_add fuel prevHash prevCID st = (o, st', evs) ->
    In (EvUploadFailed b) evs ->
    forall miner, In miner (connectedMiners st) ->
    exists b', In (miner, b') (broadcast evs).

(** *** Runs that are stopped *)

Definition run_prefix : list Event := Eval vm_compute in removelast run_result.2.

(** The search of the run above, stopped at its third select. *)
Definition search_state : State :=
  mkState (skipn 3 (transactionBuffer run_state)) (connectedMiners run_state) 0 0 0.

Definition halted_result : Outcome * State * list Event :=
  Eval vm_compute in
    proofOfWork (stop_at 2) ipfs_ok 10 "-1" "-1"
      (firstn 3 (transactionBuffer run_state)) 0 search_state.

(** ** Transaction intake: processTransactions

    The handler of one connection reads lines; each line names a script
    and a data file on IPFS.  The environment is made explicit:
    [ipfs_cat cid] is the content that [downloadFromIPFS] stores, or
    [None] for an error; [python script data] is the combined output of
    the script run on the data, or [None] for a failed run. *)

(** [strings.Split(s, " ")]. *)
Fixpoint strings_Split_space (s : string) : list string :=
  match s with
  | EmptyString => [EmptyString]
  | String c r =>
      let parts := strings_Split_space r in
      if Ascii.eqb c " " then EmptyString :: parts
      else match parts with
           | p :: ps => String c p :: ps
           | [] => [String c EmptyString]
           end
  end.

Section Intake.

Variable ipfs_cat : string -> option string.
Variable python : string -> string -> option string.

(** The body of the scanner loop: the transaction put on
    [transactionBuffer], if the line gets that far. *)
Definition processMessage (message : string) : option Transaction :=
  match strings_Split_space message with
  | [scriptHash; dataHash] =>
      match ipfs_cat dataHash with
      | None => None
      | Some data =>
          match ipfs_cat scriptHash with
          | None => None
          | Some script =>
              match python script data with
              | None => None
              | Some result =>
                  Some (mkTransaction (generateTransactionID result) result)
              end
          end
      end
  | _ => None
  end.

(** The lines of a connection, in order: what is appended to the
    buffer. *)
Fixpoint processMessages (messages : list string) : list Transaction :=
  match messages with
  | [] => []
  | message :: r =>
      match processMessage message with
      | Some transaction => transaction :: processMessages r
      | None => processMessages r
      end
  end.

End Intake.

(** The three lines of the specification's scenario. *)
Definition scenario_cat (cid : string) : option string :=
  if String.eqb cid "missing" then None else Some cid.

Definition scenario_python (script data : string) : option string :=
  if String.eqb script "scriptRefA" then Some "result-A"
  else if String.eqb script "scriptRefB" then Some "result-B"
  else if String.eqb script "scriptRefC" then Some "result-C"
  else None.

Definition scenario_lines : list string :=
  ["scriptRefA dataRefA"; "malformed"; "scriptRefB dataRefB";
   "scriptRefB missing"; "scriptRefC dataRefC"].

(** ** encoding/json

    [json.Marshal] and [json.Unmarshal] on the [Block] type, after the
    documentation of the package: structs are objects with the fields in
    the order of their declaration, slices are arrays ([null] for a nil
    slice), strings are coerced to valid UTF-8 and escaped for HTML;
    decoding matches keys to fields without regard to case, ignores
    unknown keys, leaves a string, an integer and a struct alone on
    [null] and keeps the last of repeated keys; the array of a repeated
    key is decoded into the elements that the slice already holds. *)

(** *** unicode/utf8 *)

Definition continuation (c : Z) : bool := (0x80 <=? c) && (c <=? 0xBF).

(** The length of the well-formed encoding that begins with the byte
    [c1 >= 0x80], followed by [r]; 0 when there is none
    ([utf8.DecodeRuneInString] then returns [RuneError] and size 1). *)
Definition utf8_size (c1 : Z) (r : string) : nat :=
  match r with
  | String a2 r2 =>
      let c2 := byte_of_ascii a2 in
      if (0xC2 <=? c1) && (c1 <=? 0xDF) then
        if continuation c2 then 2%nat else 0%nat
      else
        match r2 with
        | String a3 r3 =>
            let c3 := byte_of_ascii a3 in
            if (0xE0 <=? c1) && (c1 <=? 0xEF) then
              if ((if c1 =? 0xE0 then 0xA0 else 0x80) <=? c2)
                 && (c2 <=? (if c1 =? 0xED then 0x9F else 0xBF))
                 && continuation c3
              then 3%nat else 0%nat
            else
              match r3 with
              | String a4 r4 =>
                  let c4 := byte_of_ascii a4 in
                  if (0xF0 <=? c1) && (c1 <=? 0xF4)
                     && ((if c1 =? 0xF0 then 0x90 else 0x80) <=? c2)
                     && (c2 <=? (if c1 =? 0xF4 then 0x8F else 0xBF))
                     && continuation c3 && continuation c4
                  then 4%nat else 0%nat
              | EmptyString => 0%nat
              end
        | EmptyString => 0%nat
        end
  | EmptyString => 0%nat
  end.

(** The encoding of U+FFFD, the replacement character. *)
Definition replacement : string := string_of_bytes [0xEF; 0xBF; 0xBD].

(** [utf8.ValidString]. *)
Fixpoint utf8_ValidString (s : string) : bool :=
  match s with
  | EmptyString => true
  | String a1 r1 =>
      if byte_of_ascii a1 <? 0x80 then utf8_ValidString r1
      else
        match utf8_size (byte_of_ascii a1) r1, r1 with
        | 2%nat, String _ r2 => utf8_ValidString r2
        | 3%nat, String _ (String _ r3) => utf8_ValidString r3
        | 4%nat, String _ (String _ (String _ r4)) => utf8_ValidString r4
        | _, _ => false
        end
  end.

(** [utf8.EncodeRune]: surrogates and values beyond U+10FFFF are encoded
    as U+FFFD. *)
Definition utf8_EncodeRune (r : Z) : string :=
  if r <? 0x80 then string_of_bytes [r]
  else if r <? 0x800 then
    string_of_bytes [Z.lor 0xC0 (Z.shiftr r 6); Z.lor 0x80 (Z.land r 0x3F)]
  else if ((0xD800 <=? r) && (r <=? 0xDFFF)) || (0x10FFFF <? r) then replacement
  else if r <? 0x10000 then
    string_of_bytes [Z.lor 0xE0 (Z.shiftr r 12);
                     Z.lor 0x80 (Z.land (Z.shiftr r 6) 0x3F);
                     Z.lor 0x80 (Z.land r 0x3F)]
  else
    string_of_bytes [Z.lor 0xF0 (Z.shiftr r 18);
                     Z.lor 0x80 (Z.land (Z.shiftr r 12) 0x3F);
                     Z.lor 0x80 (Z.land (Z.shiftr r 6) 0x3F);
                     Z.lor 0x80 (Z.land r 0x3F)].

(** *** Strings: the encoder *)

(** [htmlSafeSet]: the ASCII characters written as they are. *)
Definition htmlSafe (c : Z) : bool :=
  (0x20 <=? c) && (c <? 0x80)
  && negb ((c =? 0x22) || (c =? 0x5C) || (c =? 0x3C) || (c =? 0x3E) || (c =? 0x26)).

(** The escape of an ASCII character outside [htmlSafeSet]. *)
Definition escape (a : ascii) : string :=
  let c := byte_of_ascii a in
  if (c =? 0x5C) || (c =? 0x22) then String "\" (String a EmptyString)
  else if c =? 0x08 then "\b"
  else if c =? 0x0C then "\f"
  else if c =? 0x0A then "\n"
  else if c =? 0x0D then "\r"
  else if c =? 0x09 then "\t"
  else "\u00" +:+ String (hexdigit (Z.shiftr c 4)) (String (hexdigit (Z.land c 0xF)) EmptyString).

(** The characters of a string between the quotes. *)
Fixpoint quote_body (s : string) : string :=
  match s with
  | EmptyString => EmptyString
  | String a1 r1 =>
      let c1 := byte_of_ascii a1 in
      if c1 <? 0x80 then
        if htmlSafe c1 then String a1 (quote_body r1)
        else escape a1 +:+ quote_body r1
      else
        match utf8_size c1 r1, r1 with
        | 2%nat, String a2 r2 => String a1 (String a2 (quote_body r2))
        | 3%nat, String a2 (String a3 r3) =>
            if (c1 =? 0xE2) && (byte_of_ascii a2 =? 0x80)
               && ((byte_of_ascii a3 =? 0xA8) || (byte_of_ascii a3 =? 0xA9))
            then "\u202" +:+ String (hexdigit (Z.land (byte_of_ascii a3) 0xF)) (quote_body r3)
            else String a1 (String a2 (String a3 (quote_body r3)))
        | 4%nat, String a2 (String a3 (String a4 r4)) =>
            String a1 (String a2 (String a3 (String a4 (quote_body r4))))
        | _, _ => "\ufffd" +:+ quote_body r1
        end
  end.

Definition dquote : ascii := Eval compute in ascii_of_byte 0x22.

Definition quote (s : string) : string :=
  String dquote (quote_body s +:+ String dquote EmptyString).

(** *** Strings: the decoder *)

Definition hexval (a : ascii) : option Z :=
  let c := byte_of_ascii a in
  if (0x30 <=? c) && (c <=? 0x39) then Some (c - 0x30)
  else if (0x61 <=? c) && (c <=? 0x66) then Some (c - 0x61 + 10)
  else if (0x41 <=? c) && (c <=? 0x46) then Some (c - 0x41 + 10)
  else None.

(** [getu4] on the four characters after [\u]. *)
Definition getu4 (h1 h2 h3 h4 : ascii) : option Z :=
  match hexval h1, hexval h2, hexval h3, hexval h4 with
  | Some d1, Some d2, Some d3, Some d4 => Some (((d1 * 16 + d2) * 16 + d3) * 16 + d4)
  | _, _, _, _ => None
  end.

Definition is_surrogate (r : Z) : bool := (0xD800 <=? r) && (r <? 0xE000).

(** [utf16.DecodeRune]: the code point of a surrogate pair, U+FFFD when
    the two are not a pair. *)
Definition utf16_DecodeRune (r1 r2 : Z) : Z :=
  if (0xD800 <=? r1) && (r1 <? 0xDC00) && (0xDC00 <=? r2) && (r2 <? 0xE000)
  then Z.lor (Z.shiftl (r1 - 0xD800) 10) (r2 - 0xDC00) + 0x10000
  else 0xFFFD.

(** The simple escapes. *)
Definition unescape (a : ascii) : option ascii :=
  let c := byte_of_ascii a in
  if (c =? 0x22) || (c =? 0x5C) || (c =? 0x2F) then Some a
  else if c =? 0x62 then Some (ascii_of_byte 0x08)
  else if c =? 0x66 then Some (ascii_of_byte 0x0C)
  else if c =? 0x6E then Some (ascii_of_byte 0x0A)
  else if c =? 0x72 then Some (ascii_of_byte 0x0D)
  else if c =? 0x74 then Some (ascii_of_byte 0x09)
  else None.

Definition cons_result (a : ascii) (r : option (string * string)) : option (string * string) :=
  match r with
  | Some (t, rest) => Some (String a t, rest)
  | None => None
  end.

Definition app_result (p : string) (r : option (string * string)) : option (string * string) :=
  match r with
  | Some (t, rest) => Some (p +:+ t, rest)
  | None => None
  end.

(** Reads a string literal after its opening quote: the string it
    denotes and the text after the closing quote.  [None] for a literal
    that the scanner rejects: a control character, an unknown escape, or
    no closing quote. *)
Fixpoint unquote_body (s : string) : option (string * string) :=
  match s with
  | EmptyString => None
  | String a1 r1 =>
      let c1 := byte_of_ascii a1 in
      if c1 <? 0x80 then
        if c1 =? 0x22 then Some (EmptyString, r1)
        else if c1 =? 0x5C then
          match r1 with
          | String e r2 =>
              if byte_of_ascii e =? 0x75 then
                match r2 with
                | String h1 (String h2 (String h3 (String h4 r6))) =>
                    match getu4 h1 h2 h3 h4 with
                    | None => None
                    | Some rr =>
                        if is_surrogate rr then
                          match r6 with
                          | String b1 (String b2 (String k1 (String k2 (String k3 (String k4 r12))))) =>
                              match (if (byte_of_ascii b1 =? 0x5C) && (byte_of_ascii b2 =? 0x75)
                                     then getu4 k1 k2 k3 k4 else None) with
                              | Some rr1 =>
                                  if utf16_DecodeRune rr rr1 =? 0xFFFD
                                  then app_result replacement (unquote_body r6)
                                  else app_result (utf8_EncodeRune (utf16_DecodeRune rr rr1))
                                                  (unquote_body r12)
                              | None => app_result replacement (unquote_body r6)
                              end
                          | _ => app_result replacement (unquote_body r6)
                          end
                        else app_result (utf8_EncodeRune rr) (unquote_body r6)
                    end
                | _ => None
                end
              else
                match unescape e with
                | Some a => cons_result a (unquote_body r2)
                | None => None
                end
          | EmptyString => None
          end
        else if c1 <? 0x20 then None
        else cons_result a1 (unquote_body r1)
      else
        match utf8_size c1 r1, r1 with
        | 2%nat, String a2 r2 => cons_result a1 (cons_result a2 (unquote_body r2))
        | 3%nat, String a2 (String a3 r3) =>
            cons_result a1 (cons_result a2 (cons_result a3 (unquote_body r3)))
        | 4%nat, String a2 (String a3 (String a4 r4)) =>
            cons_result a1 (cons_result a2 (cons_result a3 (cons_result a4 (unquote_body r4))))
        | _, _ => app_result replacement (unquote_body r1)
        end
  end.

(** *** JSON texts *)

#[local] Set Warnings "-register-all".

Inductive json :=
| JNull
| JBool (b : bool)
| JNumber (literal : string)
| JString (s : string)
| JArray (l : list json)
| JObject (l : list (string * json)).

(** The compact text of a value, as the encoder writes it. *)
Fixpoint print (v : json) : string :=
  match v with
  | JNull => "null"
  | JBool true => "true"
  | JBool false => "false"
  | JNumber literal => literal
  | JString s => quote s
  | JArray l => "[" +:+ String.concat "," (map print l) +:+ "]"
  | JObject l =>
      "{" +:+ String.concat "," (map (fun m => quote m.1 +:+ ":" +:+ print m.2) l) +:+ "}"
  end.

(** The scanner's white space: space, tab, carriage return, line feed. *)
Definition is_space (a : ascii) : bool :=
  let c := byte_of_ascii a in
  (c =? 0x20) || (c =? 0x09) || (c =? 0x0D) || (c =? 0x0A).

Fixpoint skip_space (s : string) : string :=
  match s with
  | String a r => if is_space a then skip_space r else s
  | EmptyString => s
  end.

Definition is_digit (a : ascii) : bool :=
  (0x30 <=? byte_of_ascii a) && (byte_of_ascii a <=? 0x39).

(** The digits at the head of a text, and what follows them. *)
Fixpoint digits (s : string) : string * string :=
  match s with
  | String a r =>
      if is_digit a then let '(d, rest) := digits r in (String a d, rest)
      else (EmptyString, s)
  | EmptyString => (EmptyString, s)
  end.

(** A number literal: an optional minus sign, [0] or digits that do not
    begin with [0], an optional fraction, an optional exponent. *)
Definition scan_exponent (s : string) : option (string * string) :=
  match s with
  | String e r =>
      if (byte_of_ascii e =? 0x65) || (byte_of_ascii e =? 0x45) then
        match r with
        | String sg r' =>
            if (byte_of_ascii sg =? 0x2B) || (byte_of_ascii sg =? 0x2D) then
              match digits r' with
              | (EmptyString, _) => None
              | (d, rest) => Some (String e (String sg d), rest)
              end
            else
              match digits r with
              | (EmptyString, _) => None
              | (d, rest) => Some (String e d, rest)
              end
        | EmptyString => None
        end
      else Some (EmptyString, s)
  | EmptyString => Some (EmptyString, s)
  end.

Definition scan_fraction (s : string) : option (string * string) :=
  match s with
  | String p r =>
      if byte_of_ascii p =? 0x2E then
        match digits r with
        | (EmptyString, _) => None
        | (d, rest) =>
            match scan_exponent rest with
            | Some (e, rest') => Some (String p (d +:+ e), rest')
            | None => None
            end
        end
      else scan_exponent s
  | EmptyString => Some (EmptyString, s)
  end.

Definition scan_unsigned (s : string) : option (string * string) :=
  match s with
  | String a r =>
      if byte_of_ascii a =? 0x30 then
        match scan_fraction r with
        | Some (f, rest) => Some (String a f, rest)
        | None => None
        end
      else if is_digit a then
        let '(d, rest) := digits r in
        match scan_fraction rest with
        | Some (f, rest') => Some (String a (d +:+ f), rest')
        | None => None
        end
      else None
  | EmptyString => None
  end.

Definition scan_number (s : string) : option (string * string) :=
  match s with
  | String a r =>
      if byte_of_ascii a =? 0x2D then
        match scan_unsigned r with
        | Some (n, rest) => Some (String a n, rest)
        | None => None
        end
      else scan_unsigned s
  | EmptyString => None
  end.

(** [s] without the prefix [p], when it begins with it. *)
Fixpoint strip_prefix (p s : string) : option string :=
  match p, s with
  | EmptyString, _ => Some s
  | String a p', String b s' => if Ascii.eqb a b then strip_prefix p' s' else None
  | String _ _, EmptyString => None
  end.

(** The scanner gives up beyond this depth of nested arrays and objects. *)
Definition maxNestingDepth : N := 10000.

(** Reads one value at the head of a text, after white space: the value
    and the text that follows it.  [depth] counts the arrays and objects
    that are open; [elements] and [members] read what an array and an
    object hold. *)
Definition value_step
    (elements : N -> string -> option (list json * string))
    (members : N -> string -> option (list (string * json) * string))
    (depth : N) (s : string) : option (json * string) :=
  match skip_space s with
  | EmptyString => None
  | String a r =>
      let c := byte_of_ascii a in
      if c =? 0x7B then
        if (maxNestingDepth <=? depth)%N then None
        else
          match skip_space r with
          | String b r' =>
              if byte_of_ascii b =? 0x7D then Some (JObject [], r')
              else
                match members (depth + 1)%N (String b r') with
                | Some (l, rest) => Some (JObject l, rest)
                | None => None
                end
          | EmptyString => None
          end
      else if c =? 0x5B then
        if (maxNestingDepth <=? depth)%N then None
        else
          match skip_space r with
          | String b r' =>
              if byte_of_ascii b =? 0x5D then Some (JArray [], r')
              else
                match elements (depth + 1)%N (String b r') with
                | Some (l, rest) => Some (JArray l, rest)
                | None => None
                end
          | EmptyString => None
          end
      else if c =? 0x22 then
        match unquote_body r with
        | Some (t, rest) => Some (JString t, rest)
        | None => None
        end
      else if c =? 0x74 then
        match strip_prefix "rue" r with
        | Some rest => Some (JBool true, rest)
        | None => None
        end
      else if c =? 0x66 then
        match strip_prefix "alse" r with
        | Some rest => Some (JBool false, rest)
        | None => None
        end
      else if c =? 0x6E then
        match strip_prefix "ull" r with
        | Some rest => Some (JNull, rest)
        | None => None
        end
      else
        match scan_number (String a r) with
        | Some (literal, rest) => Some (JNumber literal, rest)
        | None => None
        end
  end.

(** The elements of an array, from the first one to the closing
    bracket. *)
Definition elements_step
    (value : N -> string -> option (json * string))
    (elements : N -> string -> option (list json * string))
    (depth : N) (s : string) : option (list json * string) :=
  match value depth s with
  | Some (v, r) =>
      match skip_space r with
      | String a r' =>
          if byte_of_ascii a =? 0x2C then
            match elements depth r' with
            | Some (l, rest) => Some (v :: l, rest)
            | None => None
            end
          else if byte_of_ascii a =? 0x5D then Some ([v], r')
          else None
      | EmptyString => None
      end
  | None => None
  end.

(** The members of an object, from the first key to the closing brace. *)
Definition members_step
    (value : N -> string -> option (json * string))
    (members : N -> string -> option (list (string * json) * string))
    (depth : N) (s : string) : option (list (string * json) * string) :=
  match skip_space s with
  | String q r =>
      if byte_of_ascii q =? 0x22 then
        match unquote_body r with
        | Some (k, r1) =>
            match skip_space r1 with
            | String colon r2 =>
                if byte_of_ascii colon =? 0x3A then
                  match value depth r2 with
                  | Some (v, r3) =>
                      match skip_space r3 with
                      | String a r4 =>
                          if byte_of_ascii a =? 0x2C then
                            match members depth r4 with
                            | Some (l, rest) => Some ((k, v) :: l, rest)
                            | None => None
                            end
                          else if byte_of_ascii a =? 0x7D then Some ([(k, v)], r4)
                          else None
                      | EmptyString => None
                      end
                  | None => None
                  end
                else None
            | EmptyString => None
            end
        | None => None
        end
      else None
  | EmptyString => None
  end.

(** The three readers call each other; the fuel bounds the depth of the
    calls. *)
Fixpoint parse_value (fuel : nat) (depth : N) (s : string) : option (json * string) :=
  match fuel with
  | O => None
  | S fuel' => value_step (parse_elements fuel') (parse_members fuel') depth s
  end
with parse_elements (fuel : nat) (depth : N) (s : string) : option (list json * string) :=
  match fuel with
  | O => None
  | S fuel' => elements_step (parse_value fuel') (parse_elements fuel') depth s
  end
with parse_members (fuel : nat) (depth : N) (s : string)
    : option (list (string * json) * string) :=
  match fuel with
  | O => None
  | S fuel' => members_step (parse_value fuel') (parse_members fuel') depth s
  end.

(** A whole text: one value, white space around it, nothing else. *)
Definition parse (s : string) : option json :=
  match parse_value (2 * String.length s + 2) 0 s with
  | Some (v, rest) =>
      match skip_space rest with
      | EmptyString => Some v
      | String _ _ => None
      end
  | None => None
  end.

(** *** Marshal *)

Definition json_of_int (n : Z) : json := JNumber (fmt_d n).

Definition json_of_Transaction (t : Transaction) : json :=
  JObject [("ID", JString (ID t)); ("Data", JString (Data t))].

Definition json_of_Transactions (s : slice Transaction) : json :=
  match s with
  | None => JNull
  | Some l => JArray (map json_of_Transaction l)
  end.

Definition json_of_Block (b : Block) : json :=
  JObject [("PrevHash", JString (PrevHash b));
           ("Transactions", json_of_Transactions (Transactions b));
           ("Nonce", json_of_int (Nonce b));
           ("Hash", JString (Hash b));
           ("PrevCID", JString (PrevCID b));
           ("BlockNumber", json_of_int (BlockNumber b))].

(** [json.Marshal(block)]; it has no error for this type. *)
Definition json_Marshal (b : Block) : string := print (json_of_Block b).

(** *** Unmarshal *)

(** The folded form of a key, by which keys and field names are matched
    without regard to case: ASCII letters in upper case, and the two
    characters that fold to ASCII letters, the Kelvin sign U+212A and
    the long s U+017F, as [K] and [S]. *)
Fixpoint foldName (s : string) : string :=
  match s with
  | EmptyString => EmptyString
  | String a r =>
      let c := byte_of_ascii a in
      if (0x61 <=? c) && (c <=? 0x7A) then String (ascii_of_byte (c - 0x20)) (foldName r)
      else
        match r with
        | String a2 r2 =>
            if (c =? 0xC5) && (byte_of_ascii a2 =? 0xBF) then String "S" (foldName r2)
            else
              match r2 with
              | String a3 r3 =>
                  if (c =? 0xE2) && (byte_of_ascii a2 =? 0x84) && (byte_of_ascii a3 =? 0xAA)
                  then String "K" (foldName r3)
                  else String a (foldName r)
              | EmptyString => String a (foldName r)
              end
        | EmptyString => String a (foldName r)
        end
  end.

Definition key_is (field key : string) : bool :=
  String.eqb (foldName key) (foldName field).

(** [strconv.ParseInt(literal, 10, 64)] on a number literal. *)
Definition parse_int (literal : string) : option Z :=
  match NilZero.int_of_string literal with
  | Some d =>
      let n := Z.of_int d in
      if (- 2 ^ 63 <=? n) && (n <? 2 ^ 63) then Some n else None
  | None => None
  end.

(** A JSON value stored in a string field, in an int field. *)
Definition decode_string (v : json) (old : string) : option string :=
  match v with
  | JString s => Some s
  | JNull => Some old
  | _ => None
  end.

Definition decode_int (v : json) (old : Z) : option Z :=
  match v with
  | JNumber literal => parse_int literal
  | JNull => Some old
  | _ => None
  end.

Definition zeroTransaction : Transaction := mkTransaction "" "".
Definition zeroBlock : Block := mkBlock "" None 0 "" "" 0.

Inductive TransactionField := FieldID | FieldData.

(** The field of [Transaction] that a key names, if any. *)
Definition Transaction_field (key : string) : option TransactionField :=
  if key_is "ID" key then Some FieldID
  else if key_is "Data" key then Some FieldData
  else None.

Definition decode_Transaction_member (t : option Transaction) (m : string * json)
    : option Transaction :=
  match t with
  | None => None
  | Some t =>
      match Transaction_field m.1 with
      | Some FieldID =>
          option_map (fun s => mkTransaction s (Data t)) (decode_string m.2 (ID t))
      | Some FieldData =>
          option_map (fun s => mkTransaction (ID t) s) (decode_string m.2 (Data t))
      | None => Some t
      end
  end.

Definition decode_Transaction (v : json) (old : Transaction) : option Transaction :=
  match v with
  | JObject l => fold_left decode_Transaction_member l (Some old)
  | JNull => Some old
  | _ => None
  end.

(** The elements of an array, decoded one by one into the elements of
    the slice: element [i] of the array goes into element [i] of the
    backing array [mem] of the slice, which keeps the fields that the
    JSON object does not name; where the backing array ends the element
    is a new one, all zero. *)
Fixpoint decode_elements (l : list json) (mem : list Transaction)
    : option (list Transaction) :=
  match l with
  | [] => Some []
  | v :: r =>
      match decode_Transaction v (hd zeroTransaction mem), decode_elements r (tl mem) with
      | Some t, Some ts => Some (t :: ts)
      | _, _ => None
      end
  end.

(** An array decoded into the slice [old].  [spare] holds the elements
    of the backing array beyond the length of the slice: what an
    earlier, longer array of a repeated key left there when the length
    was cut; they come back into view, as they are, when the length
    grows again.  The length becomes the number of elements of the
    array; an empty array gives a new, empty slice and [null] gives
    [nil], both without a backing array. *)
Definition decode_Transactions (v : json) (old : slice Transaction)
    (spare : list Transaction) : option (slice Transaction * list Transaction) :=
  match v with
  | JArray l =>
      match l with
      | [] => Some (Some [], [])
      | _ :: _ =>
          option_map (fun ts => (Some ts, skipn (length l) (elems old ++ spare)))
                     (decode_elements l (elems old ++ spare))
      end
  | JNull => Some (None, [])
  | _ => None
  end.

Inductive BlockField :=
| FieldPrevHash | FieldTransactions | FieldNonce | FieldHash | FieldPrevCID
| FieldBlockNumber.

(** The field of [Block] that a key names, if any. *)
Definition Block_field (key : string) : option BlockField :=
  if key_is "PrevHash" key then Some FieldPrevHash
  else if key_is "Transactions" key then Some FieldTransactions
  else if key_is "Nonce" key then Some FieldNonce
  else if key_is "Hash" key then Some FieldHash
  else if key_is "PrevCID" key then Some FieldPrevCID
  else if key_is "BlockNumber" key then Some FieldBlockNumber
  else None.

(** A member of the object decoded into the block; the block goes with
    the spare elements of its slice. *)
Definition decode_Block_member (target : option (Block * list Transaction))
    (m : string * json) : option (Block * list Transaction) :=
  match target with
  | None => None
  | Some (b, spare) =>
      match Block_field m.1 with
      | Some FieldPrevHash =>
          option_map (fun s => (mkBlock s (Transactions b) (Nonce b) (Hash b) (PrevCID b)
                                        (BlockNumber b), spare))
                     (decode_string m.2 (PrevHash b))
      | Some FieldTransactions =>
          option_map (fun r => (mkBlock (PrevHash b) r.1 (Nonce b) (Hash b) (PrevCID b)
                                        (BlockNumber b), r.2))
                     (decode_Transactions m.2 (Transactions b) spare)
      | Some FieldNonce =>
          option_map (fun n => (mkBlock (PrevHash b) (Transactions b) n (Hash b) (PrevCID b)
                                        (BlockNumber b), spare))
                     (decode_int m.2 (Nonce b))
      | Some FieldHash =>
          option_map (fun s => (mkBlock (PrevHash b) (Transactions b) (Nonce b) s (PrevCID b)
                                        (BlockNumber b), spare))
                     (decode_string m.2 (Hash b))
      | Some FieldPrevCID =>
          option_map (fun s => (mkBlock (PrevHash b) (Transactions b) (Nonce b) (Hash b) s
                                        (BlockNumber b), spare))
                     (decode_string m.2 (PrevCID b))
      | Some FieldBlockNumber =>
          option_map (fun n => (mkBlock (PrevHash b) (Transactions b) (Nonce b) (Hash b)
                                        (PrevCID b) n, spare))
                     (decode_int m.2 (BlockNumber b))
      | None => Some (b, spare)
      end
  end.

(** A value decoded into the block [old], whose slice has no spare
    elements. *)
Definition decode_Block (v : json) (old : Block) : option Block :=
  match v with
  | JObject l => option_map fst (fold_left decode_Block_member l (Some (old, [])))
  | JNull => Some old
  | _ => None
  end.

(** [var block Block; err := json.Unmarshal([]byte(blockData), &block)]:
    the block, or [None] for an error. *)
Definition json_Unmarshal (blockData : string) : option Block :=
  match parse blockData with
  | Some v => decode_Block v zeroBlock
  | None => None
  end.

(** Writes a JSON text with ['] for the double quote. *)
Fixpoint json_text (s : string) : string :=
  match s with
  | EmptyString => EmptyString
  | String a r => String (if Ascii.eqb a "'" then dquote else a) (json_text r)
  end.

(** ** Block validation: validateBlock and receiveAndValidateBlocks *)

(** [for _, tx := range block.Transactions { if tx.ID == "" ... }]. *)
Fixpoint validate_transactions (transactions : list Transaction) : bool :=
  match transactions with
  | [] => true
  | tx :: r => if String.eqb (ID tx) "" then false else validate_transactions r
  end.

Definition validateBlock (blockData prevHash : string) (target : Z) : bool :=
  match json_Unmarshal blockData with
  | None => false
  | Some block =>
      if negb (String.eqb prevHash "-1") && negb (String.eqb (PrevHash block) prevHash)
      then false
      else validate_transactions (elems (Transactions block))
  end.

(** What the receiver prints for a line. *)
Inductive Report :=
| DecodeError
| Accepted (blockHash : string).

(** [blockValidations[blockHash]], zero for an absent key. *)
Definition votes (blockValidations : gmap string Z) (blockHash : string) : Z :=
  default 0 (blockValidations !! blockHash).

(** The body of the scanner loop of [receiveAndValidateBlocks], for one
    line of a connection: the vote tally after the line, and what is
    printed. *)
Definition receiveBlock (connectedMiners : list string)
    (blockValidations : gmap string Z) (blockData : string)
    : gmap string Z * list Report :=
  match json_Unmarshal blockData with
  | None => (blockValidations, [DecodeError])
  | Some block =>
      if validateBlock blockData "-1" target then
        let blockHash := getBlockHash blockData in
        let blockValidations' :=
          <[blockHash := int_incr (votes blockValidations blockHash)]> blockValidations in
        if Z.quot (Z.of_nat (length connectedMiners)) 2 <? votes blockValidations' blockHash
        then (blockValidations', [Accepted blockHash])
        else (blockValidations', [])
      else (blockValidations, [])
  end.

(** The lines of a connection, in order. *)
Fixpoint receiveBlocks (connectedMiners : list string)
    (blockValidations : gmap string Z) (lines : list string)
    : gmap string Z * list Report :=
  match lines with
  | [] => (blockValidations, [])
  | blockData :: r =>
      let '(blockValidations', reports) :=
        receiveBlock connectedMiners blockValidations blockData in
      let '(blockValidations'', reports') :=
        receiveBlocks connectedMiners blockValidations' r in
      (blockValidations'', reports ++ reports')
  end.

(** *** Lines received from peers *)

(** The block of the run above, as [sendBlockToMiner] writes it. *)
Definition run_line : string := Eval vm_compute in json_Marshal run_block.

(** The same block with the identifier of its second transaction
    blanked. *)
Definition blank_block : Block :=
  mkBlock "-1"
    (Some [transaction_of "result-A"; mkTransaction "" "result-B";
           transaction_of "result-3620"])
    2 (Hash run_block) "QmBlock" 0.

Definition blank_line : string := Eval vm_compute in json_Marshal blank_block.

(** A block without transactions, and a block whose [Hash] is not the
    digest of anything. *)
Definition hollow_line : string :=
  json_text "{'PrevHash':'-1','Transactions':[],'Nonce':0,'Hash':'','PrevCID':'','BlockNumber':0}".

Definition forged_block : Block :=
  mkBlock "-1" (Some [transaction_of "result-A"]) 7
    "ffffffffffffffffffffffffffffffffffffffffffffffffffffffffffffffff" "QmBlock" 0.

Definition forged_line : string := Eval vm_compute in json_Marshal forged_block.

Definition five_peers : list string :=
  ["10.0.0.1"; "10.0.0.2"; "10.0.0.3"; "10.0.0.4"; "10.0.0.5"].

Definition no_votes : gmap string Z := empty.

(** ** The domain of the round trip of the broadcast encoding *)

(** *** Numbers *)

(** What may follow a number literal: the end of the text, or a
    character that does not extend it. *)
Definition number_end (tail : string) : bool :=
  match tail with
  | EmptyString => true
  | String a _ =>
      negb (is_digit a || (byte_of_ascii a =? 0x2E)
            || (byte_of_ascii a =? 0x65) || (byte_of_ascii a =? 0x45))
  end.

(** *** Values *)

(** A number literal that is the decimal form of an integer. *)
Definition int_literal (literal : string) : bool :=
  match NilZero.int_of_string literal with
  | Some d => String.eqb (fmt_d (Z.of_int d)) literal
  | None => false
  end.

(** The values that the encoder produces here: strings and keys of
    valid UTF-8, integers as numbers. *)
Fixpoint encodable (v : json) : bool :=
  match v with
  | JNull | JBool _ => true
  | JNumber literal => int_literal literal
  | JString s => utf8_ValidString s
  | JArray l => forallb encodable l
  | JObject l => forallb (fun m => utf8_ValidString m.1 && encodable m.2) l
  end.

(** The number of values, elements and members to read. *)
Fixpoint weight (v : json) : nat :=
  match v with
  | JArray l => S (list_sum (map (fun v => S (weight v)) l))
  | JObject l => S (list_sum (map (fun m => S (weight m.2)) l))
  | _ => O
  end.

(** The depth of nested arrays and objects. *)
Fixpoint height (v : json) : N :=
  match v with
  | JArray l => 1 + fold_right N.max 0 (map height l)
  | JObject l => 1 + fold_right N.max 0 (map (fun m => height m.2) l)
  | _ => 0
  end%N.

Definition print_member (m : string * json) : string :=
  quote m.1 +:+ ":" +:+ print m.2.

(** The first character of a number tells the scanner that a number
    begins. *)
Definition number_head (a : ascii) : bool := is_digit a || (byte_of_ascii a =? 0x2D).

(** The first character of the text of a value: not white space, and
    not a closing bracket or brace. *)
Definition value_head (a : ascii) : bool :=
  negb (is_space a || (byte_of_ascii a =? 0x5D) || (byte_of_ascii a =? 0x7D)).

(** *** Blocks *)

(** The strings of a block are valid UTF-8 and its integers are within
    the range of [int]. *)
Definition Transaction_ok (t : Transaction) : bool :=
  utf8_ValidString (ID t) && utf8_ValidString (Data t).

Definition int_ok (n : Z) : bool := (- 2 ^ 63 <=? n) && (n <? 2 ^ 63).

Definition Block_ok (b : Block) : bool :=
  utf8_ValidString (PrevHash b) && forallb Transaction_ok (elems (Transactions b))
  && int_ok (Nonce b) && utf8_ValidString (Hash b) && utf8_ValidString (PrevCID b)
  && int_ok (BlockNumber b).

(** The claim of the round trip, for one block. *)
Definition round_trip (b : Block) : Prop := json_Unmarshal (json_Marshal b) = Some b.

(** A block with a transaction whose data is the single byte FF, which
    is not UTF-8. *)
Definition binary_block : Block :=
  mkBlock "-1" (Some [mkTransaction "id" (string_of_bytes [0xFF])]) 0 "" "" 0.

(** ** The fuel of the reader *)

(** What a reader returns is shorter than what it was given. *)
Definition shortens {A} (read : N -> string -> option (A * string)) : Prop :=
  forall d s x rest, read d s = Some (x, rest) -> (String.length rest < String.length s)%nat.

(** Two readers that agree on the texts of length below [n]. *)
Definition agree {A} (n : nat) (read read' : N -> string -> option (A * string)) : Prop :=
  forall d s, (String.length s < n)%nat -> read d s = read' d s.

(** ** The course of a search *)

(** The [i]-th nonce of a search: [nonce++] applied [i] times to the
    initial 0. *)
Definition nonce_at (i : nat) : Z := Nat.iter i int_incr 0.

(** The candidates that met the target, in order, and those among them
    whose upload failed. *)
Fixpoint mined (evs : list Event) : list Block :=
  match evs with
  | [] => []
  | EvMined b :: r => b :: mined r
  | _ :: r => mined r
  end.

Fixpoint failed (evs : list Event) : list Block :=
  match evs with
  | [] => []
  | EvUploadFailed b :: r => b :: failed r
  | _ :: r => failed r
  end.

(** A node with two transactions waiting. *)
Definition short_state : State :=
  mkState [transaction_of "result-A"; transaction_of "result-B"] ["127.0.0.1"] 0 0 0.

(** ** The target in hexadecimal *)

(** A hex digest that begins with two digits 0 and then a digit 0 or 1:
    the first eleven bits of the digest are zero. *)
Definition eleven_zero_bits (h : string) : bool :=
  match h with
  | String d1 (String d2 (String d3 _)) =>
      Ascii.eqb d1 "0" && Ascii.eqb d2 "0" && (Ascii.eqb d3 "0" || Ascii.eqb d3 "1")
  | _ => false
  end.

(** ** The tally along a connection *)

(** The number of lines that validation accepts and whose text hashes
    to [h]. *)
Fixpoint valid_lines (h : string) (lines : list string) : nat :=
  match lines with
  | [] => O
  | blockData :: r =>
      if validateBlock blockData "-1" target && String.eqb (getBlockHash blockData) h
      then S (valid_lines h r)
      else valid_lines h r
  end.

(** ** The lines of transaction intake *)

(** The number of spaces in a line. *)
Fixpoint spaces (s : string) : nat :=
  match s with
  | EmptyString => O
  | String c r => if Ascii.eqb c " " then S (spaces r) else spaces r
  end.

(** Every character of a string passes a test. *)
Fixpoint all_chars (p : ascii -> bool) (s : string) : bool :=
  match s with
  | EmptyString => true
  | String c r => p c && all_chars p r
  end.

(** The digits of [hex.EncodeToString]: 0 to 9 and a to f. *)
Definition lower_hex (c : ascii) : bool :=
  let n := byte_of_ascii c in
  ((0x30 <=? n) && (n <=? 0x39)) || ((0x61 <=? n) && (n <=? 0x66)).

(** ** What the broadcast encoding keeps of a block *)

(** A string coerced to valid UTF-8: every byte that does not begin a
    well-formed sequence becomes U+FFFD. *)
Fixpoint coerce_utf8 (s : string) : string :=
  match s with
  | EmptyString => EmptyString
  | String a1 r1 =>
      let c1 := byte_of_ascii a1 in
      if c1 <? 0x80 then String a1 (coerce_utf8 r1)
      else
        match utf8_size c1 r1, r1 with
        | 2%nat, String a2 r2 => String a1 (String a2 (coerce_utf8 r2))
        | 3%nat, String a2 (String a3 r3) =>
            String a1 (String a2 (String a3 (coerce_utf8 r3)))
        | 4%nat, String a2 (String a3 (String a4 r4)) =>
            String a1 (String a2 (String a3 (String a4 (coerce_utf8 r4))))
        | _, _ => replacement +:+ coerce_utf8 r1
        end
  end.

Fixpoint coerce_value (v : json) : json :=
  match v with
  | JString s => JString (coerce_utf8 s)
  | JArray l => JArray (map coerce_value l)
  | JObject l => JObject (map (fun m => (coerce_utf8 m.1, coerce_value m.2)) l)
  | _ => v
  end.

(** The values whose numbers are decimal integers. *)
Fixpoint numeric (v : json) : bool :=
  match v with
  | JNumber literal => int_literal literal
  | JArray l => forallb numeric l
  | JObject l => forallb (fun m => numeric m.2) l
  | _ => true
  end.

Definition coerce_Transaction (t : Transaction) : Transaction :=
  mkTransaction (coerce_utf8 (ID t)) (coerce_utf8 (Data t)).

Definition coerce_Block (b : Block) : Block :=
  mkBlock (coerce_utf8 (PrevHash b))
          (option_map (map coerce_Transaction) (Transactions b))
          (Nonce b) (coerce_utf8 (Hash b)) (coerce_utf8 (PrevCID b)) (BlockNumber b).

(** The characters that pass through a line-oriented reader and an HTML
    page as they are: no control character, and none of [<], [>] and
    [&]. *)
Definition line_safe (c : ascii) : bool :=
  let n := byte_of_ascii c in
  (0x20 <=? n) && negb ((n =? 0x3C) || (n =? 0x3E) || (n =? 0x26)).

(** ** Dissemination: sendBlockToMiner

    What a call does on the network: it dials the miner on port 8081;
    when that fails it returns; otherwise it writes the JSON text of
    the block and closes the connection.  [dial n address] tells whether
    the [n]-th dial of the node succeeds. *)

Inductive NetEvent :=
| NetDial (address : string) (connected : bool)
| NetWrite (address : string) (blockData : string)
| NetClose (address : string).

Section Dissemination.

Variable dial : nat -> string -> bool.

Definition sendBlockToMiner (n : nat) (miner : string) (block : Block) : list NetEvent :=
  let address := miner +:+ ":8081" in
  if dial n address then
    [NetDial address true; NetWrite address (json_Marshal block); NetClose address]
  else [NetDial address false].

(** The calls of a run, in order; [n] dials were made before. *)
Fixpoint sendBlocks (n : nat) (calls : list (string * Block)) : list NetEvent :=
  match calls with
  | [] => []
  | (miner, block) :: r => sendBlockToMiner n miner block ++ sendBlocks (S n) r
  end.

End Dissemination.

(** The texts written, with their addresses, and the dials. *)
Fixpoint written (net : list NetEvent) : list (string * string) :=
  match net with
  | [] => []
  | NetWrite address blockData :: r => (address, blockData) :: written r
  | _ :: r => written r
  end.

Fixpoint dialled (net : list NetEvent) : list string :=
  match net with
  | [] => []
  | NetDial address _ :: r => address :: dialled r
  | _ :: r => dialled r
  end.

(** ** main: the node at its start

    The placeholders of the genesis block, the one miner that [main]
    connects (the node itself), no block mined and no vote. *)
Definition main_prevHash : string := "-1".
Definition main_prevCID : string := "-1".
Definition main_connectedMiners : list string := [] ++ ["127.0.0.1"].

Definition main_state (arrivals : list Transaction) : State :=
  mkState arrivals main_connectedMiners 0 0 0.

(** A node started by [main] that receives three lines of intake; the
    scripts print their data. *)
Definition echo_cat (cid : string) : option string := Some cid.
Definition echo_python (script data : string) : option string := Some data.

Definition main_lines : list string :=
  ["script result-A"; "script result-B"; "script result-3620"].

Definition main_arrivals : list Transaction :=
  Eval vm_compute in processMessages echo_cat echo_python main_lines.

Definition main_result : Outcome * State * list Event :=
  Eval vm_compute in
    startMining never ipfs_ok 10 main_prevHash main_prevCID (main_state main_arrivals).

Definition main_line : string :=
  Eval vm_compute in
    match main_result.1.1 with
    | Mined b => json_Marshal b
    | _ => EmptyString
    end.

Definition main_block : Block :=
  Eval vm_compute in
    match main_result.1.1 with
    | Mined b => b
    | _ => zeroBlock
    end.

(** ** Intake on the files: downloadFromIPFS and executeScript

    The handler of a connection, with the files it writes.  The files of
    the working directory are a map from paths to contents.  The
    environment is made explicit:
    - [fetch cid] is what [ipfsShell.Cat] and the copy of its stream
      give: an error of [Cat], a stream that breaks after some bytes, or
      the whole content;
    - [creatable path] tells whether [os.Create] succeeds;
    - [python_run files script data] is the run of the interpreter on
      the two paths: its combined output, or [None] when the command
      fails, and the files as the run leaves them.
    The lines of one connection are handled one after the other; the
    handlers of several connections share the two paths. *)

Inductive Fetch :=
| FetchError
| FetchBroken (copied : string)
| FetchAll (content : string).

Section Files.

Variable fetch : string -> Fetch.
Variable creatable : string -> bool.
Variable python_run :
  gmap string string -> string -> string -> option string * gmap string string.

(** [downloadFromIPFS]: [true] for a [nil] error. *)
Definition downloadFromIPFS (cid outputPath : string) (files : gmap string string)
    : bool * gmap string string :=
  match fetch cid with
  | FetchError => (false, files)
  | FetchBroken copied =>
      if creatable outputPath then (false, <[outputPath := copied]> files)
      else (false, files)
  | FetchAll content =>
      if creatable outputPath then (true, <[outputPath := content]> files)
      else (false, files)
  end.

(** [executeScript]: [exec.Command("python", scriptPath, dataPath)] and
    its combined output. *)
Definition executeScript (scriptPath dataPath : string) (files : gmap string string)
    : option string * gmap string string :=
  python_run files scriptPath dataPath.

(** The body of the scanner loop of [processTransactions]. *)
Definition processMessage_files (message : string) (files : gmap string string)
    : option Transaction * gmap string string :=
  match strings_Split_space message with
  | [scriptHash; dataHash] =>
      let dataPath := "data.txt" in
      let scriptPath := "script.py" in
      let '(ok, files1) := downloadFromIPFS dataHash dataPath files in
      if ok then
        let '(ok', files2) := downloadFromIPFS scriptHash scriptPath files1 in
        if ok' then
          match executeScript scriptPath dataPath files2 with
          | (Some result, files3) =>
              (Some (mkTransaction (generateTransactionID result) result), files3)
          | (None, files3) => (None, files3)
          end
        else (None, files2)
      else (None, files1)
  | _ => (None, files)
  end.

(** The lines of a connection, in order. *)
Fixpoint processMessages_files (messages : list string) (files : gmap string string)
    : list Transaction * gmap string string :=
  match messages with
  | [] => ([], files)
  | message :: r =>
      let '(t, files1) := processMessage_files message files in
      let '(ts, files2) := processMessages_files r files1 in
      (match t with Some transaction => transaction :: ts | None => ts end, files2)
  end.

End Files.

(** The content that a complete download stores. *)
Definition fetched (fetch : string -> Fetch) (cid : string) : option string :=
  match fetch cid with
  | FetchAll content => Some content
  | _ => None
  end.

(** An environment in which every identifier names itself as content
    and the interpreter prints the data file. *)
Definition echo_fetch (cid : string) : Fetch := FetchAll cid.

Definition echo_run (files : gmap string string) (scriptPath dataPath : string)
    : option string * gmap string string :=
  (files !! dataPath, files).

Definition no_files : gmap string string := empty.

(** Another block whose data is a single byte that is not UTF-8. *)
Definition other_binary_block : Block :=
  mkBlock "-1" (Some [mkTransaction "id" (string_of_bytes [0xFE])]) 0 "" "" 0.

(** ** bufio: the lines of a connection

    The receiver reads a connection through [bufio.NewScanner(conn)],
    with the split function [ScanLines] and a buffer that grows up to
    [MaxScanTokenSize].  A token is a line without its end-of-line
    marker.  A line of [MaxScanTokenSize] bytes or more does not fit in
    the buffer: [Scan] returns [false] with [ErrTooLong], and the loop
    over the lines of the connection ends there. *)

Definition MaxScanTokenSize : Z := 64 * 1024.

(** The data cut at the line feeds: what is before each line feed, and
    what follows the last one when that is not empty. *)
Fixpoint split_lines (data : string) : list string :=
  match data with
  | EmptyString => []
  | String c r =>
      if byte_of_ascii c =? 0x0A then EmptyString :: split_lines r
      else match split_lines r with
           | segment :: segments => String c segment :: segments
           | [] => [String c EmptyString]
           end
  end.

(** [dropCR]: a carriage return at the end is not part of the line. *)
Fixpoint dropCR (data : string) : string :=
  match data with
  | EmptyString => EmptyString
  | String c r =>
      match r with
      | EmptyString => if byte_of_ascii c =? 0x0D then EmptyString else data
      | String _ _ => String c (dropCR r)
      end
  end.

(** The tokens of the scan: the lines up to the first that is too
    long. *)
Fixpoint scan_tokens (segments : list string) : list string :=
  match segments with
  | [] => []
  | segment :: r =>
      if MaxScanTokenSize <=? Z.of_nat (String.length segment) then []
      else dropCR segment :: scan_tokens r
  end.

(** The values of [scanner.Text()] over the data of a connection. *)
Definition scanner_lines (data : string) : list string :=
  scan_tokens (split_lines data).

(** The handler of a connection of [receiveAndValidateBlocks], on the
    data that the connection delivers. *)
Definition receiveConnection (connectedMiners : list string)
    (blockValidations : gmap string Z) (data : string)
    : gmap string Z * list Report :=
  receiveBlocks connectedMiners blockValidations (scanner_lines data).

(** A line with the key [Transactions] twice. *)
Definition repeated_line : string :=
  json_text "{'Transactions':[{'ID':'x'}],'Transactions':[{}]}".

(** * Properties

    The lemmas on the model above, and the theorems of the claims of the
    specification. *)

(** ** Test vectors of SHA-256 and of the preimage *)

Example sha256_constants :
  firstn 3 SHA256.K = [0x428a2f98; 0x71374491; 0xb5c0fbcf] /\
  last SHA256.K = Some 0xc67178f2 /\
  SHA256.ra SHA256.init = 0x6a09e667 /\ SHA256.rh SHA256.init = 0x5be0cd19.
Proof. split; [reflexivity|]. split; [reflexivity|]. split; reflexivity. Qed.

Example sha256_abc :
  hex_EncodeToString (sha256_Sum256 "abc")
  = "ba7816bf8f01cfea414140de5dae2223b00361a396177a9cb410ff61f20015ad".
Proof. vm_compute. reflexivity. Qed.

Example sha256_empty :
  hex_EncodeToString (sha256_Sum256 "")
  = "e3b0c44298fc1c149afbf4c8996fb92427ae41e4649b934ca495991b7852b855".
Proof. vm_compute. reflexivity. Qed.

Example sha256_two_blocks :
  hex_EncodeToString
    (sha256_Sum256 "abcdbcdecdefdefgefghfghighijhijkijkljklmklmnlmnomnopnopq")
  = "248d6a61d20638b8e5c026930c3e6039a33ce45964ff2167f6ecedd419db06c1".
Proof. vm_compute. reflexivity. Qed.

Example blockData_example :
  blockData "-1" [mkTransaction "a" "x y"; mkTransaction "b" ""] 12
  = "-1:[{a x y} {b }]:12".
Proof. reflexivity. Qed.

(** ** The mining engine *)

Lemma proofOfWork_S stop ipfs_add fuel prevHash prevCID txs nonce st :
  proofOfWork stop ipfs_add (S fuel) prevHash prevCID txs nonce st =
  if stop (polls st) then (Stopped, polled st, [EvPoll true])
  else
    if hit prevHash txs nonce then
      let block := candidate prevHash prevCID txs nonce (minedBlocks st) in
      match uploadBlockToIPFS ipfs_add (uploads st) block with
      | None =>
          let '(o, st', evs) :=
            proofOfWork stop ipfs_add fuel prevHash prevCID txs nonce
              (counted (polled st)) in
          (o, st', EvPoll false :: EvAttempt nonce :: EvMined block
                     :: EvUploadFailed block :: evs)
      | Some blockCID =>
          (Mined (set_PrevCID block blockCID), counted (polled st),
           EvPoll false :: EvAttempt nonce :: EvMined block
             :: EvUploaded block blockCID
             :: map (fun miner => EvSend miner (set_PrevCID block blockCID))
                  (connectedMiners st)
             ++ [EvNewBlock (set_PrevCID block blockCID)])
      end
    else
      let '(o, st', evs) :=
        proofOfWork stop ipfs_add fuel prevHash prevCID txs (int_incr nonce)
          (polled st) in
      (o, st', EvPoll false :: EvAttempt nonce :: evs).
Proof. reflexivity. Qed.

(** Case analysis of one iteration of the proof-of-work loop, in a
    hypothesis [H] that gives the result of [proofOfWork (S fuel)]. *)
Ltac pow_iteration H :=
  rewrite proofOfWork_S in H; cbv zeta in H;
  repeat match type of H with
  | context [if ?c then _ else _] => destruct c eqn:?
  | context [match uploadBlockToIPFS ?f ?n ?b with _ => _ end] =>
      destruct (uploadBlockToIPFS f n b) eqn:?
  | context [proofOfWork ?a ?b ?c ?d ?e ?f ?g ?h] =>
      destruct (proofOfWork a b c d e f g h) as [[? ?] ?] eqn:?
  end;
  inversion H; subst; clear H.

Lemma in_sends_newblock (e : Event) (l : list string) (b : Block) :
  In e (map (fun miner => EvSend miner b) l ++ [EvNewBlock b]) ->
  e = EvNewBlock b \/ exists miner, e = EvSend miner b.
Proof.
  rewrite in_app_iff, in_map_iff. intros [(m & <- & _) | [<- | []]]; eauto.
Qed.

Lemma emitted_cons (e : Event) (evs : list Event) (b : Block) :
  emitted (e :: evs) b ->
  e = EvNewBlock b \/ (exists miner, e = EvSend miner b) \/ emitted evs b.
Proof. unfold emitted. simpl. intros [[|]|[m [|]]]; eauto. Qed.

Lemma emitted_sends_newblock (l : list string) (b0 b : Block) :
  emitted (map (fun miner => EvSend miner b0) l ++ [EvNewBlock b0]) b -> b = b0.
Proof.
  intros [H | [m H]]; apply in_sends_newblock in H as [E | [m' E]];
    inversion E; reflexivity.
Qed.

Lemma proof_of_work_candidate prevHash prevCID txs nonce number cid :
  hit prevHash txs nonce = true ->
  proof_of_work (set_PrevCID (candidate prevHash prevCID txs nonce number) cid).
Proof.
  unfold hit, proof_of_work, set_PrevCID, candidate.
  cbn [PrevHash Transactions Nonce Hash elems].
  generalize (sha256_Sum256 (blockData prevHash txs nonce)). intros digest H.
  split; [reflexivity | apply Z.ltb_lt; exact H].
Qed.

(** Skips the events at the head of a trace that emit nothing. *)
Ltac skip_silent H :=
  repeat (apply emitted_cons in H as [H | [[? H] | H]]; [discriminate H | discriminate H |]).

(** What a proof-of-work search emits is the block it returns, and that
    block is the candidate with a nonce that meets the target. *)
Lemma proofOfWork_emitted stop ipfs_add fuel :
  forall prevHash prevCID txs nonce st o st' evs b,
    proofOfWork stop ipfs_add fuel prevHash prevCID txs nonce st = (o, st', evs) ->
    emitted evs b ->
    o = Mined b /\ PrevHash b = prevHash /\ Transactions b = Some txs /\ proof_of_work b.
Proof.
  induction fuel as [|fuel IH]; intros prevHash prevCID txs nonce st o st' evs b H Hb.
  - inversion H; subst. destruct Hb as [[] | [? []]].
  - pow_iteration H.
    + skip_silent Hb. destruct Hb as [[] | [? []]].
    + skip_silent Hb. apply emitted_sends_newblock in Hb as ->.
      repeat split; try reflexivity. apply proof_of_work_candidate. assumption.
    + skip_silent Hb. eapply IH; eassumption.
    + skip_silent Hb. eapply IH; eassumption.
Qed.

(** The search receives nothing from the transaction buffer. *)
Lemma proofOfWork_buffer stop ipfs_add fuel :
  forall prevHash prevCID txs nonce st o st' evs,
    proofOfWork stop ipfs_add fuel prevHash prevCID txs nonce st = (o, st', evs) ->
    transactionBuffer st' = transactionBuffer st /\ dequeued evs = [].
Proof.
  induction fuel as [|fuel IH]; intros prevHash prevCID txs nonce st o st' evs H.
  - inversion H; subst. split; reflexivity.
  - pow_iteration H.
    + split; reflexivity.
    + split; [reflexivity|]. cbn [dequeued].
      induction (connectedMiners st) as [|m l IHl]; [reflexivity | exact IHl].
    + match goal with E : proofOfWork _ _ _ _ _ _ _ _ = _ |- _ =>
        apply IH in E as [-> ?] end.
      split; [reflexivity | assumption].
    + match goal with E : proofOfWork _ _ _ _ _ _ _ _ = _ |- _ =>
        apply IH in E as [-> ?] end.
      split; [reflexivity | assumption].
Qed.

(** The three receptions at the head of a cycle. *)
Lemma collect_Some n :
  forall acc buf txs buf' evs,
    collect n acc buf = (Some txs, buf', evs) ->
    txs = acc ++ firstn n buf /\ buf' = skipn n buf /\
    evs = map EvDequeue (firstn n buf) /\ length (firstn n buf) = n.
Proof.
  induction n as [|n IH]; intros acc buf txs buf' evs H; simpl in H.
  - inversion H; subst. rewrite app_nil_r. repeat split.
  - destruct buf as [|tx rest]; [discriminate|].
    destruct (collect n (acc ++ [tx]) rest) as [[r b] e] eqn:E.
    inversion H; subst. apply IH in E as (-> & -> & -> & Hlen).
    rewrite <- app_assoc. simpl. rewrite Hlen. repeat split.
Qed.

Lemma collect_None n :
  forall acc buf buf' evs,
    collect n acc buf = (None, buf', evs) ->
    buf' = [] /\ evs = map EvDequeue buf /\ (length buf < n)%nat.
Proof.
  induction n as [|n IH]; intros acc buf buf' evs H; simpl in H.
  - discriminate.
  - destruct buf as [|tx rest].
    + inversion H; subst. repeat split. simpl. lia.
    + destruct (collect n (acc ++ [tx]) rest) as [[r b] e] eqn:E.
      inversion H; subst. apply IH in E as (-> & -> & Hlen).
      repeat split. simpl. lia.
Qed.

Lemma dequeued_map (l : list Transaction) : dequeued (map EvDequeue l) = l.
Proof. induction l as [|tx l IH]; simpl; congruence. Qed.

Lemma dequeued_app (l1 l2 : list Event) : dequeued (l1 ++ l2) = dequeued l1 ++ dequeued l2.
Proof.
  induction l1 as [|e l1 IH]; [reflexivity|].
  destruct e; simpl; rewrite IH; reflexivity.
Qed.

Lemma emitted_app (l1 l2 : list Event) (b : Block) :
  emitted (l1 ++ l2) b -> emitted l1 b \/ emitted l2 b.
Proof.
  unfold emitted. rewrite in_app_iff.
  intros [[H|H] | [m H]]; [auto | auto |].
  apply in_app_iff in H as [H|H]; eauto.
Qed.

Lemma not_emitted_dequeue (l : list Transaction) (b : Block) :
  ~ emitted (map EvDequeue l) b.
Proof.
  intros [H | [m H]]; apply in_map_iff in H as (tx & E & _); discriminate.
Qed.

(** A run of [startMining] that goes through to the search: the shape of
    its result. *)
Lemma startMining_search stop ipfs_add fuel prevHash prevCID st o st' evs :
  startMining stop ipfs_add fuel prevHash prevCID st = (o, st', evs) ->
  (o = Stopped /\ evs = [EvPoll true]) \/
  (o = AwaitingTransactions /\ transactionBuffer st' = [] /\
   evs = EvPoll false :: map EvDequeue (transactionBuffer st) /\
   (length (transactionBuffer st) < 3)%nat) \/
  (exists evs',
     proofOfWork stop ipfs_add fuel prevHash prevCID (firstn 3 (transactionBuffer st)) 0
       (with_buffer (polled st) (skipn 3 (transactionBuffer st))) = (o, st', evs') /\
     evs = EvPoll false :: map EvDequeue (firstn 3 (transactionBuffer st)) ++ evs' /\
     length (firstn 3 (transactionBuffer st)) = 3%nat).
Proof.
  unfold startMining. destruct (stop (polls st)).
  - intros H; inversion H; subst. left. split; reflexivity.
  - cbv zeta. cbn [transactionBuffer polled].
    destruct (collect 3 [] (transactionBuffer st)) as [[[txs|] buf] e] eqn:E.
    + apply collect_Some in E as (-> & -> & -> & Hlen). rewrite app_nil_l.
      destruct proofOfWork as [[o1 st1] evs1] eqn:Hpow.
      intros H; inversion H; subst. right. right. exists evs1. repeat split; assumption.
    + apply collect_None in E as (-> & -> & Hlen).
      intros H; inversion H; subst. right. left. repeat split. assumption.
Qed.

(** Every emitted block is the block returned; it holds the first three
    transactions of the buffer and meets the proof-of-work invariant. *)
Lemma startMining_emitted stop ipfs_add fuel prevHash prevCID st o st' evs b :
  startMining stop ipfs_add fuel prevHash prevCID st = (o, st', evs) ->
  emitted evs b ->
  o = Mined b /\ PrevHash b = prevHash /\
  Transactions b = Some (firstn 3 (transactionBuffer st)) /\
  length (firstn 3 (transactionBuffer st)) = 3%nat /\
  dequeued evs = firstn 3 (transactionBuffer st) /\
  transactionBuffer st' = skipn 3 (transactionBuffer st) /\
  proof_of_work b.
Proof.
  intros H Hb. apply startMining_search in H as [(-> & ->) | [(-> & _ & -> & _) | (evs' & H & -> & Hlen)]].
  - skip_silent Hb. destruct Hb as [[] | [? []]].
  - skip_silent Hb. exfalso. eapply not_emitted_dequeue. eassumption.
  - skip_silent Hb. apply emitted_app in Hb as [Hb | Hb];
      [exfalso; eapply not_emitted_dequeue; eassumption|].
    pose proof (proofOfWork_buffer _ _ _ _ _ _ _ _ _ _ _ H) as [Hbuf Hdeq].
    pose proof (proofOfWork_emitted _ _ _ _ _ _ _ _ _ _ _ _ H Hb) as (-> & Hp & Ht & Hpow).
    refine (conj eq_refl (conj Hp (conj Ht (conj Hlen (conj _ (conj Hbuf Hpow)))))).
    cbn [dequeued]. rewrite dequeued_app, dequeued_map, Hdeq. apply app_nil_r.
Qed.

(** C1: every block emitted by the mining engine has as [Hash] the
    SHA-256 hex digest of the text made of its [PrevHash], [Transactions]
    and [Nonce], and that digest, read as an unsigned big-endian integer,
    is strictly below the target. *)
Theorem emitted_block_proof_of_work stop ipfs_add fuel prevHash prevCID st o st' evs b :
  startMining stop ipfs_add fuel prevHash prevCID st = (o, st', evs) ->
  emitted evs b ->
  Hash b = hex_EncodeToString
             (sha256_Sum256 (blockData (PrevHash b) (elems (Transactions b)) (Nonce b))) /\
  big_SetBytes (sha256_Sum256 (blockData (PrevHash b) (elems (Transactions b)) (Nonce b)))
    < target.
Proof.
  intros H Hb. eapply startMining_emitted in H as (_ & _ & _ & _ & _ & _ & Hpow); [|eassumption].
  exact Hpow.
Qed.

(** C6: every block emitted by the mining engine holds exactly three
    transactions: the three received from the buffer, in the order of
    their reception, which is the order of the buffer. *)
Theorem emitted_block_three_transactions stop ipfs_add fuel prevHash prevCID st o st' evs b :
  startMining stop ipfs_add fuel prevHash prevCID st = (o, st', evs) ->
  emitted evs b ->
  exists t1 t2 t3,
    Transactions b = Some [t1; t2; t3] /\
    dequeued evs = [t1; t2; t3] /\
    firstn 3 (transactionBuffer st) = [t1; t2; t3].
Proof.
  intros H Hb.
  eapply startMining_emitted in H as (_ & _ & Ht & Hlen & Hdeq & _ & _); [|eassumption].
  destruct (firstn 3 (transactionBuffer st)) as [|t1 [|t2 [|t3 [|t4 l]]]]; try discriminate.
  exists t1, t2, t3. repeat split; assumption.
Qed.

(** *** Position of an event in a trace *)

Lemma cons_split {A} (e x : A) (l pre post : list A) :
  e :: l = pre ++ x :: post ->
  (pre = [] /\ e = x /\ l = post) \/
  (exists pre', pre = e :: pre' /\ l = pre' ++ x :: post).
Proof.
  destruct pre as [|e' pre']; simpl; intros H; inversion H; subst; eauto.
Qed.

Lemma app_split {A} (x : A) (l1 : list A) :
  forall l2 pre post,
    l1 ++ l2 = pre ++ x :: post -> ~ In x l1 ->
    exists pre', pre = l1 ++ pre' /\ l2 = pre' ++ x :: post.
Proof.
  induction l1 as [|e l1 IH]; intros l2 pre post H Hx.
  - exists pre. split; [reflexivity | exact H].
  - simpl in H. apply cons_split in H as [(_ & -> & _) | (pre' & -> & H)].
    + exfalso. apply Hx. left. reflexivity.
    + apply IH in H as (pre'' & -> & ->); [|intros Hin; apply Hx; right; exact Hin].
      exists pre''. split; reflexivity.
Qed.

(** Steps over an event at the head of a trace that differs from the
    event looked for. *)
Tactic Notation "step_over" hyp(H) :=
  let pre := fresh "pre" in
  let E := fresh "E" in
  apply cons_split in H as [(_ & E & _) | (pre & -> & E)];
  [discriminate E | try clear H; rename E into H].

(** After the block is put on [newBlock] the search does nothing more. *)
Lemma proofOfWork_newblock_last stop ipfs_add fuel :
  forall prevHash prevCID txs nonce st o st' evs pre post b,
    proofOfWork stop ipfs_add fuel prevHash prevCID txs nonce st = (o, st', evs) ->
    evs = pre ++ EvNewBlock b :: post ->
    post = [].
Proof.
  induction fuel as [|fuel IH];
    intros prevHash prevCID txs nonce st o st' evs pre post b H E.
  - inversion H; subst. destruct pre; discriminate.
  - revert E. pow_iteration H; intros E.
    + step_over E. destruct pre0; discriminate.
    + do 4 step_over E.
      apply app_split in E as (pre' & -> & E).
      * destruct pre' as [|e [|e' pre']]; inversion E; reflexivity.
      * intros Hin. apply in_map_iff in Hin as (m & Hm & _). discriminate.
    + do 4 step_over E. eapply IH; eassumption.
    + do 2 step_over E. eapply IH; eassumption.
Qed.

Lemma startMining_newblock_last stop ipfs_add fuel prevHash prevCID st o st' evs pre post b :
  startMining stop ipfs_add fuel prevHash prevCID st = (o, st', evs) ->
  evs = pre ++ EvNewBlock b :: post ->
  post = [].
Proof.
  intros H E.
  apply startMining_search in H as [(-> & ->) | [(-> & _ & -> & _) | (evs' & H & -> & Hlen)]].
  - step_over E. destruct pre0; discriminate.
  - step_over E. exfalso.
    assert (Hin : In (EvNewBlock b) (map EvDequeue (transactionBuffer st)))
      by (rewrite E; apply in_elt).
    apply in_map_iff in Hin as (tx & Htx & _). discriminate.
  - step_over E. apply app_split in E as (pre' & -> & E).
    + eapply proofOfWork_newblock_last; eassumption.
    + intros Hin. apply in_map_iff in Hin as (tx & Htx & _). discriminate.
Qed.

(** *** The run of the engine *)

Lemma run_result_eq :
  startMining never ipfs_ok 10 "-1" "-1" run_state = run_result.
Proof. vm_compute. reflexivity. Qed.

Lemma run_result_shape :
  run_result = (Mined run_block, run_result.1.2, run_result.2) /\
  Nonce run_block = 2 /\
  Hash run_block = "00122518370b6a1fae2660e2b42a3c441a1167517e1d71f9d5d50b38ec83dbe1" /\
  In (EvNewBlock run_block) run_result.2.
Proof.
  split; [reflexivity|]. split; [reflexivity|]. split; [reflexivity|].
  vm_compute. tauto.
Qed.

Lemma run_emitted : emitted run_result.2 run_block.
Proof. left. apply run_result_shape. Qed.

(** C2, as stated, fails: in the run above the block mined at the third
    nonce is emitted with three transactions still in the buffer, and
    nothing is received after it. *)
Lemma no_next_cycle_after_emission :
  ~ next_cycle_follows never ipfs_ok 10 "-1" "-1" run_state /\
  transactionBuffer run_result.1.2 =
    [transaction_of "result-D"; transaction_of "result-E"; transaction_of "result-F"].
Proof.
  split; [|vm_compute; reflexivity].
  intros H.
  destruct (H _ _ _ run_block run_result_eq run_emitted) as (pre & post & tx & E & Hin).
  pose proof (startMining_newblock_last _ _ _ _ _ _ _ _ _ _ _ _ run_result_eq E) as ->.
  destruct Hin.
Qed.

(** C2, amended: putting the mined block on [newBlock] is the last thing
    a run of the engine does: it then returns that block, having received
    exactly the first three transactions of the buffer, and the block's
    [PrevHash] is the [prevHash] the engine was started with. *)
Theorem startMining_returns_after_emission
    stop ipfs_add fuel prevHash prevCID st o st' evs pre post b :
  startMining stop ipfs_add fuel prevHash prevCID st = (o, st', evs) ->
  evs = pre ++ EvNewBlock b :: post ->
  post = [] /\ o = Mined b /\ PrevHash b = prevHash /\
  dequeued evs = firstn 3 (transactionBuffer st) /\
  transactionBuffer st' = skipn 3 (transactionBuffer st).
Proof.
  intros H E. split; [eapply startMining_newblock_last; eassumption|].
  assert (Hb : emitted evs b) by (left; rewrite E; apply in_elt).
  eapply startMining_emitted in H as (Ho & Hp & _ & _ & Hd & Hbuf & _); [|eassumption].
  repeat split; assumption.
Qed.

(** *** The stop signal during the search *)

Lemma attempted_sends (l : list string) (b : Block) :
  attempted (map (fun miner => EvSend miner b) l ++ [EvNewBlock b]) = [] /\
  attempts_polled (map (fun miner => EvSend miner b) l ++ [EvNewBlock b]) = true.
Proof. induction l as [|m l IH]; [split; reflexivity | exact IH]. Qed.





(** *** Dissemination and the upload to IPFS *)

Lemma broadcast_sends (l : list string) (b : Block) :
  broadcast (map (fun miner => EvSend miner b) l ++ [EvNewBlock b])
  = map (fun miner => (miner, b)) l.
Proof. induction l as [|m l IH]; [reflexivity | simpl; rewrite IH; reflexivity]. Qed.

Lemma broadcast_dequeue (l : list Transaction) (evs : list Event) :
  broadcast (map EvDequeue l ++ evs) = broadcast evs.
Proof. induction l as [|tx l IH]; [reflexivity | exact IH]. Qed.

Lemma proofOfWork_broadcast stop ipfs_add fuel :
  forall prevHash prevCID txs nonce st o st' evs,
    proofOfWork stop ipfs_add fuel prevHash prevCID txs nonce st = (o, st', evs) ->
    broadcast evs = match o with
                    | Mined b => map (fun miner => (miner, b)) (connectedMiners st)
                    | _ => []
                    end.
Proof.
  induction fuel as [|fuel IH]; intros prevHash prevCID txs nonce st o st' evs H.
  - inversion H; reflexivity.
  - pow_iteration H; cbn [broadcast].
    + reflexivity.
    + apply broadcast_sends.
    + match goal with E : proofOfWork _ _ _ _ _ _ _ _ = _ |- _ => apply IH in E as -> end.
      reflexivity.
    + match goal with E : proofOfWork _ _ _ _ _ _ _ _ = _ |- _ => apply IH in E as -> end.
      reflexivity.
Qed.

(** The block returned went through a successful upload, and carries
    the identifier that the upload returned. *)
Lemma proofOfWork_uploaded stop ipfs_add fuel :
  forall prevHash prevCID txs nonce st st' evs b,
    proofOfWork stop ipfs_add fuel prevHash prevCID txs nonce st = (Mined b, st', evs) ->
    exists b0 n,
      In (EvUploaded b0 (PrevCID b)) evs /\ b = set_PrevCID b0 (PrevCID b) /\
      ipfs_add n (fmt_Block b0) = Some (PrevCID b).
Proof.
  induction fuel as [|fuel IH]; intros prevHash prevCID txs nonce st st' evs b H.
  - inversion H.
  - pow_iteration H.
    + eexists _, _. split; [do 3 right; left; reflexivity|].
      split; [reflexivity | eassumption].
    + match goal with E : proofOfWork _ _ _ _ _ _ _ _ = _ |- _ =>
        apply IH in E as (b0 & n & Hin & Hb & Hn) end.
      exists b0, n. split; [do 4 right; exact Hin | split; assumption].
    + match goal with E : proofOfWork _ _ _ _ _ _ _ _ = _ |- _ =>
        apply IH in E as (b0 & n & Hin & Hb & Hn) end.
      exists b0, n. split; [do 2 right; exact Hin | split; assumption].
Qed.

(** How a search begins. *)
Lemma proofOfWork_head stop ipfs_add fuel prevHash prevCID txs nonce st o st' evs :
  proofOfWork stop ipfs_add fuel prevHash prevCID txs nonce st = (o, st', evs) ->
  evs = [] \/ evs = [EvPoll true] \/ exists r, evs = EvPoll false :: EvAttempt nonce :: r.
Proof.
  destruct fuel as [|fuel]; intros H.
  - inversion H. left. reflexivity.
  - pow_iteration H; eauto.
Qed.

(** After a failed upload the search goes on with the same nonce. *)
Lemma proofOfWork_retry stop ipfs_add fuel :
  forall prevHash prevCID txs nonce st o st' evs pre post b,
    proofOfWork stop ipfs_add fuel prevHash prevCID txs nonce st = (o, st', evs) ->
    evs = pre ++ EvUploadFailed b :: post ->
    post = [] \/ post = [EvPoll true] \/
    exists r, post = EvPoll false :: EvAttempt (Nonce b) :: r.
Proof.
  induction fuel as [|fuel IH];
    intros prevHash prevCID txs nonce st o st' evs pre post b H E.
  - inversion H; subst. destruct pre; discriminate.
  - revert E. pow_iteration H; intros E.
    + step_over E. destruct pre0; discriminate.
    + do 4 step_over E.
      assert (Hin : In (EvUploadFailed b)
                (map (fun miner => EvSend miner
                        (set_PrevCID (candidate prevHash prevCID txs nonce (minedBlocks st)) s))
                     (connectedMiners st)
                 ++ [EvNewBlock (set_PrevCID
                        (candidate prevHash prevCID txs nonce (minedBlocks st)) s)]))
        by (rewrite E; apply in_elt).
      apply in_sends_newblock in Hin as [Hin | [m Hin]]; discriminate.
    + do 3 step_over E.
      apply cons_split in E as [(_ & Hb & <-) | (pre' & -> & E)].
      * inversion Hb; subst. eapply proofOfWork_head. eassumption.
      * eapply IH; eassumption.
    + do 2 step_over E. eapply IH; eassumption.
Qed.

(** C3, as stated, fails: with IPFS unreachable the block mined at the
    third nonce is sent to no peer, and the run ends stopped. *)
Lemma no_broadcast_after_failed_upload :
  ~ broadcast_despite_failure (stop_at 5) ipfs_down 10 "-1" "-1" run_state /\
  failed_result.1.1 = Stopped /\
  In (EvUploadFailed failed_block) failed_result.2 /\
  broadcast failed_result.2 = [].
Proof.
  assert (Hrun : startMining (stop_at 5) ipfs_down 10 "-1" "-1" run_state = failed_result)
    by (vm_compute; reflexivity).
  assert (Hfail : In (EvUploadFailed failed_block) failed_result.2)
    by (vm_compute; tauto).
  split; [|split; [reflexivity | split; [exact Hfail | reflexivity]]].
  intros H.
  destruct (H _ _ _ failed_block Hrun Hfail "127.0.0.1") as [b' Hin].
  - left. reflexivity.
  - exact Hin.
Qed.

(** C3, amended: blocks are handed to [sendBlockToMiner] only on the path
    where the upload succeeded, then once for every connected peer; the
    block sent carries in [PrevCID] the identifier that the upload
    returned.  After a failed upload nothing is sent for that block: the
    search selects on the stop channel again and, unless stopped, tries
    the same nonce again. *)
Theorem failed_upload_aborts_dissemination
    stop ipfs_add fuel prevHash prevCID st o st' evs :
  startMining stop ipfs_add fuel prevHash prevCID st = (o, st', evs) ->
  broadcast evs = match o with
                  | Mined b => map (fun miner => (miner, b)) (connectedMiners st)
                  | _ => []
                  end /\
  (forall b, o = Mined b ->
     exists b0 n,
       In (EvUploaded b0 (PrevCID b)) evs /\ b = set_PrevCID b0 (PrevCID b) /\
       ipfs_add n (fmt_Block b0) = Some (PrevCID b)) /\
  (forall pre post b,
     evs = pre ++ EvUploadFailed b :: post ->
     post = [] \/ post = [EvPoll true] \/
     exists r, post = EvPoll false :: EvAttempt (Nonce b) :: r).
Proof.
  intros H.
  apply startMining_search in H as [(-> & ->) | [(-> & _ & -> & _) | (evs' & H & -> & Hlen)]].
  - split; [reflexivity|]. split; [discriminate|].
    intros pre post b E. step_over E. destruct pre0; discriminate.
  - split; [cbn [broadcast]; rewrite <- (app_nil_r (map EvDequeue _));
            apply broadcast_dequeue|].
    split; [discriminate|].
    intros pre post b E. step_over E. exfalso.
    assert (Hin : In (EvUploadFailed b) (map EvDequeue (transactionBuffer st)))
      by (rewrite E; apply in_elt).
    apply in_map_iff in Hin as (tx & Htx & _). discriminate.
  - split; [|split].
    + cbn [broadcast]. rewrite broadcast_dequeue.
      apply proofOfWork_broadcast in H. exact H.
    + intros b ->. apply proofOfWork_uploaded in H as (b0 & n & Hin & Hb & Hn).
      exists b0, n. split; [right; apply in_or_app; right; exact Hin | split; assumption].
    + intros pre post b E. step_over E.
      apply app_split in E as (pre' & -> & E).
      * eapply proofOfWork_retry; eassumption.
      * intros Hin. apply in_map_iff in Hin as (tx & Htx & _). discriminate.
Qed.

(** *** The properties on the runs *)

Lemma emitted_block_proof_of_work_witness :
  Hash run_block
  = hex_EncodeToString
      (sha256_Sum256
         (blockData (PrevHash run_block) (elems (Transactions run_block)) (Nonce run_block))) /\
  big_SetBytes
    (sha256_Sum256
       (blockData (PrevHash run_block) (elems (Transactions run_block)) (Nonce run_block)))
    < target.
Proof.
  apply (emitted_block_proof_of_work never ipfs_ok 10 "-1" "-1" run_state
           run_result.1.1 run_result.1.2 run_result.2 run_block).
  - vm_compute. reflexivity.
  - left. vm_compute. tauto.
Defined.

Lemma emitted_block_three_transactions_witness :
  exists t1 t2 t3,
    Transactions run_block = Some [t1; t2; t3] /\
    dequeued run_result.2 = [t1; t2; t3] /\
    firstn 3 (transactionBuffer run_state) = [t1; t2; t3].
Proof.
  apply (emitted_block_three_transactions never ipfs_ok 10 "-1" "-1" run_state
           run_result.1.1 run_result.1.2 run_result.2 run_block).
  - vm_compute. reflexivity.
  - left. vm_compute. tauto.
Defined.

Lemma startMining_returns_after_emission_witness :
  @nil Event = [] /\ run_result.1.1 = Mined run_block /\ PrevHash run_block = "-1" /\
  dequeued run_result.2 = firstn 3 (transactionBuffer run_state) /\
  transactionBuffer run_result.1.2 = skipn 3 (transactionBuffer run_state).
Proof.
  apply (startMining_returns_after_emission never ipfs_ok 10 "-1" "-1" run_state
           run_result.1.1 run_result.1.2 run_result.2 run_prefix [] run_block).
  - vm_compute. reflexivity.
  - vm_compute. reflexivity.
Defined.


Lemma failed_upload_aborts_dissemination_witness :
  broadcast failed_result.2 = [] /\
  forall pre post b,
    failed_result.2 = pre ++ EvUploadFailed b :: post ->
    post = [] \/ post = [EvPoll true] \/
    exists r, post = EvPoll false :: EvAttempt (Nonce b) :: r.
Proof.
  destruct (failed_upload_aborts_dissemination (stop_at 5) ipfs_down 10 "-1" "-1"
              run_state failed_result.1.1 failed_result.1.2 failed_result.2)
    as (H1 & _ & H3).
  - vm_compute. reflexivity.
  - split; [exact H1 | exact H3].
Defined.

Example halted_run :
  halted_result.1.1 = Stopped /\ attempted halted_result.2 = [0; 1] /\
  attempted run_result.2 = [0; 1; 2] /\
  attempted failed_result.2 = [0; 1; 2; 2] /\
  minedBlocks failed_result.1.2 = 2.
Proof. repeat split. Qed.

(** ** Transaction intake *)

Lemma Sum256_length (msg : list Z) : length (SHA256.Sum256 msg) = 32%nat.
Proof.
  unfold SHA256.Sum256. cbv zeta.
  generalize (SHA256.blocks
                (length (SHA256.words_of_bytes (SHA256.pad msg)) / 16)
                SHA256.init (SHA256.words_of_bytes (SHA256.pad msg))).
  intros r. reflexivity.
Qed.

Lemma hex_EncodeToString_length (l : list Z) :
  String.length (hex_EncodeToString l) = (2 * length l)%nat.
Proof. induction l as [|b l IH]; simpl; [reflexivity | rewrite IH; lia]. Qed.

(** A transaction identifier is 64 characters long, so never empty. *)
Lemma generateTransactionID_length (data : string) :
  String.length (generateTransactionID data) = 64%nat.
Proof.
  unfold generateTransactionID, sha256_Sum256.
  rewrite hex_EncodeToString_length, Sum256_length. reflexivity.
Qed.

(** C8: every transaction that intake puts on the buffer has as [ID]
    the SHA-256 hex digest of its [Data]: the identifier is a function of
    the data alone, whatever the line, the files and the script were. *)
Theorem intake_transaction_id ipfs_cat python messages tx :
  In tx (processMessages ipfs_cat python messages) ->
  ID tx = generateTransactionID (Data tx) /\
  generateTransactionID (Data tx) = hex_EncodeToString (sha256_Sum256 (Data tx)).
Proof.
  intros H. split; [|reflexivity].
  induction messages as [|message r IH]; [destruct H|].
  simpl in H. destruct (processMessage ipfs_cat python message) as [t|] eqn:E.
  - destruct H as [<- | H]; [|exact (IH H)].
    unfold processMessage in E.
    destruct (strings_Split_space message) as [|s [|d [|x l]]]; try discriminate.
    destruct (ipfs_cat d); [|discriminate].
    destruct (ipfs_cat s); [|discriminate].
    destruct (python _ _); [|discriminate].
    inversion E. reflexivity.
  - exact (IH H).
Qed.

Lemma intake_transaction_id_witness :
  ID (transaction_of "result-B") = generateTransactionID (Data (transaction_of "result-B")) /\
  generateTransactionID (Data (transaction_of "result-B"))
  = hex_EncodeToString (sha256_Sum256 (Data (transaction_of "result-B"))).
Proof.
  apply (intake_transaction_id scenario_cat scenario_python scenario_lines).
  vm_compute. tauto.
Defined.

Example scenario_intake :
  processMessages scenario_cat scenario_python scenario_lines
  = [transaction_of "result-A"; transaction_of "result-B"; transaction_of "result-C"] /\
  ID (transaction_of "result-A")
  = "466112d72ef8a65cb0597abd2e81c5e766252037967915dda6cf30378484841c".
Proof. split; vm_compute; reflexivity. Qed.

(** ** Decoding *)

(** What the decoder accepts. *)
Example decoding_examples :
  json_Unmarshal (json_text "{'prevhash':'x', 'TRANSACTIONS':[{'id':'a','more':[1,{}]},null], 'Nonce':7, 'nonce':null, 'unknown':{'k':[true,false]}}")
  = Some (mkBlock "x" (Some [mkTransaction "a" ""; mkTransaction "" ""]) 7 "" "" 0) /\
  json_Unmarshal "null" = Some zeroBlock /\
  json_Unmarshal (json_text "{'Transactions':null}") = Some zeroBlock /\
  json_Unmarshal (json_text "{'Hash':'\u0041\n/\ud83d\ude00\ud83d'}")
  = Some (mkBlock "" None 0
            (string_of_bytes [0x41; 0x0A; 0x2F; 0xF0; 0x9F; 0x98; 0x80; 0xEF; 0xBF; 0xBD])
            "" 0) /\
  json_Unmarshal (json_text "{'Nonce':1.0}") = None /\
  json_Unmarshal (json_text "{'Nonce':'1'}") = None /\
  json_Unmarshal (json_text "{'Nonce':9223372036854775808}") = None /\
  json_Unmarshal (json_text "{'Hash':'a' 'PrevCID':'b'}") = None /\
  json_Unmarshal (json_text "{'Transactions':[{'ID':1}]}") = None /\
  json_Unmarshal "[]" = None /\
  json_Unmarshal "{} {}" = None /\
  json_Unmarshal "" = None.
Proof.
  do 11 (split; [vm_compute; reflexivity|]). vm_compute. reflexivity.
Qed.

(** The array of a repeated key is decoded into the elements that the
    slice holds: an element keeps the fields that the later object does
    not name, and an element cut off by a shorter array comes back when
    a later array is longer.  An empty array and [null] start anew. *)
Example repeated_key_decoding :
  json_Unmarshal repeated_line
  = Some (mkBlock "" (Some [mkTransaction "x" ""]) 0 "" "" 0) /\
  validateBlock repeated_line "-1" target = true /\
  votes (receiveBlock five_peers no_votes repeated_line).1 (getBlockHash repeated_line) = 1 /\
  json_Unmarshal
    (json_text "{'Transactions':[{'ID':'a'},{'ID':'b','Data':'d'}],'Transactions':[{}],'Transactions':[{'Data':'e'},{}]}")
  = Some (mkBlock "" (Some [mkTransaction "a" "e"; mkTransaction "b" "d"]) 0 "" "" 0) /\
  json_Unmarshal (json_text "{'Transactions':[{'ID':'a'}],'Transactions':[],'Transactions':[{}]}")
  = Some (mkBlock "" (Some [mkTransaction "" ""]) 0 "" "" 0) /\
  json_Unmarshal
    (json_text "{'Transactions':[{'ID':'a'}],'Transactions':null,'Transactions':[null]}")
  = Some (mkBlock "" (Some [mkTransaction "" ""]) 0 "" "" 0).
Proof. do 5 (split; [vm_compute; reflexivity|]). vm_compute. reflexivity. Qed.

(** ** Block validation *)

Lemma validate_transactions_Forall (l : list Transaction) :
  validate_transactions l = true <-> Forall (fun tx => ID tx <> "") l.
Proof.
  induction l as [|tx l IH]; simpl.
  - split; [constructor | reflexivity].
  - destruct (String.eqb (ID tx) "") eqn:E.
    + apply String.eqb_eq in E. split; [discriminate|].
      intros H. inversion H; subst. contradiction.
    + apply String.eqb_neq in E. rewrite IH. split.
      * intros H. constructor; assumption.
      * intros H. inversion H; assumption.
Qed.

Lemma validate_transactions_ids (l : list Transaction) :
  validate_transactions l = forallb (fun i => negb (String.eqb i "")) (map ID l).
Proof.
  induction l as [|tx l IH]; simpl; [reflexivity|].
  destruct (String.eqb (ID tx) ""); [reflexivity | exact IH].
Qed.

Lemma validateBlock_true (blockData prevHash : string) (tgt : Z) :
  validateBlock blockData prevHash tgt = true <->
  exists block,
    json_Unmarshal blockData = Some block /\
    (prevHash = "-1" \/ PrevHash block = prevHash) /\
    Forall (fun tx => ID tx <> "") (elems (Transactions block)).
Proof.
  unfold validateBlock. destruct (json_Unmarshal blockData) as [block|].
  - destruct (String.eqb_spec prevHash "-1") as [E1|E1];
      destruct (String.eqb_spec (PrevHash block) prevHash) as [E2|E2]; simpl;
      rewrite ?validate_transactions_Forall.
    + split; [intros H; exists block; auto|].
      intros (b & Hb & _ & H). inversion Hb; subst b. exact H.
    + split; [intros H; exists block; auto|].
      intros (b & Hb & _ & H). inversion Hb; subst b. exact H.
    + split; [intros H; exists block; auto|].
      intros (b & Hb & _ & H). inversion Hb; subst b. exact H.
    + split; [discriminate|]. intros (b & Hb & [H|H] & _); [contradiction|].
      inversion Hb; subst. contradiction.
  - split; [discriminate | intros (b & Hb & _); discriminate].
Qed.

(** A line that validation rejects leaves the vote tally as it was. *)
Lemma receiveBlock_rejected miners tally blockData :
  validateBlock blockData "-1" target = false ->
  (receiveBlock miners tally blockData).1 = tally /\
  forall h, ~ In (Accepted h) (receiveBlock miners tally blockData).2.
Proof.
  intros H. unfold receiveBlock. destruct (json_Unmarshal blockData).
  - rewrite H. split; [reflexivity | intros h []].
  - split; [reflexivity|]. intros h [E|[]]. discriminate.
Qed.

Lemma votes_insert (tally : gmap string Z) (h : string) (v : Z) :
  votes (<[h := v]> tally) h = v.
Proof. unfold votes. rewrite lookup_insert_eq. reflexivity. Qed.

(** A line that validation accepts: one more vote for the hash of the
    line, and the acceptance printed when the votes exceed half of the
    number of peers. *)
Lemma receiveBlock_accepted miners tally blockData :
  validateBlock blockData "-1" target = true ->
  receiveBlock miners tally blockData =
  (<[getBlockHash blockData := int_incr (votes tally (getBlockHash blockData))]> tally,
   if Z.quot (Z.of_nat (length miners)) 2 <? int_incr (votes tally (getBlockHash blockData))
   then [Accepted (getBlockHash blockData)] else []).
Proof.
  intros H. unfold receiveBlock.
  destruct (json_Unmarshal blockData) eqn:E.
  - rewrite H. cbv zeta. rewrite votes_insert.
    destruct (_ <? _); reflexivity.
  - unfold validateBlock in H. rewrite E in H. discriminate.
Qed.

(** C4: validation returns false for a block in which a transaction has
    an empty ID, and for a block whose PrevHash differs from the expected
    previous hash when that is not the sentinel -1; a line that
    validation rejects, such as one with an empty transaction ID, adds no
    vote to any entry of the tally. *)
Theorem invalid_block_rejected blockData prevHash tgt block miners tally :
  json_Unmarshal blockData = Some block ->
  (exists tx, In tx (elems (Transactions block)) /\ ID tx = "") \/
  (prevHash <> "-1" /\ PrevHash block <> prevHash) ->
  validateBlock blockData prevHash tgt = false /\
  ((exists tx, In tx (elems (Transactions block)) /\ ID tx = "") ->
   receiveBlock miners tally blockData = (tally, [])) /\
  (validateBlock blockData "-1" target = false ->
   (receiveBlock miners tally blockData).1 = tally).
Proof.
  intros Hb Hbad.
  assert (Hempty : (exists tx, In tx (elems (Transactions block)) /\ ID tx = "") ->
                   forall p t, validateBlock blockData p t = false).
  { intros (tx & Hin & Hid) p t.
    destruct (validateBlock blockData p t) eqn:E; [|reflexivity].
    apply validateBlock_true in E as (b & Hb' & _ & Hall).
    rewrite Hb in Hb'. inversion Hb'; subst b.
    rewrite List.Forall_forall in Hall. apply Hall in Hin. contradiction. }
  split; [|split].
  - destruct Hbad as [He | [Hp Hl]]; [apply Hempty; exact He|].
    destruct (validateBlock blockData prevHash tgt) eqn:E; [|reflexivity].
    apply validateBlock_true in E as (b & Hb' & Hlink & _).
    rewrite Hb in Hb'. inversion Hb'; subst b. destruct Hlink; contradiction.
  - intros He. unfold receiveBlock. rewrite Hb, (Hempty He). reflexivity.
  - intros H. apply receiveBlock_rejected. exact H.
Qed.

(** C5: the acceptance is printed exactly when the votes of the hash,
    after this vote, strictly exceed the number of peers divided by two,
    rounded down.  With five peers the third vote reaches the quorum and
    the second does not. *)
Theorem quorum_threshold miners tally blockData :
  validateBlock blockData "-1" target = true ->
  let h := getBlockHash blockData in
  let result := receiveBlock miners tally blockData in
  votes result.1 h = int_incr (votes tally h) /\
  (In (Accepted h) result.2 <-> Z.of_nat (length miners) / 2 < votes result.1 h) /\
  (length miners = 5%nat -> votes tally h = 2 ->
   votes result.1 h = 3 /\ result.2 = [Accepted h]) /\
  (length miners = 5%nat -> votes tally h = 1 ->
   votes result.1 h = 2 /\ result.2 = []).
Proof.
  intros H h result. subst result.
  rewrite (receiveBlock_accepted _ _ _ H). fold h. cbn [fst snd].
  rewrite votes_insert.
  rewrite Z.quot_div_nonneg by lia.
  split; [reflexivity|]. split; [|split].
  - destruct (_ <? _) eqn:E.
    + apply Z.ltb_lt in E. split; [intros _; exact E | intros _; left; reflexivity].
    + apply Z.ltb_ge in E. split; [intros [] | intros Hlt; lia].
  - intros -> ->. split; reflexivity.
  - intros -> ->. split; reflexivity.
Qed.

Lemma invalid_block_rejected_witness :
  validateBlock blank_line "-1" target = false /\
  ((exists tx, In tx (elems (Transactions blank_block)) /\ ID tx = "") ->
   receiveBlock five_peers {[ getBlockHash blank_line := 2 ]} blank_line
   = ({[ getBlockHash blank_line := 2 ]}, [])) /\
  (validateBlock blank_line "-1" target = false ->
   (receiveBlock five_peers {[ getBlockHash blank_line := 2 ]} blank_line).1
   = {[ getBlockHash blank_line := 2 ]}).
Proof.
  apply (invalid_block_rejected blank_line "-1" target blank_block five_peers
           {[ getBlockHash blank_line := 2 ]}).
  - vm_compute. reflexivity.
  - left. exists (mkTransaction "" "result-B"). split; [right; left|]; reflexivity.
Defined.

Lemma quorum_threshold_witness :
  let h := getBlockHash run_line in
  let result := receiveBlock five_peers {[ getBlockHash run_line := 2 ]} run_line in
  votes result.1 h = int_incr (votes {[ getBlockHash run_line := 2 ]} h) /\
  (In (Accepted h) result.2 <-> Z.of_nat (length five_peers) / 2 < votes result.1 h) /\
  (length five_peers = 5%nat -> votes {[ getBlockHash run_line := 2 ]} h = 2 ->
   votes result.1 h = 3 /\ result.2 = [Accepted h]) /\
  (length five_peers = 5%nat -> votes {[ getBlockHash run_line := 2 ]} h = 1 ->
   votes result.1 h = 2 /\ result.2 = []).
Proof.
  apply (quorum_threshold five_peers {[ getBlockHash run_line := 2 ]} run_line).
  vm_compute. reflexivity.
Defined.

(** Three peers send the same line to a node that knows five peers. *)
Example three_votes_of_five :
  (receiveBlocks five_peers no_votes [run_line; run_line]).2 = [] /\
  votes (receiveBlocks five_peers no_votes [run_line; run_line]).1 (getBlockHash run_line) = 2 /\
  (receiveBlocks five_peers no_votes [run_line; run_line; run_line]).2
  = [Accepted (getBlockHash run_line)] /\
  votes (receiveBlocks five_peers no_votes [run_line; run_line; run_line]).1
        (getBlockHash run_line) = 3.
Proof.
  split; [vm_compute; reflexivity|]. split; [vm_compute; reflexivity|].
  split; vm_compute; reflexivity.
Qed.

Example linkage_mismatch :
  validateBlock run_line "-1" target = true /\
  validateBlock run_line (Hash run_block) target = false /\
  validateBlock blank_line "-1" target = false.
Proof.
  split; [vm_compute; reflexivity|]. split; vm_compute; reflexivity.
Qed.

(** C10: validation returns true exactly when the line decodes into a
    block, the expected previous hash is -1 or is the block's PrevHash,
    and no transaction of the block has an empty ID.  The verdict does
    not depend on the target, nor on any field other than PrevHash and
    the transaction IDs: a block without transactions is accepted and
    voted for, and so is a block whose Hash is not the digest of its
    content and is not below the target. *)
Theorem validateBlock_characterisation :
  (forall blockData prevHash tgt,
     validateBlock blockData prevHash tgt = true <->
     exists block,
       json_Unmarshal blockData = Some block /\
       (prevHash = "-1" \/ PrevHash block = prevHash) /\
       Forall (fun tx => ID tx <> "") (elems (Transactions block))) /\
  (forall blockData prevHash tgt tgt',
     validateBlock blockData prevHash tgt = validateBlock blockData prevHash tgt') /\
  (forall d1 d2 b1 b2 prevHash tgt,
     json_Unmarshal d1 = Some b1 -> json_Unmarshal d2 = Some b2 ->
     PrevHash b1 = PrevHash b2 ->
     map ID (elems (Transactions b1)) = map ID (elems (Transactions b2)) ->
     validateBlock d1 prevHash tgt = validateBlock d2 prevHash tgt) /\
  (validateBlock hollow_line "-1" target = true /\
   votes (receiveBlock five_peers no_votes hollow_line).1 (getBlockHash hollow_line) = 1) /\
  (json_Unmarshal forged_line = Some forged_block /\
   ~ proof_of_work forged_block /\
   validateBlock forged_line "-1" target = true /\
   votes (receiveBlock five_peers no_votes forged_line).1 (getBlockHash forged_line) = 1).
Proof.
  split; [exact validateBlock_true|].
  split; [reflexivity|].
  split.
  { intros d1 d2 b1 b2 prevHash tgt H1 H2 Hp Hids.
    unfold validateBlock. rewrite H1, H2, Hp, !validate_transactions_ids, Hids.
    reflexivity. }
  split.
  { split; vm_compute; reflexivity. }
  split; [vm_compute; reflexivity|].
  split; [|split; vm_compute; reflexivity].
  intros [H _]. vm_compute in H. discriminate H.
Qed.

(** ** The round trip of the broadcast encoding *)

Lemma ascii_of_byte_of_ascii (a : ascii) : ascii_of_byte (byte_of_ascii a) = a.
Proof.
  unfold ascii_of_byte, byte_of_ascii. rewrite N2Z.id. apply ascii_N_embedding.
Qed.

Lemma byte_of_ascii_eq (a : ascii) (c : Z) :
  (byte_of_ascii a =? c) = true -> a = ascii_of_byte c.
Proof. intros H. apply Z.eqb_eq in H. rewrite <- H. symmetry. apply ascii_of_byte_of_ascii. Qed.

Lemma append_cons (a : ascii) (s t : string) : String a s +:+ t = String a (s +:+ t).
Proof. reflexivity. Qed.

Lemma append_assoc (s1 s2 s3 : string) : (s1 +:+ s2) +:+ s3 = s1 +:+ (s2 +:+ s3).
Proof.
  induction s1 as [|a s1 IH]; [reflexivity|].
  rewrite !append_cons, IH. reflexivity.
Qed.

Lemma append_empty_r (s : string) : s +:+ EmptyString = s.
Proof.
  induction s as [|a s IH]; [reflexivity|].
  rewrite append_cons, IH. reflexivity.
Qed.

Lemma length_append (s t : string) :
  String.length (s +:+ t) = (String.length s + String.length t)%nat.
Proof.
  induction s as [|a s IH]; [reflexivity|].
  rewrite append_cons. simpl. rewrite IH. reflexivity.
Qed.

(** One ASCII character, as the encoder writes it, is read back as
    itself. *)
Lemma unquote_ascii (a : ascii) (tail : string) :
  (byte_of_ascii a <? 0x80) = true ->
  unquote_body ((if htmlSafe (byte_of_ascii a) then String a EmptyString else escape a) +:+ tail)
  = cons_result a (unquote_body tail).
Proof.
  destruct a as [[] [] [] [] [] [] [] []]; intros H;
    first [discriminate H | reflexivity].
Qed.

(** The length of a well-formed sequence depends on its own bytes
    only. *)
Lemma utf8_size_2 c a2 r r' :
  utf8_size c (String a2 r) = 2%nat -> utf8_size c (String a2 r') = 2%nat.
Proof.
  unfold utf8_size. cbv zeta.
  destruct ((0xC2 <=? c) && (c <=? 0xDF)); [intros H; exact H|].
  destruct r as [|a3 [|a4 r4]];
    repeat match goal with |- context [if ?b then _ else _] => destruct b end;
    discriminate.
Qed.

Lemma utf8_size_3 c a2 a3 r r' :
  utf8_size c (String a2 (String a3 r)) = 3%nat ->
  utf8_size c (String a2 (String a3 r')) = 3%nat.
Proof.
  unfold utf8_size. cbv zeta.
  destruct ((0xC2 <=? c) && (c <=? 0xDF));
    [destruct (continuation (byte_of_ascii a2)); discriminate|].
  destruct ((0xE0 <=? c) && (c <=? 0xEF)); [intros H; exact H|].
  destruct r as [|a4 r4];
    repeat match goal with |- context [if ?b then _ else _] => destruct b end;
    discriminate.
Qed.

Lemma utf8_size_4 c a2 a3 a4 r r' :
  utf8_size c (String a2 (String a3 (String a4 r))) = 4%nat ->
  utf8_size c (String a2 (String a3 (String a4 r'))) = 4%nat.
Proof.
  unfold utf8_size. cbv zeta.
  destruct ((0xC2 <=? c) && (c <=? 0xDF));
    [destruct (continuation (byte_of_ascii a2)); discriminate|].
  destruct ((0xE0 <=? c) && (c <=? 0xEF)); [|intros H; exact H].
  repeat match goal with |- context [if ?b then _ else _] => destruct b end;
    discriminate.
Qed.

Lemma utf8_size_bound c r : (utf8_size c r <= 4)%nat.
Proof.
  unfold utf8_size. cbv zeta.
  destruct r as [|a2 [|a3 [|a4 r4]]];
    repeat match goal with |- context [if ?b then _ else _] => destruct b end; lia.
Qed.

(** A string of valid UTF-8, as the encoder writes it between quotes, is
    read back as itself. *)
Lemma unquote_quote_body (n : nat) :
  forall s tail,
    (String.length s <= n)%nat ->
    utf8_ValidString s = true ->
    unquote_body (quote_body s +:+ String dquote tail) = Some (s, tail).
Proof.
  induction n as [|n IH]; intros s tail Hlen Hv.
  - destruct s; [reflexivity | simpl in Hlen; lia].
  - destruct s as [|a1 r1]; [reflexivity|].
    simpl in Hlen. cbn [utf8_ValidString] in Hv. cbn [quote_body]. cbv zeta.
    destruct (byte_of_ascii a1 <? 0x80) eqn:Hasc.
    + assert (E : (if htmlSafe (byte_of_ascii a1)
                   then String a1 (quote_body r1)
                   else escape a1 +:+ quote_body r1) +:+ String dquote tail
                  = (if htmlSafe (byte_of_ascii a1) then String a1 EmptyString else escape a1)
                    +:+ (quote_body r1 +:+ String dquote tail)).
      { destruct (htmlSafe (byte_of_ascii a1)); [reflexivity | apply append_assoc]. }
      rewrite E, (unquote_ascii _ _ Hasc), IH by (assumption || lia). reflexivity.
    + destruct (utf8_size (byte_of_ascii a1) r1) as [|[|[|[|[|k]]]]] eqn:Hsz;
        try discriminate Hv.
      * (* two bytes *)
        destruct r1 as [|a2 r2]; cbv beta iota in Hv; [discriminate Hv|].
        rewrite !append_cons. cbn [unquote_body]. cbv zeta.
        rewrite Hasc, (utf8_size_2 _ _ _ _ Hsz).
        rewrite IH by (assumption || (simpl in Hlen; lia)). reflexivity.
      * (* three bytes *)
        destruct r1 as [|a2 [|a3 r3]]; cbv beta iota in Hv; try discriminate Hv.
        destruct ((byte_of_ascii a1 =? 0xE2) && (byte_of_ascii a2 =? 0x80)
                  && ((byte_of_ascii a3 =? 0xA8) || (byte_of_ascii a3 =? 0xA9))) eqn:Hsep.
        -- apply andb_prop in Hsep as [Hsep H3]. apply andb_prop in Hsep as [H1 H2].
           apply byte_of_ascii_eq in H1, H2. subst a1 a2.
           apply orb_prop in H3 as [H3|H3]; apply byte_of_ascii_eq in H3; subst a3.
           ++ transitivity (app_result (utf8_EncodeRune 0x2028)
                              (unquote_body (quote_body r3 +:+ String dquote tail)));
                [reflexivity|].
              rewrite IH by (assumption || (simpl in Hlen; lia)). reflexivity.
           ++ transitivity (app_result (utf8_EncodeRune 0x2029)
                              (unquote_body (quote_body r3 +:+ String dquote tail)));
                [reflexivity|].
              rewrite IH by (assumption || (simpl in Hlen; lia)). reflexivity.
        -- rewrite !append_cons. cbn [unquote_body]. cbv zeta.
           rewrite Hasc, (utf8_size_3 _ _ _ _ _ Hsz).
           rewrite IH by (assumption || (simpl in Hlen; lia)). reflexivity.
      * (* four bytes *)
        destruct r1 as [|a2 [|a3 [|a4 r4]]]; cbv beta iota in Hv; try discriminate Hv.
        rewrite !append_cons. cbn [unquote_body]. cbv zeta.
        rewrite Hasc, (utf8_size_4 _ _ _ _ _ _ Hsz).
        rewrite IH by (assumption || (simpl in Hlen; lia)). reflexivity.
Qed.

Lemma unquote_quote (s tail : string) :
  utf8_ValidString s = true ->
  unquote_body (quote_body s +:+ String dquote tail) = Some (s, tail).
Proof. apply (unquote_quote_body (String.length s)). lia. Qed.

Lemma digits_uint (d : Decimal.uint) (tail : string) :
  number_end tail = true ->
  digits (NilEmpty.string_of_uint d +:+ tail) = (NilEmpty.string_of_uint d, tail).
Proof.
  intros Hend.
  induction d as [|d IH|d IH|d IH|d IH|d IH|d IH|d IH|d IH|d IH|d IH];
    cbn [NilEmpty.string_of_uint];
    try (rewrite append_cons; cbn [digits];
         match goal with |- context [is_digit ?a] => change (is_digit a) with true end;
         cbv iota; rewrite IH; reflexivity).
  change (EmptyString +:+ tail) with tail.
  destruct tail as [|a r]; [reflexivity|].
  cbn [digits]. unfold number_end in Hend.
  destruct (is_digit a); [discriminate Hend | reflexivity].
Qed.

Lemma scan_fraction_end (tail : string) :
  number_end tail = true -> scan_fraction tail = Some (EmptyString, tail).
Proof.
  destruct tail as [|a r]; [reflexivity|].
  unfold number_end, scan_fraction, scan_exponent. intros H.
  apply negb_true_iff in H.
  apply orb_false_elim in H as [H He2]. apply orb_false_elim in H as [H He1].
  apply orb_false_elim in H as [_ Hdot].
  rewrite Hdot, He1, He2. reflexivity.
Qed.

(** The decimal digits of a positive number do not begin with 0. *)
Lemma to_uint_head (p : positive) :
  match Pos.to_uint p with
  | Decimal.Nil | Decimal.D0 _ => False
  | _ => True
  end.
Proof.
  pose proof (DecimalPos.Unsigned.to_of (Pos.to_uint p)) as H.
  rewrite DecimalPos.Unsigned.of_to in H. cbn [N.to_uint] in H.
  pose proof (DecimalPos.Unsigned.to_uint_nonzero p) as Hz.
  pose proof (DecimalFacts.nzhead_nonzero (Pos.to_uint p)) as Hn.
  unfold Decimal.unorm in H.
  destruct (Decimal.nzhead (Pos.to_uint p)) eqn:E;
    try (rewrite H; exact I).
  - exfalso. apply Hz. exact H.
  - exfalso. eapply Hn. reflexivity.
Qed.

Lemma scan_unsigned_uint (p : positive) (tail : string) :
  number_end tail = true ->
  scan_unsigned (NilZero.string_of_uint (Pos.to_uint p) +:+ tail)
  = Some (NilZero.string_of_uint (Pos.to_uint p), tail).
Proof.
  intros Hend. pose proof (to_uint_head p) as Hhead.
  destruct (Pos.to_uint p) as [|d|d|d|d|d|d|d|d|d|d]; try contradiction;
    cbn [NilZero.string_of_uint NilEmpty.string_of_uint];
    rewrite append_cons; unfold scan_unsigned;
    match goal with |- context [byte_of_ascii ?a =? 0x30] =>
      change (byte_of_ascii a =? 0x30) with false;
      change (is_digit a) with true
    end;
    cbv iota; rewrite (digits_uint _ _ Hend), (scan_fraction_end _ Hend), append_empty_r;
    reflexivity.
Qed.

(** A number, as the encoder writes it, is read back as the same
    literal, and the literal as the same number. *)
Lemma scan_number_fmt_d (n : Z) (tail : string) :
  number_end tail = true ->
  scan_number (fmt_d n +:+ tail) = Some (fmt_d n, tail).
Proof.
  intros Hend. unfold fmt_d. destruct n as [|p|p]; cbn [Z.to_int NilZero.string_of_int].
  - change (NilZero.string_of_uint Decimal.zero) with "0". rewrite append_cons.
    unfold scan_number, scan_unsigned.
    change (byte_of_ascii "0" =? 0x2D) with false.
    change (byte_of_ascii "0" =? 0x30) with true. cbv iota.
    change (EmptyString +:+ tail) with tail.
    rewrite (scan_fraction_end _ Hend). reflexivity.
  - pose proof (to_uint_head p) as Hhead.
    pose proof (scan_unsigned_uint p tail Hend) as Hscan.
    destruct (Pos.to_uint p) as [|d|d|d|d|d|d|d|d|d|d] eqn:E; try contradiction;
      cbn [NilZero.string_of_uint NilEmpty.string_of_uint] in *;
      rewrite append_cons in *; unfold scan_number;
      match goal with |- context [byte_of_ascii ?a =? 0x2D] =>
        change (byte_of_ascii a =? 0x2D) with false
      end; cbv iota; exact Hscan.
  - rewrite append_cons. unfold scan_number.
    change (byte_of_ascii "-" =? 0x2D) with true. cbv iota.
    rewrite (scan_unsigned_uint p tail Hend). reflexivity.
Qed.

Lemma parse_int_fmt_d (n : Z) :
  - 2 ^ 63 <= n < 2 ^ 63 -> parse_int (fmt_d n) = Some n.
Proof.
  intros Hn. unfold parse_int, fmt_d.
  rewrite NilZero.isi.
  - rewrite DecimalZ.of_to.
    destruct (- 2 ^ 63 <=? n) eqn:E1; [|apply Z.leb_gt in E1; lia].
    destruct (n <? 2 ^ 63) eqn:E2; [reflexivity | apply Z.ltb_ge in E2; lia].
  - destruct n as [|p|p]; cbn [Z.to_int]; try discriminate.
    intros H. inversion H as [H']. exact (DecimalPos.Unsigned.to_uint_nonnil p H').
  - destruct n as [|p|p]; cbn [Z.to_int]; try discriminate.
    intros H. inversion H as [H']. exact (DecimalPos.Unsigned.to_uint_nonnil p H').
Qed.

Lemma print_JArray (l : list json) :
  print (JArray l) = "[" +:+ String.concat "," (map print l) +:+ "]".
Proof. reflexivity. Qed.

Lemma print_JObject (l : list (string * json)) :
  print (JObject l) = "{" +:+ String.concat "," (map print_member l) +:+ "}".
Proof. reflexivity. Qed.

Lemma concat_cons2 (sep x y : string) (l : list string) :
  String.concat sep (x :: y :: l) = x +:+ sep +:+ String.concat sep (y :: l).
Proof. reflexivity. Qed.

Lemma int_literal_fmt_d (literal : string) :
  int_literal literal = true -> exists n, literal = fmt_d n.
Proof.
  unfold int_literal. destruct (NilZero.int_of_string literal) as [d|]; [|discriminate].
  intros H. apply String.eqb_eq in H. eauto.
Qed.

Lemma fmt_d_head (n : Z) : exists a r, fmt_d n = String a r /\ number_head a = true.
Proof.
  unfold fmt_d. destruct n as [|p|p]; cbn [Z.to_int NilZero.string_of_int].
  - exists "0"%char, EmptyString. split; reflexivity.
  - pose proof (to_uint_head p) as Hhead.
    destruct (Pos.to_uint p) as [|d|d|d|d|d|d|d|d|d|d]; try contradiction;
      cbn [NilZero.string_of_uint NilEmpty.string_of_uint];
      eexists _, _; split; reflexivity.
  - eexists _, _. split; reflexivity.
Qed.

Lemma parse_value_number (fuel : nat) (d : N) (a : ascii) (x : string) :
  number_head a = true ->
  parse_value (S fuel) d (String a x)
  = match scan_number (String a x) with
    | Some (literal, rest) => Some (JNumber literal, rest)
    | None => None
    end.
Proof.
  destruct a as [[] [] [] [] [] [] [] []]; intros H;
    first [discriminate H | reflexivity].
Qed.

Lemma parse_value_string (fuel : nat) (d : N) (x : string) :
  parse_value (S fuel) d (String dquote x)
  = match unquote_body x with
    | Some (t, rest) => Some (JString t, rest)
    | None => None
    end.
Proof. reflexivity. Qed.

Lemma number_head_value_head (a : ascii) : number_head a = true -> value_head a = true.
Proof.
  destruct a as [[] [] [] [] [] [] [] []]; intros H;
    first [discriminate H | reflexivity].
Qed.

Lemma print_head (v : json) :
  encodable v = true -> exists a r, print v = String a r /\ value_head a = true.
Proof.
  destruct v as [|[]|literal|s|l|l]; intros H;
    try (eexists _, _; split; reflexivity).
  cbn [encodable] in H. apply int_literal_fmt_d in H as [n ->].
  destruct (fmt_d_head n) as (a & r & E & Ha). cbn [print]. rewrite E.
  exists a, r. split; [reflexivity | apply number_head_value_head; exact Ha].
Qed.

Lemma skip_space_head (a : ascii) (x : string) :
  is_space a = false -> skip_space (String a x) = String a x.
Proof. intros H. cbn [skip_space]. rewrite H. reflexivity. Qed.

Lemma value_head_inv (a : ascii) :
  value_head a = true ->
  is_space a = false /\ (byte_of_ascii a =? 0x5D) = false /\ (byte_of_ascii a =? 0x7D) = false.
Proof.
  unfold value_head. intros H. apply negb_true_iff in H.
  apply orb_false_elim in H as [H H3]. apply orb_false_elim in H as [H1 H2]. auto.
Qed.

Lemma parse_value_array (fuel : nat) (d : N) (x : string) :
  (maxNestingDepth <=? d)%N = false ->
  parse_value (S fuel) d (String "[" x)
  = match skip_space x with
    | String b r =>
        if byte_of_ascii b =? 0x5D then Some (JArray [], r)
        else match parse_elements fuel (d + 1)%N (String b r) with
             | Some (l, rest) => Some (JArray l, rest)
             | None => None
             end
    | EmptyString => None
    end.
Proof.
  intros H.
  transitivity
    (if (maxNestingDepth <=? d)%N then None
     else match skip_space x with
          | String b r =>
              if byte_of_ascii b =? 0x5D then Some (JArray [], r)
              else match parse_elements fuel (d + 1)%N (String b r) with
                   | Some (l, rest) => Some (JArray l, rest)
                   | None => None
                   end
          | EmptyString => None
          end); [reflexivity | rewrite H; reflexivity].
Qed.

Lemma parse_value_object (fuel : nat) (d : N) (x : string) :
  (maxNestingDepth <=? d)%N = false ->
  parse_value (S fuel) d (String "{" x)
  = match skip_space x with
    | String b r =>
        if byte_of_ascii b =? 0x7D then Some (JObject [], r)
        else match parse_members fuel (d + 1)%N (String b r) with
             | Some (l, rest) => Some (JObject l, rest)
             | None => None
             end
    | EmptyString => None
    end.
Proof.
  intros H.
  transitivity
    (if (maxNestingDepth <=? d)%N then None
     else match skip_space x with
          | String b r =>
              if byte_of_ascii b =? 0x7D then Some (JObject [], r)
              else match parse_members fuel (d + 1)%N (String b r) with
                   | Some (l, rest) => Some (JObject l, rest)
                   | None => None
                   end
          | EmptyString => None
          end); [reflexivity | rewrite H; reflexivity].
Qed.

Lemma parse_elements_S (fuel : nat) (d : N) (s : string) :
  parse_elements (S fuel) d s
  = match parse_value fuel d s with
    | Some (v, r) =>
        match skip_space r with
        | String a r' =>
            if byte_of_ascii a =? 0x2C then
              match parse_elements fuel d r' with
              | Some (l, rest) => Some (v :: l, rest)
              | None => None
              end
            else if byte_of_ascii a =? 0x5D then Some ([v], r')
            else None
        | EmptyString => None
        end
    | None => None
    end.
Proof. reflexivity. Qed.

Lemma parse_members_quote (fuel : nat) (d : N) (x : string) :
  parse_members (S fuel) d (String dquote x)
  = match unquote_body x with
    | Some (k, r1) =>
        match skip_space r1 with
        | String colon r2 =>
            if byte_of_ascii colon =? 0x3A then
              match parse_value fuel d r2 with
              | Some (v, r3) =>
                  match skip_space r3 with
                  | String a r4 =>
                      if byte_of_ascii a =? 0x2C then
                        match parse_members fuel d r4 with
                        | Some (l, rest) => Some ((k, v) :: l, rest)
                        | None => None
                        end
                      else if byte_of_ascii a =? 0x7D then Some ([(k, v)], r4)
                      else None
                  | EmptyString => None
                  end
              | None => None
              end
            else None
        | EmptyString => None
        end
    | None => None
    end.
Proof. reflexivity. Qed.

Lemma quote_append (s tail : string) :
  quote s +:+ tail = String dquote (quote_body s +:+ String dquote tail).
Proof. unfold quote. rewrite append_cons, append_assoc. reflexivity. Qed.

Lemma fold_max_le (l : list N) (x : N) :
  In x l -> (x <= fold_right N.max 0 l)%N.
Proof.
  induction l as [|y l IH]; [intros []|].
  intros [-> | H]; simpl; [lia | specialize (IH H); lia].
Qed.

Lemma append_empty_l (s : string) : EmptyString +:+ s = s.
Proof. reflexivity. Qed.

(** Brings a text into the form of characters in front of a tail. *)
Ltac norm_text :=
  repeat (rewrite append_assoc || rewrite append_cons || rewrite append_empty_l).

(** The text of an encodable value, followed by anything that does not
    extend a number, is read back as the value. *)
Lemma parse_print (fuel : nat) :
  (forall v d tail,
     (weight v < fuel)%nat -> encodable v = true ->
     (d + height v <= maxNestingDepth)%N -> number_end tail = true ->
     parse_value fuel d (print v +:+ tail) = Some (v, tail)) /\
  (forall v l d tail,
     (list_sum (map (fun v => S (weight v)) (v :: l)) < fuel)%nat ->
     forallb encodable (v :: l) = true ->
     (d + fold_right N.max 0 (map height (v :: l)) <= maxNestingDepth)%N ->
     parse_elements fuel d (String.concat "," (map print (v :: l)) +:+ String "]" tail)
     = Some (v :: l, tail)) /\
  (forall m l d tail,
     (list_sum (map (fun m => S (weight m.2)) (m :: l)) < fuel)%nat ->
     forallb (fun m => utf8_ValidString m.1 && encodable m.2) (m :: l) = true ->
     (d + fold_right N.max 0 (map (fun m => height m.2) (m :: l)) <= maxNestingDepth)%N ->
     parse_members fuel d (String.concat "," (map print_member (m :: l)) +:+ String "}" tail)
     = Some (m :: l, tail)).
Proof.
  induction fuel as [|fuel (IHv & IHe & IHm)]; [repeat split; intros; lia|].
  split; [|split].
  - (* a value *)
    intros v d tail Hw He Hh Hend.
    destruct v as [|[]|literal|s|l|l]; try reflexivity.
    + (* number *)
      cbn [encodable] in He. apply int_literal_fmt_d in He as [n ->]. cbn [print].
      destruct (fmt_d_head n) as (a & r & E & Ha).
      pose proof (scan_number_fmt_d n tail Hend) as Hscan.
      rewrite E in *. rewrite append_cons in *.
      rewrite (parse_value_number _ _ _ _ Ha), Hscan. reflexivity.
    + (* string *)
      cbn [encodable] in He. cbn [print].
      rewrite quote_append, parse_value_string, (unquote_quote _ _ He). reflexivity.
    + (* array *)
      rewrite print_JArray. norm_text. cbn [height] in Hh. cbn [weight] in Hw.
      rewrite parse_value_array by (apply N.leb_gt; lia).
      destruct l as [|v l].
      * reflexivity.
      * cbn [encodable] in He.
        assert (Hv : encodable v = true) by (cbn [forallb] in He; apply andb_prop in He; tauto).
        destruct (print_head v Hv) as (a & r & E & Ha).
        apply value_head_inv in Ha as (Hs & Hb & _).
        assert (Ehead : exists x, String.concat "," (map print (v :: l)) +:+ String "]" tail
                                  = String a x).
        { destruct l as [|v' l].
          - cbn [map String.concat]. rewrite E, append_cons. eauto.
          - cbn [map]. rewrite concat_cons2, E, !append_cons. eauto. }
        destruct Ehead as [x Ex].
        pose proof (IHe v l (d + 1)%N tail) as IH. rewrite Ex in *.
        rewrite (skip_space_head _ _ Hs), Hb, IH; [reflexivity | unfold list_sum in *; lia | exact He | lia].
    + (* object *)
      rewrite print_JObject. norm_text. cbn [height] in Hh. cbn [weight] in Hw.
      rewrite parse_value_object by (apply N.leb_gt; lia).
      destruct l as [|m l].
      * reflexivity.
      * cbn [encodable] in He.
        assert (Ehead : exists x,
                  String.concat "," (map print_member (m :: l)) +:+ String "}" tail
                  = String dquote x).
        { destruct l as [|m' l].
          - cbn [map String.concat]. unfold print_member at 1.
            rewrite append_assoc, quote_append. eauto.
          - cbn [map]. rewrite concat_cons2. unfold print_member at 1.
            rewrite !append_assoc, quote_append. eauto. }
        destruct Ehead as [x Ex].
        pose proof (IHm m l (d + 1)%N tail) as IH. rewrite Ex in *.
        rewrite (skip_space_head dquote x eq_refl).
        change (byte_of_ascii dquote =? 0x7D) with false. cbv iota.
        rewrite IH; [reflexivity | unfold list_sum in *; lia | exact He | lia].
  - (* the elements of an array *)
    intros v l d tail Hw He Hh.
    cbn [forallb] in He. apply andb_prop in He as [Hv Hl].
    unfold list_sum in Hw. cbn [map fold_right] in Hw, Hh.
    rewrite parse_elements_S.
    destruct l as [|v' l].
    + cbn [map String.concat].
      rewrite IHv by (try assumption; try reflexivity; lia).
      reflexivity.
    + cbn [map]. rewrite concat_cons2. norm_text.
      change (print v' :: map print l) with (map print (v' :: l)).
      rewrite IHv by (try assumption; try reflexivity; lia).
      rewrite (skip_space_head "," _ eq_refl).
      change (byte_of_ascii "," =? 0x2C) with true. cbv iota.
      rewrite IHe; [reflexivity | | exact Hl |].
      * unfold list_sum in *. cbn [map fold_right] in *. lia.
      * cbn [map fold_right] in *. lia.
  - (* the members of an object *)
    intros m l d tail Hw He Hh.
    cbn [forallb] in He. apply andb_prop in He as [Hm Hl].
    apply andb_prop in Hm as [Hk Hv].
    unfold list_sum in Hw. cbn [map fold_right] in Hw, Hh.
    assert (Estep : forall rest,
              number_end rest = true ->
              unquote_body (quote_body m.1 +:+ String dquote (String ":" (print m.2 +:+ rest)))
              = Some (m.1, String ":" (print m.2 +:+ rest)) /\
              parse_value fuel d (print m.2 +:+ rest) = Some (m.2, rest)).
    { intros rest Hrest. split; [apply unquote_quote; exact Hk|].
      apply IHv; try assumption; lia. }
    destruct l as [|m' l].
    + cbn [map String.concat]. unfold print_member.
      rewrite !append_assoc, quote_append, parse_members_quote. norm_text.
      destruct (Estep (String "}" tail) eq_refl) as [E1 E2].
      rewrite E1. rewrite (skip_space_head ":" _ eq_refl).
      change (byte_of_ascii ":" =? 0x3A) with true. cbv iota.
      rewrite E2. destruct m; reflexivity.
    + cbn [map]. rewrite concat_cons2. unfold print_member at 1.
      rewrite !append_assoc, quote_append, parse_members_quote. norm_text.
      change (print_member m' :: map print_member l) with (map print_member (m' :: l)).
      destruct (Estep (String "," (String.concat "," (map print_member (m' :: l))
                                     +:+ String "}" tail)) eq_refl) as [E1 E2].
      rewrite E1. rewrite (skip_space_head ":" _ eq_refl).
      change (byte_of_ascii ":" =? 0x3A) with true. cbv iota.
      rewrite E2. rewrite (skip_space_head "," _ eq_refl).
      change (byte_of_ascii "," =? 0x2C) with true. cbv iota.
      rewrite IHm; [destruct m; reflexivity | | exact Hl |].
      * unfold list_sum in *. cbn [map fold_right] in *. lia.
      * cbn [map fold_right] in *. lia.
Qed.

Lemma int_literal_json_of_int (n : Z) : int_literal (fmt_d n) = true.
Proof.
  unfold int_literal, fmt_d. rewrite NilZero.isi.
  - rewrite DecimalZ.of_to. apply String.eqb_refl.
  - destruct n as [|p|p]; cbn [Z.to_int]; try discriminate.
    intros H. inversion H as [H']. exact (DecimalPos.Unsigned.to_uint_nonnil p H').
  - destruct n as [|p|p]; cbn [Z.to_int]; try discriminate.
    intros H. inversion H as [H']. exact (DecimalPos.Unsigned.to_uint_nonnil p H').
Qed.

Lemma json_of_Transactions_facts (l : list Transaction) :
  forallb Transaction_ok l = true ->
  forallb encodable (map json_of_Transaction l) = true /\
  list_sum (map (fun v => S (weight v)) (map json_of_Transaction l)) = (4 * length l)%nat /\
  (fold_right N.max 0 (map height (map json_of_Transaction l)) <= 1)%N /\
  decode_elements (map json_of_Transaction l) [] = Some l /\
  (2 * length l <= String.length (String.concat "," (map print (map json_of_Transaction l))) + 1)%nat.
Proof.
  induction l as [|t l IH]; intros H.
  - repeat split; simpl; lia.
  - cbn [forallb] in H. apply andb_prop in H as [Ht Hl].
    destruct (IH Hl) as (He & Hw & Hh & Hd & Hlen). clear IH.
    unfold Transaction_ok in Ht. apply andb_prop in Ht as [Hid Hdata].
    cbn [map]. split; [|split; [|split; [|split]]].
    + cbn [forallb]. rewrite He.
      unfold json_of_Transaction at 1. cbn [encodable forallb fst snd].
      rewrite Hid, Hdata. reflexivity.
    + cbn [list_sum]. unfold list_sum in *. cbn [fold_right]. rewrite Hw.
      cbn [json_of_Transaction weight map list_sum fold_right snd]. simpl length. lia.
    + cbn [fold_right]. change (height (json_of_Transaction t)) with 1%N. lia.
    + cbn [decode_elements hd tl]. rewrite Hd.
      destruct t as [i d]. reflexivity.
    + destruct (map json_of_Transaction l) as [|v r] eqn:E.
      * destruct l; [|discriminate E]. simpl. lia.
      * cbn [map] in *. rewrite concat_cons2, !length_append.
        assert (Hone : (1 <= String.length (print (json_of_Transaction t)))%nat).
        { change (print (json_of_Transaction t))
            with (String "{" (String.concat ","
                    (map print_member
                       [("ID", JString (ID t)); ("Data", JString (Data t))]) +:+ "}")).
          cbn [String.length]. lia. }
        change (String.length ",") with 1%nat. cbn [length]. lia.
Qed.

Lemma decode_json_of_Block (b : Block) :
  Block_ok b = true -> decode_Block (json_of_Block b) zeroBlock = Some b.
Proof.
  unfold Block_ok. intros H.
  repeat (apply andb_prop in H as [H ?]).
  destruct b as [p txs n h c k]. cbn [PrevHash Transactions Nonce Hash PrevCID BlockNumber] in *.
  assert (Hn : parse_int (fmt_d n) = Some n).
  { apply parse_int_fmt_d. unfold int_ok in *.
    repeat match goal with H : (_ && _) = true |- _ => apply andb_prop in H as [? ?] end.
    lia. }
  assert (Hk : parse_int (fmt_d k) = Some k).
  { apply parse_int_fmt_d. unfold int_ok in *.
    repeat match goal with H : (_ && _) = true |- _ => apply andb_prop in H as [? ?] end.
    lia. }
  assert (Ht : decode_Transactions (json_of_Transactions txs) None [] = Some (txs, [])).
  { destruct txs as [l|]; [|reflexivity]. cbn [json_of_Transactions decode_Transactions].
    cbn [elems] in *.
    match goal with Hl : forallb Transaction_ok l = true |- _ =>
      destruct (json_of_Transactions_facts l Hl) as (_ & _ & _ & Hd & _) end.
    destruct l as [|t l]; [reflexivity|].
    cbn [map app] in *. rewrite Hd. reflexivity. }
  unfold decode_Block, json_of_Block.
  cbn [fold_left].
  repeat first
    [ progress cbn [decode_Block_member fst snd decode_string decode_int json_of_int
                    option_map zeroBlock PrevHash Transactions Nonce Hash PrevCID BlockNumber]
    | progress change (Block_field "PrevHash") with (Some FieldPrevHash)
    | progress change (Block_field "Transactions") with (Some FieldTransactions)
    | progress change (Block_field "Nonce") with (Some FieldNonce)
    | progress change (Block_field "Hash") with (Some FieldHash)
    | progress change (Block_field "PrevCID") with (Some FieldPrevCID)
    | progress change (Block_field "BlockNumber") with (Some FieldBlockNumber)
    | rewrite Ht | rewrite Hn | rewrite Hk ].
  reflexivity.
Qed.

Lemma json_of_Block_facts (b : Block) :
  Block_ok b = true ->
  encodable (json_of_Block b) = true /\
  (weight (json_of_Block b) < 2 * String.length (print (json_of_Block b)) + 2)%nat /\
  (0 + height (json_of_Block b) <= maxNestingDepth)%N.
Proof.
  unfold Block_ok. intros H.
  repeat (apply andb_prop in H as [H ?]).
  destruct b as [p txs n h c k]. cbn [PrevHash Transactions Nonce Hash PrevCID BlockNumber] in *.
  assert (Ht : encodable (json_of_Transactions txs) = true /\
               (weight (json_of_Transactions txs)
                <= 2 * String.length (print (json_of_Transactions txs)))%nat /\
               (height (json_of_Transactions txs) <= 2)%N).
  { destruct txs as [l|]; [|repeat split; simpl; lia]. cbn [elems] in *.
    match goal with Hl : forallb Transaction_ok l = true |- _ =>
      destruct (json_of_Transactions_facts l Hl) as (He & Hw & Hh & _ & Hlen) end.
    cbn [json_of_Transactions]. split; [exact He|]. split.
    - cbn [weight]. rewrite Hw, print_JArray, !length_append.
      change (String.length "[") with 1%nat. change (String.length "]") with 1%nat. lia.
    - cbn [height]. lia. }
  destruct Ht as (He & Hw & Hh).
  split; [|split].
  - unfold json_of_Block.
    cbn [encodable forallb fst snd json_of_int PrevHash Transactions Nonce Hash PrevCID
         BlockNumber].
    rewrite He, !int_literal_json_of_int.
    repeat match goal with Hs : utf8_ValidString _ = true |- _ => rewrite Hs; clear Hs end.
    reflexivity.
  - unfold json_of_Block at 1. unfold list_sum.
    cbn [weight map fold_right snd json_of_int PrevHash Transactions Nonce Hash PrevCID
         BlockNumber].
    unfold json_of_Block. rewrite print_JObject.
    cbn [map PrevHash Transactions Nonce Hash PrevCID BlockNumber].
    rewrite !concat_cons2. cbn [String.concat]. unfold print_member. cbn [fst snd].
    rewrite !length_append. unfold list_sum. cbn [String.length fold_right]. lia.
  - unfold json_of_Block.
    cbn [height map fold_right snd json_of_int PrevHash Transactions Nonce Hash PrevCID
         BlockNumber].
    unfold maxNestingDepth. lia.
Qed.

(** C9, as stated, fails: the encoder replaces a byte that is not UTF-8
    by the escape of U+FFFD, which is read back as three other bytes. *)
Lemma round_trip_loses_bytes :
  ~ round_trip binary_block /\
  json_Unmarshal (json_Marshal binary_block)
  = Some (mkBlock "-1" (Some [mkTransaction "id" replacement]) 0 "" "" 0).
Proof.
  split; [|vm_compute; reflexivity].
  unfold round_trip. vm_compute. intros H. discriminate H.
Qed.

(** C9, amended: for every block whose strings are valid UTF-8 (and
    whose integers are within the range of int, as those of a Go value
    are), decoding the encoded block succeeds and gives back the block,
    field for field, PrevCID and BlockNumber included. *)
Theorem marshal_unmarshal_round_trip (b : Block) :
  Block_ok b = true -> json_Unmarshal (json_Marshal b) = Some b.
Proof.
  intros H.
  destruct (json_of_Block_facts b H) as (He & Hw & Hh).
  unfold json_Unmarshal, json_Marshal, parse.
  pose proof (proj1 (parse_print (2 * String.length (print (json_of_Block b)) + 2))
                (json_of_Block b) 0%N EmptyString Hw He Hh eq_refl) as Hp.
  rewrite append_empty_r in Hp. rewrite Hp. cbn [skip_space].
  apply decode_json_of_Block. exact H.
Qed.

Lemma marshal_unmarshal_round_trip_witness :
  json_Unmarshal (json_Marshal run_block) = Some run_block.
Proof.
  apply (marshal_unmarshal_round_trip run_block). vm_compute. reflexivity.
Defined.

(** ** The fuel of the reader is enough *)

Lemma skip_space_length (s : string) :
  (String.length (skip_space s) <= String.length s)%nat.
Proof.
  induction s as [|a s IH]; [reflexivity|].
  cbn [skip_space]. destruct (is_space a); cbn [String.length]; lia.
Qed.

Lemma cons_result_length a r t rest (n : nat) :
  cons_result a r = Some (t, rest) ->
  (forall t' rest', r = Some (t', rest') -> (String.length rest' < n)%nat) ->
  (String.length rest < n)%nat.
Proof.
  destruct r as [[t' rest']|]; [|discriminate].
  intros H Hr. inversion H; subst. eapply Hr. reflexivity.
Qed.

Lemma app_result_length p r t rest (n : nat) :
  app_result p r = Some (t, rest) ->
  (forall t' rest', r = Some (t', rest') -> (String.length rest' < n)%nat) ->
  (String.length rest < n)%nat.
Proof.
  destruct r as [[t' rest']|]; [|discriminate].
  intros H Hr. inversion H; subst. eapply Hr. reflexivity.
Qed.

(** A string literal is at least its closing quote. *)
Lemma unquote_body_length (n : nat) :
  forall s t rest,
    (String.length s <= n)%nat ->
    unquote_body s = Some (t, rest) -> (String.length rest < String.length s)%nat.
Proof.
  induction n as [|n IH]; intros s t rest Hn H.
  - destruct s; [discriminate H | simpl in Hn; lia].
  - destruct s as [|a1 r1]; [discriminate H|].
    assert (IH' : forall s' t' rest',
              (String.length s' <= String.length r1)%nat ->
              unquote_body s' = Some (t', rest') ->
              (String.length rest' < String.length (String a1 r1))%nat).
    { intros s' t' rest' Hs' H'. cbn [String.length] in *.
      assert (Hle : (String.length s' <= n)%nat) by lia.
      specialize (IH _ _ _ Hle H'). lia. }
    clear IH.
    cbn [String.length] in Hn.
    cbn [unquote_body] in H. cbv zeta in H.
    repeat match type of H with
    | Some _ = Some _ => inversion H; subst; cbn [String.length]; lia
    | None = Some _ => discriminate H
    | cons_result _ _ = Some _ =>
        eapply cons_result_length in H; [exact H|]; clear H; intros ? ? H
    | app_result _ _ = Some _ =>
        eapply app_result_length in H; [exact H|]; clear H; intros ? ? H
    | unquote_body _ = Some _ =>
        eapply IH' in H; [exact H | cbn [String.length] in *; lia]
    | context [if ?c then _ else _] => destruct c
    | context [match ?x with _ => _ end] => destruct x
    end.
Qed.

Lemma digits_length (s : string) :
  (String.length (digits s).2 <= String.length s)%nat.
Proof.
  induction s as [|a s IH]; [reflexivity|].
  cbn [digits]. destruct (is_digit a); [|reflexivity].
  destruct (digits s) as [d rest]. cbn [snd String.length] in *. lia.
Qed.

Lemma scan_exponent_length s literal rest :
  scan_exponent s = Some (literal, rest) -> (String.length rest <= String.length s)%nat.
Proof.
  unfold scan_exponent. intros H.
  destruct s as [|e r]; [inversion H; reflexivity|].
  destruct ((byte_of_ascii e =? 0x65) || (byte_of_ascii e =? 0x45));
    [|inversion H; reflexivity].
  destruct r as [|sg r']; [discriminate H|].
  destruct ((byte_of_ascii sg =? 0x2B) || (byte_of_ascii sg =? 0x2D)).
  - pose proof (digits_length r') as Hd. destruct (digits r') as [[|a d] rest'];
      [discriminate H|]. inversion H; subst. cbn [snd String.length] in *. lia.
  - pose proof (digits_length (String sg r')) as Hd.
    destruct (digits (String sg r')) as [[|a d] rest'];
      [discriminate H|]. inversion H; subst. cbn [snd String.length] in *. lia.
Qed.

Lemma scan_fraction_length s literal rest :
  scan_fraction s = Some (literal, rest) -> (String.length rest <= String.length s)%nat.
Proof.
  unfold scan_fraction. intros H.
  destruct s as [|p r]; [inversion H; reflexivity|].
  destruct (byte_of_ascii p =? 0x2E); [|apply scan_exponent_length in H; exact H].
  pose proof (digits_length r) as Hd. destruct (digits r) as [[|a d] rest'];
    [discriminate H|].
  destruct (scan_exponent rest') as [[e rest'']|] eqn:E; [|discriminate H].
  apply scan_exponent_length in E. inversion H; subst.
  cbn [snd String.length] in *. lia.
Qed.

Lemma scan_number_length s literal rest :
  scan_number s = Some (literal, rest) -> (String.length rest < String.length s)%nat.
Proof.
  assert (Hu : forall s literal rest,
            scan_unsigned s = Some (literal, rest) ->
            (String.length rest < String.length s)%nat).
  { clear. intros s literal rest H. unfold scan_unsigned in H.
    destruct s as [|a r]; [discriminate H|].
    destruct (byte_of_ascii a =? 0x30).
    - destruct (scan_fraction r) as [[f rest']|] eqn:E; [|discriminate H].
      apply scan_fraction_length in E. inversion H; subst. cbn [String.length]. lia.
    - destruct (is_digit a); [|discriminate H].
      pose proof (digits_length r) as Hd. destruct (digits r) as [d rest'].
      destruct (scan_fraction rest') as [[f rest'']|] eqn:E; [|discriminate H].
      apply scan_fraction_length in E. inversion H; subst.
      cbn [snd String.length] in *. lia. }
  unfold scan_number. intros H.
  destruct s as [|a r]; [discriminate H|].
  destruct (byte_of_ascii a =? 0x2D); [|apply Hu in H; exact H].
  destruct (scan_unsigned r) as [[n rest']|] eqn:E; [|discriminate H].
  apply Hu in E. inversion H; subst. cbn [String.length]. lia.
Qed.

Lemma strip_prefix_length (p : string) :
  forall s rest, strip_prefix p s = Some rest -> (String.length rest <= String.length s)%nat.
Proof.
  induction p as [|a p IH]; intros s rest H.
  - destruct s; inversion H; reflexivity.
  - destruct s as [|b s]; [discriminate H|]. cbn [strip_prefix] in H.
    destruct (Ascii.eqb a b); [|discriminate H].
    apply IH in H. cbn [String.length]. lia.
Qed.

Lemma unquote_body_shorter s t rest :
  unquote_body s = Some (t, rest) -> (String.length rest < String.length s)%nat.
Proof. apply (unquote_body_length (String.length s)). lia. Qed.

Section Steps.

Variables value value' : N -> string -> option (json * string).
Variables elements elements' : N -> string -> option (list json * string).
Variables members members' : N -> string -> option (list (string * json) * string).

Lemma value_step_shortens :
  shortens elements -> shortens members -> shortens (value_step elements members).
Proof.
  intros He Hm d s v rest H. unfold value_step in H.
  pose proof (skip_space_length s) as Hs.
  destruct (skip_space s) as [|a r]; [discriminate H|]. cbv zeta in H.
  cbn [String.length] in Hs.
  repeat match type of H with
  | context [if ?c then _ else _] => destruct c
  end; try discriminate H.
  - pose proof (skip_space_length r) as Hr.
    destruct (skip_space r) as [|b r']; [discriminate H|].
    destruct (byte_of_ascii b =? 0x7D).
    + inversion H; subst. cbn [String.length] in *. lia.
    + destruct (members (d + 1)%N (String b r')) as [[l rest']|] eqn:E; [|discriminate H].
      apply Hm in E. inversion H; subst. lia.
  - pose proof (skip_space_length r) as Hr.
    destruct (skip_space r) as [|b r']; [discriminate H|].
    destruct (byte_of_ascii b =? 0x5D).
    + inversion H; subst. cbn [String.length] in *. lia.
    + destruct (elements (d + 1)%N (String b r')) as [[l rest']|] eqn:E; [|discriminate H].
      apply He in E. inversion H; subst. lia.
  - destruct (unquote_body r) as [[t rest']|] eqn:E; [|discriminate H].
    apply unquote_body_shorter in E. inversion H; subst. lia.
  - destruct (strip_prefix "rue" r) as [rest'|] eqn:E; [|discriminate H].
    apply strip_prefix_length in E. inversion H; subst. lia.
  - destruct (strip_prefix "alse" r) as [rest'|] eqn:E; [|discriminate H].
    apply strip_prefix_length in E. inversion H; subst. lia.
  - destruct (strip_prefix "ull" r) as [rest'|] eqn:E; [|discriminate H].
    apply strip_prefix_length in E. inversion H; subst. lia.
  - destruct (scan_number (String a r)) as [[literal rest']|] eqn:E; [|discriminate H].
    apply scan_number_length in E. inversion H; subst. cbn [String.length] in E. lia.
Qed.

Lemma elements_step_shortens :
  shortens value -> shortens elements -> shortens (elements_step value elements).
Proof.
  intros Hv He d s l rest H. unfold elements_step in H.
  destruct (value d s) as [[v r]|] eqn:E; [|discriminate H]. apply Hv in E.
  pose proof (skip_space_length r) as Hr.
  destruct (skip_space r) as [|a r']; [discriminate H|]. cbn [String.length] in Hr.
  destruct (byte_of_ascii a =? 0x2C).
  - destruct (elements d r') as [[l' rest']|] eqn:E'; [|discriminate H].
    apply He in E'. inversion H; subst. lia.
  - destruct (byte_of_ascii a =? 0x5D); [|discriminate H]. inversion H; subst. lia.
Qed.

Lemma members_step_shortens :
  shortens value -> shortens members -> shortens (members_step value members).
Proof.
  intros Hv Hm d s l rest H. unfold members_step in H.
  pose proof (skip_space_length s) as Hs.
  destruct (skip_space s) as [|q r]; [discriminate H|]. cbn [String.length] in Hs.
  destruct (byte_of_ascii q =? 0x22); [|discriminate H].
  destruct (unquote_body r) as [[k r1]|] eqn:Ek; [|discriminate H].
  apply unquote_body_shorter in Ek.
  pose proof (skip_space_length r1) as H1.
  destruct (skip_space r1) as [|colon r2]; [discriminate H|]. cbn [String.length] in H1.
  destruct (byte_of_ascii colon =? 0x3A); [|discriminate H].
  destruct (value d r2) as [[v r3]|] eqn:Ev; [|discriminate H]. apply Hv in Ev.
  pose proof (skip_space_length r3) as H3.
  destruct (skip_space r3) as [|a r4]; [discriminate H|]. cbn [String.length] in H3.
  destruct (byte_of_ascii a =? 0x2C).
  - destruct (members d r4) as [[l' rest']|] eqn:E'; [|discriminate H].
    apply Hm in E'. inversion H; subst. lia.
  - destruct (byte_of_ascii a =? 0x7D); [|discriminate H]. inversion H; subst. lia.
Qed.

Lemma value_step_agree (d : N) (s : string) :
  agree (String.length s) elements elements' ->
  agree (String.length s) members members' ->
  value_step elements members d s = value_step elements' members' d s.
Proof.
  intros He Hm. unfold value_step.
  pose proof (skip_space_length s) as Hs.
  destruct (skip_space s) as [|a r]; [reflexivity|]. cbv zeta.
  cbn [String.length] in Hs.
  pose proof (skip_space_length r) as Hr.
  destruct (skip_space r) as [|b r'].
  - reflexivity.
  - cbn [String.length] in Hr.
    rewrite (He (d + 1)%N (String b r')) by (cbn [String.length]; lia).
    rewrite (Hm (d + 1)%N (String b r')) by (cbn [String.length]; lia).
    reflexivity.
Qed.

Lemma elements_step_agree (d : N) (s : string) :
  shortens value ->
  agree (S (String.length s)) value value' ->
  agree (String.length s) elements elements' ->
  elements_step value elements d s = elements_step value' elements' d s.
Proof.
  intros Hshort Hv He. unfold elements_step.
  rewrite <- (Hv d s) by lia.
  destruct (value d s) as [[v r]|] eqn:E; [|reflexivity]. apply Hshort in E.
  pose proof (skip_space_length r) as Hr.
  destruct (skip_space r) as [|a r']; [reflexivity|]. cbn [String.length] in Hr.
  rewrite (He d r') by lia. reflexivity.
Qed.

Lemma members_step_agree (d : N) (s : string) :
  shortens value ->
  agree (String.length s) value value' ->
  agree (String.length s) members members' ->
  members_step value members d s = members_step value' members' d s.
Proof.
  intros Hshort Hv Hm. unfold members_step.
  pose proof (skip_space_length s) as Hs.
  destruct (skip_space s) as [|q r]; [reflexivity|]. cbn [String.length] in Hs.
  destruct (byte_of_ascii q =? 0x22); [|reflexivity].
  destruct (unquote_body r) as [[k r1]|] eqn:Ek; [|reflexivity].
  apply unquote_body_shorter in Ek.
  pose proof (skip_space_length r1) as H1.
  destruct (skip_space r1) as [|colon r2]; [reflexivity|]. cbn [String.length] in H1.
  destruct (byte_of_ascii colon =? 0x3A); [|reflexivity].
  rewrite <- (Hv d r2) by lia.
  destruct (value d r2) as [[v r3]|] eqn:Ev; [|reflexivity]. apply Hshort in Ev.
  pose proof (skip_space_length r3) as H3.
  destruct (skip_space r3) as [|a r4]; [reflexivity|]. cbn [String.length] in H3.
  rewrite (Hm d r4) by lia. reflexivity.
Qed.

End Steps.

Lemma parse_shortens (fuel : nat) :
  shortens (parse_value fuel) /\ shortens (parse_elements fuel) /\
  shortens (parse_members fuel).
Proof.
  induction fuel as [|fuel (Hv & He & Hm)].
  - repeat split; intros d s x rest H; discriminate H.
  - split; [|split].
    + exact (value_step_shortens _ _ He Hm).
    + exact (elements_step_shortens _ _ Hv He).
    + exact (members_step_shortens _ _ Hv Hm).
Qed.

(** Beyond twice the length of the text, one more unit of fuel changes
    nothing. *)
Lemma parse_stable (fuel : nat) :
  (forall d s, (2 * String.length s + 1 <= fuel)%nat ->
               parse_value (S fuel) d s = parse_value fuel d s) /\
  (forall d s, (2 * String.length s + 2 <= fuel)%nat ->
               parse_elements (S fuel) d s = parse_elements fuel d s) /\
  (forall d s, (2 * String.length s + 2 <= fuel)%nat ->
               parse_members (S fuel) d s = parse_members fuel d s).
Proof.
  induction fuel as [|fuel (IHv & IHe & IHm)]; [repeat split; intros; lia|].
  split; [|split]; intros d s Hs.
  - change (value_step (parse_elements (S fuel)) (parse_members (S fuel)) d s
            = value_step (parse_elements fuel) (parse_members fuel) d s).
    apply value_step_agree; intros d' s' Hs'; [apply IHe | apply IHm]; lia.
  - change (elements_step (parse_value (S fuel)) (parse_elements (S fuel)) d s
            = elements_step (parse_value fuel) (parse_elements fuel) d s).
    apply elements_step_agree.
    + apply parse_shortens.
    + intros d' s' Hs'. apply IHv. lia.
    + intros d' s' Hs'. apply IHe. lia.
  - change (members_step (parse_value (S fuel)) (parse_members (S fuel)) d s
            = members_step (parse_value fuel) (parse_members fuel) d s).
    apply members_step_agree.
    + apply parse_shortens.
    + intros d' s' Hs'. apply IHv. lia.
    + intros d' s' Hs'. apply IHm. lia.
Qed.

(** The fuel that [parse] gives is enough: with more fuel the reader
    returns the same result, so that [None] is always a text that the
    scanner rejects. *)
Lemma parse_fuel_enough (s : string) (fuel : nat) :
  (2 * String.length s + 2 <= fuel)%nat ->
  parse_value fuel 0 s = parse_value (2 * String.length s + 2) 0 s.
Proof.
  intros H.
  replace fuel with ((fuel - (2 * String.length s + 2)) + (2 * String.length s + 2))%nat by lia.
  generalize (fuel - (2 * String.length s + 2))%nat as k. clear H.
  induction k as [|k IH]; [reflexivity|].
  rewrite <- IH. cbn [Nat.add]. apply parse_stable. lia.
Qed.

(** * Further properties of the code

    Properties of the functions of crypto.go beyond the claims of the
    specification, read off the code. *)

(** ** The course of a search *)

Lemma mined_sends (l : list string) (b : Block) :
  mined (map (fun miner => EvSend miner b) l ++ [EvNewBlock b]) = [] /\
  failed (map (fun miner => EvSend miner b) l ++ [EvNewBlock b]) = [].
Proof. induction l as [|m l IH]; [split; reflexivity | exact IH]. Qed.

Lemma mined_dequeue (l : list Transaction) (evs : list Event) :
  mined (map EvDequeue l ++ evs) = mined evs /\
  failed (map EvDequeue l ++ evs) = failed evs /\
  attempted (map EvDequeue l ++ evs) = attempted evs.
Proof. induction l as [|tx l IH]; [repeat split | exact IH]. Qed.

Lemma iter_int_incr (k : nat) (x : Z) :
  - 2 ^ 63 <= x -> x + Z.of_nat k < 2 ^ 63 -> Nat.iter k int_incr x = x + Z.of_nat k.
Proof.
  induction k as [|k IH]; intros Hlo Hhi; [simpl; lia|].
  rewrite Nat.iter_succ, IH by lia. unfold int_incr, int_wrap.
  rewrite Z.mod_small by lia. lia.
Qed.

(** The nonces of a search that returns a block: the nonces before the
    one returned were tried once each and missed the target; the nonce
    returned was tried once for every upload. *)
Lemma proofOfWork_first_hit stop ipfs_add fuel :
  forall prevHash prevCID txs nonce st st' evs b,
    proofOfWork stop ipfs_add fuel prevHash prevCID txs nonce st = (Mined b, st', evs) ->
    exists k,
      Nonce b = Nat.iter k int_incr nonce /\
      hit prevHash txs (Nonce b) = true /\
      (forall j, (j < k)%nat -> hit prevHash txs (Nat.iter j int_incr nonce) = false) /\
      attempted evs = map (fun j => Nat.iter j int_incr nonce) (seq 0 k)
                      ++ repeat (Nonce b) (length (mined evs)).
Proof.
  induction fuel as [|fuel IH]; intros prevHash prevCID txs nonce st st' evs b H.
  - inversion H.
  - pow_iteration H.
    + exists 0%nat. split; [reflexivity|]. split; [assumption|].
      split; [intros j Hj; lia|].
      cbn [attempted mined]. rewrite (proj1 (attempted_sends _ _)), (proj1 (mined_sends _ _)).
      reflexivity.
    + match goal with E : proofOfWork _ _ _ _ _ _ _ _ = _ |- _ =>
        apply IH in E as (k & Hn & Hhit & Hmiss & Hatt) end.
      destruct k as [|k]; [|specialize (Hmiss 0%nat ltac:(lia)); simpl in Hmiss; congruence].
      exists 0%nat. split; [exact Hn|]. split; [exact Hhit|].
      split; [intros j Hj; lia|].
      cbn [attempted mined]. rewrite Hatt, Hn. reflexivity.
    + match goal with E : proofOfWork _ _ _ _ _ _ _ _ = _ |- _ =>
        apply IH in E as (k & Hn & Hhit & Hmiss & Hatt) end.
      exists (S k). rewrite Nat.iter_succ_r. split; [exact Hn|]. split; [exact Hhit|]. split.
      * intros [|j] Hj; [assumption|]. rewrite Nat.iter_succ_r. apply Hmiss. lia.
      * cbn [attempted mined]. rewrite Hatt. cbn [seq map app].
        change (Nat.iter 0 int_incr nonce) with nonce.
        rewrite <- seq_shift, map_map. f_equal. f_equal.
        apply map_ext. intros j. symmetry. apply Nat.iter_succ_r.
Qed.

(** The counter of mined blocks along a search. *)
Lemma proofOfWork_counters stop ipfs_add fuel :
  forall prevHash prevCID txs nonce st o st' evs,
    proofOfWork stop ipfs_add fuel prevHash prevCID txs nonce st = (o, st', evs) ->
    minedBlocks st' = Nat.iter (length (mined evs)) int_incr (minedBlocks st) /\
    uploads st' = (uploads st + length (mined evs))%nat /\
    length (mined evs)
    = (length (failed evs) + match o with Mined _ => 1 | _ => 0 end)%nat /\
    (forall b, o = Mined b ->
       BlockNumber b = Nat.iter (length (failed evs)) int_incr (minedBlocks st)) /\
    map BlockNumber (mined evs)
    = map (fun k => Nat.iter k int_incr (minedBlocks st)) (seq 0 (length (mined evs))).
Proof.
  induction fuel as [|fuel IH]; intros prevHash prevCID txs nonce st o st' evs H.
  - inversion H; subst. repeat split; try reflexivity; try (simpl; lia). discriminate.
  - pow_iteration H.
    + repeat split; try reflexivity; try (simpl; lia). discriminate.
    + cbn [mined failed]. rewrite (proj1 (mined_sends _ _)), (proj2 (mined_sends _ _)).
      repeat split; try reflexivity; try (simpl; lia).
      intros b Hb. inversion Hb. reflexivity.
    + match goal with E : proofOfWork _ _ _ _ _ _ _ _ = _ |- _ =>
        apply IH in E as (Hm & Hu & Hl & Hb & Hn) end.
      cbn [mined failed length]. cbn [minedBlocks uploads counted polled] in *.
      split; [rewrite Hm; symmetry; apply Nat.iter_succ_r|].
      split; [lia|]. split; [lia|]. split.
      * intros b Eb. rewrite (Hb b Eb). symmetry. apply Nat.iter_succ_r.
      * cbn [map seq]. f_equal. rewrite Hn, <- seq_shift, map_map.
        apply map_ext. intros j. symmetry. apply Nat.iter_succ_r.
    + match goal with E : proofOfWork _ _ _ _ _ _ _ _ = _ |- _ =>
        apply IH in E as (Hm & Hu & Hl & Hb & Hn) end.
      cbn [mined failed]. cbn [minedBlocks uploads polled] in *.
      repeat split; assumption.
Qed.

Lemma nonce_at_small (i : nat) : Z.of_nat i < 2 ^ 63 -> nonce_at i = Z.of_nat i.
Proof. intros H. unfold nonce_at. rewrite iter_int_incr; lia. Qed.

(** With the stop channel never ready and IPFS accepting the uploads,
    a search with a nonce that meets the target within the fuel returns
    a block. *)
Lemma proofOfWork_progress stop ipfs_add k :
  (forall n, stop n = false) ->
  (forall n data, ipfs_add n data <> None) ->
  forall fuel prevHash prevCID txs nonce st,
    hit prevHash txs (Nat.iter k int_incr nonce) = true ->
    (k < fuel)%nat ->
    exists b st' evs,
      proofOfWork stop ipfs_add fuel prevHash prevCID txs nonce st = (Mined b, st', evs) /\
      In (EvNewBlock b) evs /\ (length (attempted evs) <= S k)%nat.
Proof.
  intros Hstop Hipfs.
  induction k as [|k IH]; intros fuel prevHash prevCID txs nonce st Hhit Hfuel;
    (destruct fuel as [|fuel]; [lia|]); rewrite proofOfWork_S, Hstop.
  - cbn [Nat.iter] in Hhit. change (Nat.iter 0 int_incr nonce) with nonce in Hhit.
    rewrite Hhit. cbv zeta. unfold uploadBlockToIPFS.
    destruct (ipfs_add (uploads st) _) as [cid|] eqn:E; [|exfalso; eapply Hipfs; exact E].
    eexists _, _, _. split; [reflexivity|]. split.
    + do 4 right. apply in_elt.
    + cbn [attempted]. rewrite (proj1 (attempted_sends _ _)). simpl. lia.
  - destruct (hit prevHash txs nonce) eqn:Hnow.
    + cbv zeta. unfold uploadBlockToIPFS.
      destruct (ipfs_add (uploads st) _) as [cid|] eqn:E; [|exfalso; eapply Hipfs; exact E].
      eexists _, _, _. split; [reflexivity|]. split.
      * do 4 right. apply in_elt.
      * cbn [attempted]. rewrite (proj1 (attempted_sends _ _)). simpl. lia.
    + rewrite Nat.iter_succ_r in Hhit.
      destruct (IH fuel prevHash prevCID txs (int_incr nonce) (polled st) Hhit ltac:(lia))
        as (b & st' & evs & E & Hin & Hlen).
      rewrite E. eexists _, _, _. split; [reflexivity|]. split.
      * do 2 right. exact Hin.
      * cbn [attempted length]. lia.
Qed.

(** The three ways in which a run of the engine goes. *)
Lemma startMining_run stop ipfs_add fuel prevHash prevCID st o st' evs :
  startMining stop ipfs_add fuel prevHash prevCID st = (o, st', evs) ->
  (stop (polls st) = true /\ o = Stopped /\ st' = polled st /\ evs = [EvPoll true]) \/
  (stop (polls st) = false /\ (length (transactionBuffer st) < 3)%nat /\
   o = AwaitingTransactions /\ st' = with_buffer (polled st) [] /\
   evs = EvPoll false :: map EvDequeue (transactionBuffer st)) \/
  (stop (polls st) = false /\ length (firstn 3 (transactionBuffer st)) = 3%nat /\
   exists evs',
     proofOfWork stop ipfs_add fuel prevHash prevCID (firstn 3 (transactionBuffer st)) 0
       (with_buffer (polled st) (skipn 3 (transactionBuffer st))) = (o, st', evs') /\
     evs = EvPoll false :: map EvDequeue (firstn 3 (transactionBuffer st)) ++ evs').
Proof.
  unfold startMining. destruct (stop (polls st)).
  - intros H; inversion H; subst. left. repeat split.
  - cbv zeta. cbn [transactionBuffer polled].
    destruct (collect 3 [] (transactionBuffer st)) as [[[txs|] buf] e] eqn:E.
    + apply collect_Some in E as (-> & -> & -> & Hlen). rewrite app_nil_l.
      destruct proofOfWork as [[o1 st1] evs1] eqn:Hpow.
      intros H; inversion H; subst. right. right.
      split; [reflexivity|]. split; [exact Hlen|]. exists evs1. split; reflexivity.
    + apply collect_None in E as (-> & -> & Hlen).
      intros H; inversion H; subst. right. left. repeat split. assumption.
Qed.

(** X1: with fewer than three transactions in the buffer the engine
    takes what there is, in order, and waits for more: no nonce is
    tried and nothing is emitted, whatever the fuel. *)
Theorem startMining_awaits_transactions stop ipfs_add fuel prevHash prevCID st :
  stop (polls st) = false ->
  (length (transactionBuffer st) < 3)%nat ->
  startMining stop ipfs_add fuel prevHash prevCID st
  = (AwaitingTransactions, with_buffer (polled st) [],
     EvPoll false :: map EvDequeue (transactionBuffer st)) /\
  attempted (EvPoll false :: map EvDequeue (transactionBuffer st)) = [] /\
  forall b, ~ emitted (EvPoll false :: map EvDequeue (transactionBuffer st)) b.
Proof.
  intros Hstop Hlen. split; [|split].
  - unfold startMining. rewrite Hstop. cbv zeta. cbn [transactionBuffer polled].
    destruct (collect 3 [] (transactionBuffer st)) as [[[txs|] buf] e] eqn:E.
    + apply collect_Some in E as (_ & _ & _ & H3).
      rewrite length_firstn in H3. lia.
    + apply collect_None in E as (-> & -> & _). reflexivity.
  - cbn [attempted]. rewrite <- (app_nil_r (map EvDequeue _)).
    rewrite (proj2 (proj2 (mined_dequeue _ _))). reflexivity.
  - intros b Hb. skip_silent Hb. eapply not_emitted_dequeue. eassumption.
Qed.

Lemma startMining_awaits_transactions_witness :
  startMining never ipfs_ok 10 "-1" "-1" short_state
  = (AwaitingTransactions, with_buffer (polled short_state) [],
     EvPoll false :: map EvDequeue (transactionBuffer short_state)) /\
  attempted (EvPoll false :: map EvDequeue (transactionBuffer short_state)) = [] /\
  forall b, ~ emitted (EvPoll false :: map EvDequeue (transactionBuffer short_state)) b.
Proof.
  apply (startMining_awaits_transactions never ipfs_ok 10 "-1" "-1" short_state).
  - reflexivity.
  - simpl. lia.
Defined.

(** X2: the nonce of the block returned is the first one, counting up
    from 0, whose digest meets the target: every nonce before it was
    tried once and missed, and the nonce itself was tried once for
    every upload. *)
Theorem mined_nonce_is_first_hit stop ipfs_add fuel prevHash prevCID st st' evs b :
  startMining stop ipfs_add fuel prevHash prevCID st = (Mined b, st', evs) ->
  exists i,
    Nonce b = nonce_at i /\
    hit prevHash (firstn 3 (transactionBuffer st)) (nonce_at i) = true /\
    (forall j, (j < i)%nat ->
       hit prevHash (firstn 3 (transactionBuffer st)) (nonce_at j) = false) /\
    attempted evs = map nonce_at (seq 0 i) ++ repeat (nonce_at i) (length (mined evs)) /\
    (Z.of_nat i < 2 ^ 63 -> Nonce b = Z.of_nat i).
Proof.
  intros H.
  apply startMining_search in H as [(E & _) | [(E & _) | (evs' & H & -> & _)]];
    try discriminate E.
  apply proofOfWork_first_hit in H as (i & Hn & Hhit & Hmiss & Hatt).
  exists i. fold (nonce_at i) in Hn. rewrite Hn in Hhit, Hatt.
  split; [exact Hn|]. split; [exact Hhit|]. split; [exact Hmiss|]. split.
  - cbn [attempted mined].
    rewrite (proj1 (mined_dequeue _ _)), (proj2 (proj2 (mined_dequeue _ _))). exact Hatt.
  - intros Hi. rewrite Hn. apply nonce_at_small. exact Hi.
Qed.

Lemma mined_nonce_is_first_hit_witness :
  exists i,
    Nonce run_block = nonce_at i /\
    hit "-1" (firstn 3 (transactionBuffer run_state)) (nonce_at i) = true /\
    (forall j, (j < i)%nat ->
       hit "-1" (firstn 3 (transactionBuffer run_state)) (nonce_at j) = false) /\
    attempted run_result.2
    = map nonce_at (seq 0 i) ++ repeat (nonce_at i) (length (mined run_result.2)) /\
    (Z.of_nat i < 2 ^ 63 -> Nonce run_block = Z.of_nat i).
Proof.
  apply (mined_nonce_is_first_hit never ipfs_ok 10 "-1" "-1" run_state run_result.1.2).
  vm_compute. reflexivity.
Defined.

(** X3: the counter of mined blocks goes up by one for every candidate
    that meets the target, whether its upload succeeds or fails, so the
    number of the block returned is the counter at the start plus the
    number of failed uploads. *)
Theorem minedBlocks_counts_candidates stop ipfs_add fuel prevHash prevCID st o st' evs :
  startMining stop ipfs_add fuel prevHash prevCID st = (o, st', evs) ->
  minedBlocks st' = Nat.iter (length (mined evs)) int_incr (minedBlocks st) /\
  length (mined evs) = (length (failed evs) + match o with Mined _ => 1 | _ => 0 end)%nat /\
  (forall b, o = Mined b ->
     BlockNumber b = Nat.iter (length (failed evs)) int_incr (minedBlocks st)) /\
  map BlockNumber (mined evs)
  = map (fun k => Nat.iter k int_incr (minedBlocks st)) (seq 0 (length (mined evs))) /\
  (- 2 ^ 63 <= minedBlocks st ->
   minedBlocks st + Z.of_nat (length (mined evs)) < 2 ^ 63 ->
   minedBlocks st' = minedBlocks st + Z.of_nat (length (mined evs))).
Proof.
  intros H.
  assert (Hmain :
    minedBlocks st' = Nat.iter (length (mined evs)) int_incr (minedBlocks st) /\
    length (mined evs) = (length (failed evs) + match o with Mined _ => 1 | _ => 0 end)%nat /\
    (forall b, o = Mined b ->
       BlockNumber b = Nat.iter (length (failed evs)) int_incr (minedBlocks st)) /\
    map BlockNumber (mined evs)
    = map (fun k => Nat.iter k int_incr (minedBlocks st)) (seq 0 (length (mined evs)))).
  { apply startMining_run in H
      as [(_ & -> & -> & ->) | [(_ & _ & -> & -> & ->) | (_ & _ & evs' & H & ->)]].
    - repeat split; try reflexivity. discriminate.
    - cbn [mined failed]. rewrite <- (app_nil_r (map EvDequeue _)).
      rewrite (proj1 (mined_dequeue _ _)), (proj1 (proj2 (mined_dequeue _ _))).
      repeat split; try reflexivity. discriminate.
    - apply proofOfWork_counters in H as (Hm & _ & Hl & Hb & Hn).
      cbn [mined failed].
      rewrite (proj1 (mined_dequeue _ _)), (proj1 (proj2 (mined_dequeue _ _))).
      cbn [minedBlocks with_buffer polled] in *. repeat split; assumption. }
  destruct Hmain as (Hm & Hl & Hb & Hn).
  repeat split; try assumption.
  intros Hlo Hhi. rewrite Hm. apply iter_int_incr; assumption.
Qed.

Lemma minedBlocks_counts_candidates_witness :
  minedBlocks failed_result.1.2
  = Nat.iter (length (mined failed_result.2)) int_incr (minedBlocks run_state) /\
  length (mined failed_result.2)
  = (length (failed failed_result.2)
     + match failed_result.1.1 with Mined _ => 1 | _ => 0 end)%nat /\
  (forall b, failed_result.1.1 = Mined b ->
     BlockNumber b = Nat.iter (length (failed failed_result.2)) int_incr (minedBlocks run_state)) /\
  map BlockNumber (mined failed_result.2)
  = map (fun k => Nat.iter k int_incr (minedBlocks run_state))
        (seq 0 (length (mined failed_result.2))) /\
  (- 2 ^ 63 <= minedBlocks run_state ->
   minedBlocks run_state + Z.of_nat (length (mined failed_result.2)) < 2 ^ 63 ->
   minedBlocks failed_result.1.2
   = minedBlocks run_state + Z.of_nat (length (mined failed_result.2))).
Proof.
  apply (minedBlocks_counts_candidates (stop_at 5) ipfs_down 10 "-1" "-1" run_state).
  vm_compute. reflexivity.
Defined.

(** X4: with the stop channel never ready, IPFS accepting every upload
    and three transactions in the buffer, the engine returns a block as
    soon as a nonce meets the target: if the [i]-th nonce does, [i + 1]
    iterations are enough. *)
Theorem startMining_finds_block stop ipfs_add fuel prevHash prevCID st i :
  (forall n, stop n = false) ->
  (forall n data, ipfs_add n data <> None) ->
  (3 <= length (transactionBuffer st))%nat ->
  hit prevHash (firstn 3 (transactionBuffer st)) (nonce_at i) = true ->
  (i < fuel)%nat ->
  exists b st' evs,
    startMining stop ipfs_add fuel prevHash prevCID st = (Mined b, st', evs) /\
    In (EvNewBlock b) evs /\ (length (attempted evs) <= S i)%nat /\
    transactionBuffer st' = skipn 3 (transactionBuffer st).
Proof.
  intros Hstop Hipfs Hlen Hhit Hfuel.
  destruct (proofOfWork_progress stop ipfs_add i Hstop Hipfs fuel prevHash prevCID
              (firstn 3 (transactionBuffer st)) 0
              (with_buffer (polled st) (skipn 3 (transactionBuffer st))) Hhit Hfuel)
    as (b & st' & evs' & E & Hin & Hatt).
  destruct (startMining stop ipfs_add fuel prevHash prevCID st) as [[o st1] evs] eqn:H.
  apply startMining_run in H
    as [(Hs & _) | [(_ & Hshort & _) | (_ & _ & evs1 & H & ->)]].
  - rewrite Hstop in Hs. discriminate Hs.
  - lia.
  - rewrite E in H. inversion H; subst. eexists _, _, _.
    split; [reflexivity|]. split; [|split].
    + right. apply in_or_app. right. exact Hin.
    + cbn [attempted]. rewrite (proj2 (proj2 (mined_dequeue _ _))). exact Hatt.
    + apply proofOfWork_buffer in E as [-> _]. reflexivity.
Qed.

Lemma startMining_finds_block_witness :
  exists b st' evs,
    startMining never ipfs_ok 10 "-1" "-1" run_state = (Mined b, st', evs) /\
    In (EvNewBlock b) evs /\ (length (attempted evs) <= 3)%nat /\
    transactionBuffer st' = skipn 3 (transactionBuffer run_state).
Proof.
  apply (startMining_finds_block never ipfs_ok 10 "-1" "-1" run_state 2).
  - reflexivity.
  - discriminate.
  - simpl. lia.
  - vm_compute. reflexivity.
  - lia.
Defined.

(** X5: transactions leave the buffer from its head, in order, and are
    never put back: the buffer at the start is what the run received
    followed by the buffer at the end.  A run receives at most three;
    when it does not return a block, what it received is in no block. *)
Theorem transactions_leave_in_order stop ipfs_add fuel prevHash prevCID st o st' evs :
  startMining stop ipfs_add fuel prevHash prevCID st = (o, st', evs) ->
  transactionBuffer st = dequeued evs ++ transactionBuffer st' /\
  (length (dequeued evs) <= 3)%nat /\
  ((forall b, o <> Mined b) -> forall b, ~ emitted evs b) /\
  (o = Stopped -> evs <> [EvPoll true] ->
   dequeued evs = firstn 3 (transactionBuffer st) /\ length (dequeued evs) = 3%nat).
Proof.
  intros H. pose proof H as Hrun.
  apply startMining_run in H
    as [(_ & -> & -> & ->) | [(_ & Hshort & -> & -> & ->) | (_ & H3 & evs' & H & ->)]].
  - split; [reflexivity|]. split; [simpl; lia|]. split.
    + intros _ b Hb. apply (startMining_emitted _ _ _ _ _ _ _ _ _ _ Hrun) in Hb as [Hb _].
      discriminate Hb.
    + intros _ Hne. contradiction.
  - cbn [dequeued]. rewrite dequeued_map. cbn [transactionBuffer with_buffer].
    split; [symmetry; apply app_nil_r|]. split; [lia|]. split.
    + intros _ b Hb. apply (startMining_emitted _ _ _ _ _ _ _ _ _ _ Hrun) in Hb as [Hb _].
      discriminate Hb.
    + discriminate.
  - pose proof (proofOfWork_buffer _ _ _ _ _ _ _ _ _ _ _ H) as [Hbuf Hdeq].
    cbn [dequeued]. rewrite dequeued_app, dequeued_map, Hdeq, app_nil_r, Hbuf.
    cbn [transactionBuffer with_buffer].
    split; [symmetry; apply firstn_skipn|]. split; [lia|]. split.
    + intros Ho b Hb. apply (startMining_emitted _ _ _ _ _ _ _ _ _ _ Hrun) in Hb as [Hb _].
      exact (Ho b Hb).
    + intros _ _. split; [reflexivity | exact H3].
Qed.

Lemma transactions_leave_in_order_witness :
  transactionBuffer run_state = dequeued failed_result.2 ++ transactionBuffer failed_result.1.2 /\
  (length (dequeued failed_result.2) <= 3)%nat /\
  ((forall b, failed_result.1.1 <> Mined b) -> forall b, ~ emitted failed_result.2 b) /\
  (failed_result.1.1 = Stopped -> failed_result.2 <> [EvPoll true] ->
   dequeued failed_result.2 = firstn 3 (transactionBuffer run_state) /\
   length (dequeued failed_result.2) = 3%nat).
Proof.
  apply (transactions_leave_in_order (stop_at 5) ipfs_down 10 "-1" "-1" run_state).
  vm_compute. reflexivity.
Defined.

(** The block returned is the candidate of its nonce and number, with
    the identifier that its upload returned. *)
Lemma proofOfWork_own_cid stop ipfs_add fuel :
  forall prevHash prevCID txs nonce st st' evs b,
    proofOfWork stop ipfs_add fuel prevHash prevCID txs nonce st = (Mined b, st', evs) ->
    b = set_PrevCID (candidate prevHash prevCID txs (Nonce b) (BlockNumber b)) (PrevCID b) /\
    ipfs_add (uploads st + length (failed evs))%nat
      (fmt_Block (candidate prevHash prevCID txs (Nonce b) (BlockNumber b)))
    = Some (PrevCID b).
Proof.
  induction fuel as [|fuel IH]; intros prevHash prevCID txs nonce st st' evs b H.
  - inversion H.
  - pow_iteration H.
    + cbn [failed]. rewrite (proj2 (mined_sends _ _)), Nat.add_0_r.
      split; [reflexivity | assumption].
    + match goal with E : proofOfWork _ _ _ _ _ _ _ _ = _ |- _ =>
        apply IH in E as (Hb & Hup) end.
      cbn [failed length uploads counted polled] in *.
      split; [exact Hb|]. rewrite <- Hup. f_equal. lia.
    + match goal with E : proofOfWork _ _ _ _ _ _ _ _ = _ |- _ =>
        apply IH in E as (Hb & Hup) end.
      cbn [failed uploads polled] in *. split; assumption.
Qed.

(** X6: the block that the engine returns and broadcasts carries in
    [PrevCID] the identifier that IPFS returned for the block itself,
    uploaded as the [%v] text of the candidate in which [PrevCID] is
    still the identifier the engine was started with; every other field
    is the candidate's. *)
Theorem emitted_block_carries_own_cid stop ipfs_add fuel prevHash prevCID st st' evs b :
  startMining stop ipfs_add fuel prevHash prevCID st = (Mined b, st', evs) ->
  let block :=
    candidate prevHash prevCID (firstn 3 (transactionBuffer st)) (Nonce b) (BlockNumber b) in
  PrevCID block = prevCID /\
  b = set_PrevCID block (PrevCID b) /\
  ipfs_add (uploads st + length (failed evs))%nat (fmt_Block block) = Some (PrevCID b).
Proof.
  intros H block. split; [reflexivity|].
  apply startMining_run in H
    as [(_ & E & _) | [(_ & _ & E & _) | (_ & _ & evs' & H & ->)]]; try discriminate E.
  apply proofOfWork_own_cid in H as (Hb & Hup).
  cbn [failed]. rewrite (proj1 (proj2 (mined_dequeue _ _))).
  cbn [uploads with_buffer polled] in Hup. split; assumption.
Qed.

Lemma emitted_block_carries_own_cid_witness :
  let block :=
    candidate "-1" "-1" (firstn 3 (transactionBuffer run_state)) (Nonce run_block)
      (BlockNumber run_block) in
  PrevCID block = "-1" /\
  run_block = set_PrevCID block (PrevCID run_block) /\
  ipfs_ok (uploads run_state + length (failed run_result.2))%nat (fmt_Block block)
  = Some (PrevCID run_block).
Proof.
  apply (emitted_block_carries_own_cid never ipfs_ok 10 "-1" "-1" run_state run_result.1.2).
  vm_compute. reflexivity.
Defined.

(** ** The target in hexadecimal *)

Lemma land_255_range (x : Z) : 0 <= Z.land x 0xff < 256.
Proof.
  change 0xff with (Z.ones 8). rewrite Z.land_ones by lia.
  apply Z.mod_pos_bound. lia.
Qed.

(** A digest is thirty-two bytes. *)
Lemma Sum256_bytes (msg : list Z) :
  length (SHA256.Sum256 msg) = 32%nat /\
  Forall (fun b => 0 <= b < 256) (SHA256.Sum256 msg).
Proof.
  split; [apply Sum256_length|].
  unfold SHA256.Sum256. cbv zeta.
  generalize (SHA256.blocks
                (length (SHA256.words_of_bytes (SHA256.pad msg)) / 16)
                SHA256.init (SHA256.words_of_bytes (SHA256.pad msg))).
  intros r. cbn [flat_map SHA256.bytes_of_word app].
  repeat (apply Forall_cons; split; [apply land_255_range|]). apply Forall_nil. exact I.
Qed.

Lemma big_SetBytes_acc (l : list Z) (acc : Z) :
  fold_left (fun acc b => 256 * acc + b) l acc
  = acc * 256 ^ Z.of_nat (length l) + big_SetBytes l.
Proof.
  unfold big_SetBytes. revert acc.
  induction l as [|b l IH]; intros acc; [simpl; lia|].
  cbn [fold_left length]. rewrite IH, (IH (256 * 0 + b)).
  rewrite Nat2Z.inj_succ, Z.pow_succ_r by lia. lia.
Qed.

Lemma big_SetBytes_range (l : list Z) :
  Forall (fun b => 0 <= b < 256) l ->
  0 <= big_SetBytes l < 256 ^ Z.of_nat (length l).
Proof.
  induction 1 as [|b l Hb Hl IH]; [unfold big_SetBytes; simpl; lia|].
  unfold big_SetBytes. cbn [fold_left length]. rewrite big_SetBytes_acc.
  rewrite Nat2Z.inj_succ, Z.pow_succ_r by lia.
  assert (0 < 256 ^ Z.of_nat (length l)) by (apply Z.pow_pos_nonneg; lia).
  nia.
Qed.

(** A property of the sixteen values of a hex digit, by enumeration. *)
Lemma nibble_cases (p : Z -> bool) :
  forallb p (map Z.of_nat (seq 0 16)) = true -> forall n, 0 <= n < 16 -> p n = true.
Proof.
  intros H n Hn. rewrite List.forallb_forall in H. apply H.
  apply in_map_iff. exists (Z.to_nat n). split; [lia | apply in_seq; lia].
Qed.

Lemma hexdigit_zero (n : Z) :
  0 <= n < 16 ->
  Ascii.eqb (hexdigit n) "0" = (n =? 0) /\ Ascii.eqb (hexdigit n) "1" = (n =? 1).
Proof.
  intros H.
  pose proof (nibble_cases
                (fun k => Bool.eqb (Ascii.eqb (hexdigit k) "0") (k =? 0)
                          && Bool.eqb (Ascii.eqb (hexdigit k) "1") (k =? 1))
                eq_refl n H) as Hp.
  cbv beta in Hp. apply andb_prop in Hp as [H0 H1].
  split; apply Bool.eqb_prop; assumption.
Qed.

(** Thirty-two bytes are below the target when the first is zero and
    the second below 32, which shows in the first three hex digits. *)
Lemma below_target_hex (l : list Z) :
  length l = 32%nat -> Forall (fun b => 0 <= b < 256) l ->
  (big_SetBytes l <? target) = eleven_zero_bits (hex_EncodeToString l).
Proof.
  intros Hlen Hall.
  destruct l as [|b0 [|b1 r]]; try discriminate Hlen.
  apply Forall_cons in Hall as [H0 Hall]. apply Forall_cons in Hall as [H1 Hr].
  apply big_SetBytes_range in Hr.
  assert (Hr30 : length r = 30%nat) by (simpl in Hlen; lia).
  rewrite Hr30 in Hr. change (256 ^ Z.of_nat 30) with (2 ^ 240) in Hr.
  unfold big_SetBytes at 1. cbn [fold_left]. rewrite big_SetBytes_acc, Hr30.
  change (256 ^ Z.of_nat 30) with (2 ^ 240). unfold target.
  change (Z.shiftl 1 245) with (32 * 2 ^ 240).
  cbn [hex_EncodeToString eleven_zero_bits].
  rewrite !Z.shiftr_div_pow2 by lia. change (2 ^ 4) with 16.
  change 0xf with (Z.ones 4). rewrite Z.land_ones by lia. change (2 ^ 4) with 16.
  assert (Hq0 : 0 <= b0 / 16 < 16) by (split; [apply Z.div_pos; lia | apply Z.div_lt_upper_bound; lia]).
  assert (Hq1 : 0 <= b1 / 16 < 16) by (split; [apply Z.div_pos; lia | apply Z.div_lt_upper_bound; lia]).
  assert (Hm0 : 0 <= b0 mod 16 < 16) by (apply Z.mod_pos_bound; lia).
  rewrite (proj1 (hexdigit_zero _ Hq0)), (proj1 (hexdigit_zero _ Hm0)),
          (proj1 (hexdigit_zero _ Hq1)), (proj2 (hexdigit_zero _ Hq1)).
  pose proof (Z.div_mod b0 16 ltac:(lia)) as D0.
  pose proof (Z.div_mod b1 16 ltac:(lia)) as D1.
  pose proof (Z.mod_pos_bound b1 16 ltac:(lia)) as M1.
  set (P := 2 ^ 240) in *. assert (HP : 0 < P) by (subst P; lia).
  destruct (b0 / 16 =? 0) eqn:E1; destruct (b0 mod 16 =? 0) eqn:E2;
    destruct (b1 / 16 =? 0) eqn:E3; destruct (b1 / 16 =? 1) eqn:E4;
    cbn [andb orb];
    repeat match goal with
           | H : (_ =? _) = true |- _ => apply Z.eqb_eq in H
           | H : (_ =? _) = false |- _ => apply Z.eqb_neq in H
           end;
    first [apply Z.ltb_lt | apply Z.ltb_ge]; nia.
Qed.

(** X7: a nonce meets the target exactly when the hex digest that
    becomes the [Hash] of the block begins with two zeros followed by a
    0 or a 1 (eleven zero bits); that [Hash] is sixty-four characters
    long. *)
Theorem target_in_hex prevHash prevCID transactions nonce number :
  hit prevHash transactions nonce
  = eleven_zero_bits (Hash (candidate prevHash prevCID transactions nonce number)) /\
  String.length (Hash (candidate prevHash prevCID transactions nonce number)) = 64%nat.
Proof.
  unfold hit, candidate. cbv zeta. cbn [Hash]. unfold sha256_Sum256.
  destruct (Sum256_bytes (bytes_of_string (blockData prevHash transactions nonce)))
    as [Hlen Hall].
  revert Hlen Hall.
  generalize (SHA256.Sum256 (bytes_of_string (blockData prevHash transactions nonce))).
  intros l Hlen Hall. split; [apply below_target_hex; assumption|].
  rewrite hex_EncodeToString_length, Hlen. reflexivity.
Qed.

(** ** The tally along a connection *)

Lemma votes_insert_ne (tally : gmap string Z) (h h' : string) (v : Z) :
  h' <> h -> votes (<[h' := v]> tally) h = votes tally h.
Proof. intros H. unfold votes. rewrite lookup_insert_ne by exact H. reflexivity. Qed.

Lemma receiveBlocks_cons miners tally blockData lines :
  receiveBlocks miners tally (blockData :: lines)
  = ((receiveBlocks miners (receiveBlock miners tally blockData).1 lines).1,
     (receiveBlock miners tally blockData).2
     ++ (receiveBlocks miners (receiveBlock miners tally blockData).1 lines).2).
Proof.
  cbn [receiveBlocks].
  destruct (receiveBlock miners tally blockData) as [t1 r1]. cbn [fst snd].
  destruct (receiveBlocks miners t1 lines) as [t2 r2]. reflexivity.
Qed.

Lemma receiveBlocks_votes miners (lines : list string) :
  forall tally h,
    votes (receiveBlocks miners tally lines).1 h
    = Nat.iter (valid_lines h lines) int_incr (votes tally h).
Proof.
  induction lines as [|d lines IH]; intros tally h; [reflexivity|].
  rewrite receiveBlocks_cons. cbn [fst valid_lines]. rewrite IH.
  destruct (validateBlock d "-1" target) eqn:Hv.
  - rewrite (receiveBlock_accepted _ _ _ Hv). cbn [fst andb].
    destruct (String.eqb_spec (getBlockHash d) h) as [<- | Hne].
    + rewrite votes_insert. symmetry. apply Nat.iter_succ_r.
    + rewrite votes_insert_ne by exact Hne. reflexivity.
  - rewrite (proj1 (receiveBlock_rejected miners tally d Hv)). reflexivity.
Qed.

(** X8: along the lines of a connection, the tally entry of a hash goes
    up by one for every line that validation accepts and whose text has
    that hash, and by nothing else: undecodable and rejected lines, and
    lines with another hash, leave it as it is. *)
Theorem tally_counts_valid_lines miners tally lines h :
  votes (receiveBlocks miners tally lines).1 h
  = Nat.iter (valid_lines h lines) int_incr (votes tally h) /\
  (- 2 ^ 63 <= votes tally h ->
   votes tally h + Z.of_nat (valid_lines h lines) < 2 ^ 63 ->
   votes (receiveBlocks miners tally lines).1 h
   = votes tally h + Z.of_nat (valid_lines h lines)) /\
  (valid_lines h lines = O -> votes (receiveBlocks miners tally lines).1 h = votes tally h).
Proof.
  split; [apply receiveBlocks_votes|]. split.
  - intros Hlo Hhi. rewrite receiveBlocks_votes. apply iter_int_incr; assumption.
  - intros H0. rewrite receiveBlocks_votes, H0. reflexivity.
Qed.

(** The reports for a valid line sent over and over, from [v] votes. *)
Lemma receiveBlocks_repeat miners blockData (n : nat) :
  validateBlock blockData "-1" target = true ->
  forall tally,
    0 <= votes tally (getBlockHash blockData) ->
    votes tally (getBlockHash blockData) + Z.of_nat n < 2 ^ 63 ->
    (receiveBlocks miners tally (repeat blockData n)).2
    = repeat (Accepted (getBlockHash blockData))
        (Z.to_nat (Z.of_nat n
                   - Z.max 0 (Z.quot (Z.of_nat (length miners)) 2
                              - votes tally (getBlockHash blockData)))).
Proof.
  intros Hv. induction n as [|n IH]; intros tally Hlo Hhi.
  - cbn [repeat receiveBlocks snd].
    replace (Z.to_nat _) with O by lia. reflexivity.
  - cbn [repeat]. rewrite receiveBlocks_cons. cbn [snd].
    rewrite (receiveBlock_accepted _ _ _ Hv). cbn [fst snd].
    rewrite IH; rewrite votes_insert;
      (assert (Hincr : int_incr (votes tally (getBlockHash blockData))
                       = votes tally (getBlockHash blockData) + 1)
         by (unfold int_incr, int_wrap; rewrite Z.mod_small by lia; lia));
      rewrite ?Hincr; [|lia|lia].
    destruct (_ <? _) eqn:E.
    + apply Z.ltb_lt in E. cbn [app].
      replace (Z.to_nat (Z.of_nat (S n) - _)) with
        (S (Z.to_nat (Z.of_nat n
                      - Z.max 0 (Z.quot (Z.of_nat (length miners)) 2
                                 - (votes tally (getBlockHash blockData) + 1))))) by lia.
      reflexivity.
    + apply Z.ltb_ge in E. cbn [app]. f_equal. lia.
Qed.

(** X9: the tally counts lines, not senders, and the acceptance is
    printed at every vote past the threshold: when a valid line with no
    vote yet is received [n] times, the acceptance is printed for every
    copy after the first [len(connectedMiners)/2]. *)
Theorem repeated_line_reaches_quorum miners tally blockData n :
  validateBlock blockData "-1" target = true ->
  votes tally (getBlockHash blockData) = 0 ->
  Z.of_nat n < 2 ^ 63 ->
  (receiveBlocks miners tally (repeat blockData n)).2
  = repeat (Accepted (getBlockHash blockData)) (n - length miners / 2) /\
  votes (receiveBlocks miners tally (repeat blockData n)).1 (getBlockHash blockData)
  = Z.of_nat n.
Proof.
  intros Hv H0 Hn. split.
  - rewrite (receiveBlocks_repeat _ _ _ Hv) by lia. f_equal. rewrite H0.
    rewrite Z.quot_div_nonneg by lia.
    change 2 with (Z.of_nat 2). rewrite <- Nat2Z.inj_div. lia.
  - rewrite receiveBlocks_votes, H0.
    assert (Hc : valid_lines (getBlockHash blockData) (repeat blockData n) = n).
    { induction n as [|k IH]; [reflexivity|]. cbn [repeat valid_lines].
      rewrite Hv, String.eqb_refl, IH by lia. reflexivity. }
    rewrite Hc, iter_int_incr by lia. lia.
Qed.

Lemma repeated_line_reaches_quorum_witness :
  (receiveBlocks five_peers no_votes (repeat run_line 4)).2
  = repeat (Accepted (getBlockHash run_line)) (4 - length five_peers / 2) /\
  votes (receiveBlocks five_peers no_votes (repeat run_line 4)).1 (getBlockHash run_line)
  = Z.of_nat 4.
Proof.
  apply (repeated_line_reaches_quorum five_peers no_votes run_line 4).
  - vm_compute. reflexivity.
  - vm_compute. reflexivity.
  - simpl. lia.
Defined.

(** ** The lines of transaction intake *)

Lemma strings_Split_space_cons (s : string) :
  exists p ps, strings_Split_space s = p :: ps.
Proof.
  induction s as [|c r (p & ps & IH)]; [eexists _, _; reflexivity|].
  cbn [strings_Split_space]. rewrite IH. destruct (Ascii.eqb c " "); eexists _, _; reflexivity.
Qed.

Lemma strings_Split_space_length (s : string) :
  length (strings_Split_space s) = S (spaces s).
Proof.
  induction s as [|c r IH]; [reflexivity|].
  cbn [strings_Split_space spaces].
  destruct (strings_Split_space_cons r) as (p & ps & E). rewrite E in *.
  destruct (Ascii.eqb c " "); cbn [length] in *; lia.
Qed.

Lemma strings_Split_space_word (s : string) :
  spaces s = O -> strings_Split_space s = [s].
Proof.
  induction s as [|c r IH]; [reflexivity|].
  cbn [strings_Split_space spaces].
  destruct (Ascii.eqb c " "); [discriminate|]. intros H. rewrite (IH H). reflexivity.
Qed.

Lemma strings_Split_space_app (s t : string) :
  spaces s = O ->
  strings_Split_space (s +:+ String " " t) = s :: strings_Split_space t.
Proof.
  induction s as [|c r IH]; [reflexivity|].
  rewrite append_cons. cbn [strings_Split_space spaces].
  destruct (Ascii.eqb c " "); [discriminate|]. intros H. rewrite (IH H). reflexivity.
Qed.

(** A line of two parts is two words with one space between them. *)
Lemma strings_Split_space_two (s p1 p2 : string) :
  strings_Split_space s = [p1; p2] ->
  s = p1 +:+ String " " p2 /\ spaces p1 = O /\ spaces p2 = O.
Proof.
  revert p1 p2. induction s as [|c r IH]; intros p1 p2 H; [discriminate H|].
  cbn [strings_Split_space] in H.
  destruct (Ascii.eqb_spec c " ") as [-> | Hc].
  - inversion H as [[E1 E2]]. subst p1.
    assert (Hr : spaces r = O).
    { pose proof (strings_Split_space_length r) as Hl. rewrite E2 in Hl. simpl in Hl. lia. }
    rewrite (strings_Split_space_word r Hr) in E2. inversion E2; subst.
    split; [reflexivity|]. split; [reflexivity | exact Hr].
  - destruct (strings_Split_space r) as [|p ps] eqn:E; [discriminate H|].
    inversion H; subst. destruct (IH p p2 eq_refl) as (-> & H1 & H2).
    rewrite append_cons. split; [reflexivity|]. split; [|exact H2].
    cbn [spaces]. destruct (Ascii.eqb_spec c " "); [contradiction | exact H1].
Qed.

(** X10: a line of intake gives a transaction only when it is two words
    with exactly one space between them; the first word names the script
    and the second the data, both are fetched, and the transaction is
    made of the script's output.  A line with no space or with more than
    one is dropped. *)
Theorem processMessage_format ipfs_cat python message :
  (forall tx, processMessage ipfs_cat python message = Some tx ->
     exists scriptHash dataHash script data,
       message = scriptHash +:+ String " " dataHash /\
       spaces scriptHash = O /\ spaces dataHash = O /\
       ipfs_cat dataHash = Some data /\ ipfs_cat scriptHash = Some script /\
       python script data = Some (Data tx)) /\
  (forall scriptHash dataHash,
     spaces scriptHash = O -> spaces dataHash = O ->
     processMessage ipfs_cat python (scriptHash +:+ String " " dataHash)
     = match ipfs_cat dataHash, ipfs_cat scriptHash with
       | Some data, Some script =>
           option_map (fun result => mkTransaction (generateTransactionID result) result)
                      (python script data)
       | _, _ => None
       end) /\
  (spaces message <> 1%nat -> processMessage ipfs_cat python message = None).
Proof.
  split; [|split].
  - intros tx H. unfold processMessage in H.
    destruct (strings_Split_space message) as [|s [|d [|x l]]] eqn:E; try discriminate H.
    apply strings_Split_space_two in E as (-> & Hs & Hd).
    destruct (ipfs_cat d) as [data|] eqn:E1; [|discriminate H].
    destruct (ipfs_cat s) as [script|] eqn:E2; [|discriminate H].
    destruct (python script data) as [result|] eqn:E3; [|discriminate H].
    inversion H; subst. exists s, d, script, data. repeat split; assumption.
  - intros s d Hs Hd. unfold processMessage.
    rewrite (strings_Split_space_app _ _ Hs), (strings_Split_space_word _ Hd).
    destruct (ipfs_cat d); [|reflexivity]. destruct (ipfs_cat s); [|reflexivity].
    destruct (python _ _); reflexivity.
  - intros Hn. unfold processMessage.
    pose proof (strings_Split_space_length message) as Hl.
    destruct (strings_Split_space message) as [|s [|d [|x l]]]; try reflexivity.
    simpl in Hl. lia.
Qed.

Lemma hexdigit_lower_hex (n : Z) : 0 <= n < 16 -> lower_hex (hexdigit n) = true.
Proof. apply (nibble_cases (fun k => lower_hex (hexdigit k))). reflexivity. Qed.

Lemma hex_EncodeToString_lower_hex (l : list Z) :
  Forall (fun b => 0 <= b < 256) l -> all_chars lower_hex (hex_EncodeToString l) = true.
Proof.
  induction 1 as [|b l Hb Hl IH]; [reflexivity|].
  cbn [hex_EncodeToString all_chars]. rewrite IH.
  rewrite !hexdigit_lower_hex; [reflexivity | |].
  - change 0xf with (Z.ones 4). rewrite Z.land_ones by lia. apply Z.mod_pos_bound. lia.
  - rewrite Z.shiftr_div_pow2 by lia. change (2 ^ 4) with 16.
    split; [apply Z.div_pos; lia | apply Z.div_lt_upper_bound; lia].
Qed.

(** The identifiers made by [generateTransactionID], and the hashes made
    by [getBlockHash], are sixty-four lowercase hex digits. *)
Lemma generateTransactionID_hex (data : string) :
  String.length (generateTransactionID data) = 64%nat /\
  all_chars lower_hex (generateTransactionID data) = true /\
  generateTransactionID data <> "".
Proof.
  split; [apply generateTransactionID_length|]. split.
  - unfold generateTransactionID, sha256_Sum256.
    apply hex_EncodeToString_lower_hex, Sum256_bytes.
  - intros H. pose proof (generateTransactionID_length data) as Hl.
    rewrite H in Hl. discriminate Hl.
Qed.

Lemma processMessages_ids ipfs_cat python messages :
  Forall (fun tx => ID tx = generateTransactionID (Data tx))
         (processMessages ipfs_cat python messages).
Proof.
  induction messages as [|message r IH]; [constructor|].
  cbn [processMessages].
  destruct (processMessage ipfs_cat python message) as [t|] eqn:E; [|exact IH].
  constructor; [|exact IH].
  unfold processMessage in E.
  destruct (strings_Split_space message) as [|s [|d [|x l]]]; try discriminate.
  destruct (ipfs_cat d); [|discriminate].
  destruct (ipfs_cat s); [|discriminate].
  destruct (python _ _); [|discriminate].
  inversion E. reflexivity.
Qed.

(** X11: the identifier of every transaction that intake puts on the
    buffer is sixty-four lowercase hex digits, so it is never empty, and
    the transactions of intake pass the identifier check of
    validation. *)
Theorem intake_transactions_pass_validation ipfs_cat python messages :
  Forall (fun tx => String.length (ID tx) = 64%nat /\ all_chars lower_hex (ID tx) = true)
         (processMessages ipfs_cat python messages) /\
  validate_transactions (processMessages ipfs_cat python messages) = true.
Proof.
  pose proof (processMessages_ids ipfs_cat python messages) as H.
  split.
  - eapply List.Forall_impl; [|exact H]. cbv beta. intros tx ->.
    destruct (generateTransactionID_hex (Data tx)) as (Hl & Hh & _). split; assumption.
  - apply validate_transactions_Forall.
    eapply List.Forall_impl; [|exact H]. cbv beta. intros tx ->.
    apply generateTransactionID_hex.
Qed.

(** ** What the broadcast encoding keeps of a block *)

(** A string, as the encoder writes it between quotes, is read back
    coerced to valid UTF-8. *)
Lemma unquote_quote_coerce_n (n : nat) :
  forall s tail,
    (String.length s <= n)%nat ->
    unquote_body (quote_body s +:+ String dquote tail) = Some (coerce_utf8 s, tail).
Proof.
  induction n as [|n IH]; intros s tail Hlen.
  - destruct s; [reflexivity | simpl in Hlen; lia].
  - destruct s as [|a1 r1]; [reflexivity|].
    simpl in Hlen. cbn [quote_body coerce_utf8]. cbv zeta.
    destruct (byte_of_ascii a1 <? 0x80) eqn:Hasc.
    + assert (E : (if htmlSafe (byte_of_ascii a1)
                   then String a1 (quote_body r1)
                   else escape a1 +:+ quote_body r1) +:+ String dquote tail
                  = (if htmlSafe (byte_of_ascii a1) then String a1 EmptyString else escape a1)
                    +:+ (quote_body r1 +:+ String dquote tail)).
      { destruct (htmlSafe (byte_of_ascii a1)); [reflexivity | apply append_assoc]. }
      rewrite E, (unquote_ascii _ _ Hasc), IH by lia. reflexivity.
    + assert (Hbad : forall esc,
                esc +:+ String dquote tail
                = String "\" (String "u" (String "f" (String "f" (String "f" (String "d"
                    (quote_body r1 +:+ String dquote tail)))))) ->
                unquote_body (esc +:+ String dquote tail)
                = Some (replacement +:+ coerce_utf8 r1, tail)).
      { intros esc ->.
        transitivity (app_result replacement
                        (unquote_body (quote_body r1 +:+ String dquote tail)));
          [reflexivity|].
        rewrite IH by lia. reflexivity. }
      destruct (utf8_size (byte_of_ascii a1) r1) as [|[|[|[|[|k]]]]] eqn:Hsz.
      * apply Hbad. rewrite append_assoc. reflexivity.
      * destruct r1; apply Hbad; rewrite append_assoc; reflexivity.
      * destruct r1 as [|a2 r2]; [apply Hbad; rewrite append_assoc; reflexivity|].
        rewrite !append_cons. cbn [unquote_body]. cbv zeta.
        rewrite Hasc, (utf8_size_2 _ _ _ _ Hsz).
        rewrite IH by (simpl in Hlen; lia). reflexivity.
      * destruct r1 as [|a2 [|a3 r3]]; try (apply Hbad; rewrite append_assoc; reflexivity).
        destruct ((byte_of_ascii a1 =? 0xE2) && (byte_of_ascii a2 =? 0x80)
                  && ((byte_of_ascii a3 =? 0xA8) || (byte_of_ascii a3 =? 0xA9))) eqn:Hsep.
        -- apply andb_prop in Hsep as [Hsep H3]. apply andb_prop in Hsep as [H1 H2].
           apply byte_of_ascii_eq in H1, H2. subst a1 a2.
           apply orb_prop in H3 as [H3|H3]; apply byte_of_ascii_eq in H3; subst a3.
           ++ transitivity (app_result (utf8_EncodeRune 0x2028)
                              (unquote_body (quote_body r3 +:+ String dquote tail)));
                [reflexivity|].
              rewrite IH by (simpl in Hlen; lia). reflexivity.
           ++ transitivity (app_result (utf8_EncodeRune 0x2029)
                              (unquote_body (quote_body r3 +:+ String dquote tail)));
                [reflexivity|].
              rewrite IH by (simpl in Hlen; lia). reflexivity.
        -- rewrite !append_cons. cbn [unquote_body]. cbv zeta.
           rewrite Hasc, (utf8_size_3 _ _ _ _ _ Hsz).
           rewrite IH by (simpl in Hlen; lia). reflexivity.
      * destruct r1 as [|a2 [|a3 [|a4 r4]]];
          try (apply Hbad; rewrite append_assoc; reflexivity).
        rewrite !append_cons. cbn [unquote_body]. cbv zeta.
        rewrite Hasc, (utf8_size_4 _ _ _ _ _ _ Hsz).
        rewrite IH by (simpl in Hlen; lia). reflexivity.
      * destruct r1 as [|a2 [|a3 [|a4 r4]]]; apply Hbad; rewrite append_assoc; reflexivity.
Qed.

Lemma unquote_quote_coerce (s tail : string) :
  unquote_body (quote_body s +:+ String dquote tail) = Some (coerce_utf8 s, tail).
Proof. apply (unquote_quote_coerce_n (String.length s)). lia. Qed.

(** The coerced string is valid UTF-8. *)
Lemma coerce_utf8_valid_n (n : nat) :
  forall s, (String.length s <= n)%nat -> utf8_ValidString (coerce_utf8 s) = true.
Proof.
  induction n as [|n IH]; intros s Hlen.
  - destruct s; [reflexivity | simpl in Hlen; lia].
  - destruct s as [|a1 r1]; [reflexivity|].
    simpl in Hlen. cbn [coerce_utf8]. cbv zeta.
    assert (Hbad : utf8_ValidString (replacement +:+ coerce_utf8 r1) = true).
    { transitivity (utf8_ValidString (coerce_utf8 r1)); [reflexivity | apply IH; lia]. }
    destruct (byte_of_ascii a1 <? 0x80) eqn:Hasc.
    + cbn [utf8_ValidString]. rewrite Hasc. apply IH. lia.
    + destruct (utf8_size (byte_of_ascii a1) r1) as [|[|[|[|[|k]]]]] eqn:Hsz;
        try exact Hbad.
      * destruct r1 as [|a2 r2]; [exact Hbad|].
        cbn [utf8_ValidString]. rewrite Hasc, (utf8_size_2 _ _ _ _ Hsz).
        apply IH. simpl in Hlen. lia.
      * destruct r1 as [|a2 [|a3 r3]]; try exact Hbad.
        cbn [utf8_ValidString]. rewrite Hasc, (utf8_size_3 _ _ _ _ _ Hsz).
        apply IH. simpl in Hlen. lia.
      * destruct r1 as [|a2 [|a3 [|a4 r4]]]; try exact Hbad.
        cbn [utf8_ValidString]. rewrite Hasc, (utf8_size_4 _ _ _ _ _ _ Hsz).
        apply IH. simpl in Hlen. lia.
Qed.

Lemma coerce_utf8_valid (s : string) : utf8_ValidString (coerce_utf8 s) = true.
Proof. apply (coerce_utf8_valid_n (String.length s)). lia. Qed.

(** Coercion changes nothing in a string of valid UTF-8. *)
Lemma coerce_utf8_fixed_n (n : nat) :
  forall s, (String.length s <= n)%nat -> utf8_ValidString s = true -> coerce_utf8 s = s.
Proof.
  induction n as [|n IH]; intros s Hlen Hv.
  - destruct s; [reflexivity | simpl in Hlen; lia].
  - destruct s as [|a1 r1]; [reflexivity|].
    simpl in Hlen. cbn [coerce_utf8 utf8_ValidString] in *. cbv zeta.
    destruct (byte_of_ascii a1 <? 0x80) eqn:Hasc.
    + rewrite IH by (assumption || lia). reflexivity.
    + destruct (utf8_size (byte_of_ascii a1) r1) as [|[|[|[|[|k]]]]] eqn:Hsz;
        try discriminate Hv.
      * destruct r1 as [|a2 r2]; cbv beta iota in Hv; [discriminate Hv|].
        rewrite IH by (assumption || (simpl in Hlen; lia)). reflexivity.
      * destruct r1 as [|a2 [|a3 r3]]; cbv beta iota in Hv; try discriminate Hv.
        rewrite IH by (assumption || (simpl in Hlen; lia)). reflexivity.
      * destruct r1 as [|a2 [|a3 [|a4 r4]]]; cbv beta iota in Hv; try discriminate Hv.
        rewrite IH by (assumption || (simpl in Hlen; lia)). reflexivity.
Qed.

Lemma coerce_utf8_fixed (s : string) : utf8_ValidString s = true <-> coerce_utf8 s = s.
Proof.
  split.
  - apply (coerce_utf8_fixed_n (String.length s)). lia.
  - intros <-. apply coerce_utf8_valid.
Qed.

(** Coercion keeps the empty string apart from the others. *)
Lemma coerce_utf8_empty (s : string) : coerce_utf8 s = "" <-> s = "".
Proof.
  split; [|intros ->; reflexivity].
  destruct s as [|a1 r1]; [reflexivity|].
  cbn [coerce_utf8]. cbv zeta.
  destruct (byte_of_ascii a1 <? 0x80); [discriminate|].
  destruct (utf8_size (byte_of_ascii a1) r1) as [|[|[|[|[|k]]]]];
    destruct r1 as [|a2 [|a3 [|a4 r4]]]; discriminate.
Qed.

Lemma print_head_numeric (v : json) :
  numeric v = true -> exists a r, print v = String a r /\ value_head a = true.
Proof.
  destruct v as [|[]|literal|s|l|l]; intros H;
    try (eexists _, _; split; reflexivity).
  cbn [numeric] in H. apply int_literal_fmt_d in H as [n ->].
  destruct (fmt_d_head n) as (a & r & E & Ha). cbn [print]. rewrite E.
  exists a, r. split; [reflexivity | apply number_head_value_head; exact Ha].
Qed.

(** The text of a value whose numbers are integers, followed by
    anything that does not extend a number, is read back as the value
    with its strings coerced to valid UTF-8. *)
Lemma parse_print_coerce (fuel : nat) :
  (forall v d tail,
     (weight v < fuel)%nat -> numeric v = true ->
     (d + height v <= maxNestingDepth)%N -> number_end tail = true ->
     parse_value fuel d (print v +:+ tail) = Some (coerce_value v, tail)) /\
  (forall v l d tail,
     (list_sum (map (fun v => S (weight v)) (v :: l)) < fuel)%nat ->
     forallb numeric (v :: l) = true ->
     (d + fold_right N.max 0 (map height (v :: l)) <= maxNestingDepth)%N ->
     parse_elements fuel d (String.concat "," (map print (v :: l)) +:+ String "]" tail)
     = Some (map coerce_value (v :: l), tail)) /\
  (forall m l d tail,
     (list_sum (map (fun m => S (weight m.2)) (m :: l)) < fuel)%nat ->
     forallb (fun m => numeric m.2) (m :: l) = true ->
     (d + fold_right N.max 0 (map (fun m => height m.2) (m :: l)) <= maxNestingDepth)%N ->
     parse_members fuel d (String.concat "," (map print_member (m :: l)) +:+ String "}" tail)
     = Some (map (fun m => (coerce_utf8 m.1, coerce_value m.2)) (m :: l), tail)).
Proof.
  induction fuel as [|fuel (IHv & IHe & IHm)]; [repeat split; intros; lia|].
  split; [|split].
  - (* a value *)
    intros v d tail Hw He Hh Hend.
    destruct v as [|[]|literal|s|l|l]; try reflexivity.
    + (* number *)
      cbn [numeric] in He. apply int_literal_fmt_d in He as [n ->]. cbn [print coerce_value].
      destruct (fmt_d_head n) as (a & r & E & Ha).
      pose proof (scan_number_fmt_d n tail Hend) as Hscan.
      rewrite E in *. rewrite append_cons in *.
      rewrite (parse_value_number _ _ _ _ Ha), Hscan. reflexivity.
    + (* string *)
      cbn [print coerce_value].
      rewrite quote_append, parse_value_string, unquote_quote_coerce. reflexivity.
    + (* array *)
      rewrite print_JArray. norm_text. cbn [height] in Hh. cbn [weight] in Hw.
      rewrite parse_value_array by (apply N.leb_gt; lia).
      destruct l as [|v l].
      * reflexivity.
      * cbn [numeric] in He.
        assert (Hv : numeric v = true) by (cbn [forallb] in He; apply andb_prop in He; tauto).
        destruct (print_head_numeric v Hv) as (a & r & E & Ha).
        apply value_head_inv in Ha as (Hs & Hb & _).
        assert (Ehead : exists x, String.concat "," (map print (v :: l)) +:+ String "]" tail
                                  = String a x).
        { destruct l as [|v' l].
          - cbn [map String.concat]. rewrite E, append_cons. eauto.
          - cbn [map]. rewrite concat_cons2, E, !append_cons. eauto. }
        destruct Ehead as [x Ex].
        pose proof (IHe v l (d + 1)%N tail) as IH. rewrite Ex in *.
        rewrite (skip_space_head _ _ Hs), Hb, IH;
          [reflexivity | unfold list_sum in *; lia | exact He | lia].
    + (* object *)
      rewrite print_JObject. norm_text. cbn [height] in Hh. cbn [weight] in Hw.
      rewrite parse_value_object by (apply N.leb_gt; lia).
      destruct l as [|m l].
      * reflexivity.
      * cbn [numeric] in He.
        assert (Ehead : exists x,
                  String.concat "," (map print_member (m :: l)) +:+ String "}" tail
                  = String dquote x).
        { destruct l as [|m' l].
          - cbn [map String.concat]. unfold print_member at 1.
            rewrite append_assoc, quote_append. eauto.
          - cbn [map]. rewrite concat_cons2. unfold print_member at 1.
            rewrite !append_assoc, quote_append. eauto. }
        destruct Ehead as [x Ex].
        pose proof (IHm m l (d + 1)%N tail) as IH. rewrite Ex in *.
        rewrite (skip_space_head dquote x eq_refl).
        change (byte_of_ascii dquote =? 0x7D) with false. cbv iota.
        rewrite IH; [reflexivity | unfold list_sum in *; lia | exact He | lia].
  - (* the elements of an array *)
    intros v l d tail Hw He Hh.
    cbn [forallb] in He. apply andb_prop in He as [Hv Hl].
    unfold list_sum in Hw. cbn [map fold_right] in Hw, Hh.
    rewrite parse_elements_S.
    destruct l as [|v' l].
    + cbn [map String.concat].
      rewrite IHv by (try assumption; try reflexivity; lia).
      reflexivity.
    + cbn [map]. rewrite concat_cons2. norm_text.
      change (print v' :: map print l) with (map print (v' :: l)).
      rewrite IHv by (try assumption; try reflexivity; lia).
      rewrite (skip_space_head "," _ eq_refl).
      change (byte_of_ascii "," =? 0x2C) with true. cbv iota.
      rewrite IHe; [reflexivity | | exact Hl |].
      * unfold list_sum in *. cbn [map fold_right] in *. lia.
      * cbn [map fold_right] in *. lia.
  - (* the members of an object *)
    intros m l d tail Hw He Hh.
    cbn [forallb] in He. apply andb_prop in He as [Hv Hl].
    unfold list_sum in Hw. cbn [map fold_right] in Hw, Hh.
    assert (Estep : forall rest,
              number_end rest = true ->
              unquote_body (quote_body m.1 +:+ String dquote (String ":" (print m.2 +:+ rest)))
              = Some (coerce_utf8 m.1, String ":" (print m.2 +:+ rest)) /\
              parse_value fuel d (print m.2 +:+ rest) = Some (coerce_value m.2, rest)).
    { intros rest Hrest. split; [apply unquote_quote_coerce|].
      apply IHv; try assumption; lia. }
    destruct l as [|m' l].
    + cbn [map String.concat]. unfold print_member.
      rewrite !append_assoc, quote_append, parse_members_quote. norm_text.
      destruct (Estep (String "}" tail) eq_refl) as [E1 E2].
      rewrite E1. rewrite (skip_space_head ":" _ eq_refl).
      change (byte_of_ascii ":" =? 0x3A) with true. cbv iota.
      rewrite E2. reflexivity.
    + cbn [map]. rewrite concat_cons2. unfold print_member at 1.
      rewrite !append_assoc, quote_append, parse_members_quote. norm_text.
      change (print_member m' :: map print_member l) with (map print_member (m' :: l)).
      destruct (Estep (String "," (String.concat "," (map print_member (m' :: l))
                                     +:+ String "}" tail)) eq_refl) as [E1 E2].
      rewrite E1. rewrite (skip_space_head ":" _ eq_refl).
      change (byte_of_ascii ":" =? 0x3A) with true. cbv iota.
      rewrite E2. rewrite (skip_space_head "," _ eq_refl).
      change (byte_of_ascii "," =? 0x2C) with true. cbv iota.
      rewrite IHm; [reflexivity | | exact Hl |].
      * unfold list_sum in *. cbn [map fold_right] in *. lia.
      * cbn [map fold_right] in *. lia.
Qed.

Lemma json_of_Transactions_size (l : list Transaction) :
  forallb numeric (map json_of_Transaction l) = true /\
  list_sum (map (fun v => S (weight v)) (map json_of_Transaction l)) = (4 * length l)%nat /\
  (fold_right N.max 0 (map height (map json_of_Transaction l)) <= 1)%N /\
  map coerce_value (map json_of_Transaction l)
  = map json_of_Transaction (map coerce_Transaction l) /\
  (2 * length l <= String.length (String.concat "," (map print (map json_of_Transaction l))) + 1)%nat.
Proof.
  induction l as [|t l (He & Hw & Hh & Hc & Hlen)].
  - repeat split; simpl; lia.
  - cbn [map]. split; [|split; [|split; [|split]]].
    + cbn [forallb]. rewrite He. reflexivity.
    + cbn [list_sum]. unfold list_sum in *. cbn [fold_right]. rewrite Hw.
      cbn [json_of_Transaction weight map list_sum fold_right snd]. simpl length. lia.
    + cbn [fold_right]. change (height (json_of_Transaction t)) with 1%N. lia.
    + rewrite Hc. reflexivity.
    + destruct (map json_of_Transaction l) as [|v r] eqn:E.
      * destruct l; [|discriminate E]. simpl. lia.
      * cbn [map] in *. rewrite concat_cons2, !length_append.
        assert (Hone : (1 <= String.length (print (json_of_Transaction t)))%nat).
        { change (print (json_of_Transaction t))
            with (String "{" (String.concat ","
                    (map print_member
                       [("ID", JString (ID t)); ("Data", JString (Data t))]) +:+ "}")).
          cbn [String.length]. lia. }
        change (String.length ",") with 1%nat. cbn [length]. lia.
Qed.

Lemma json_of_Block_size (b : Block) :
  numeric (json_of_Block b) = true /\
  (weight (json_of_Block b) < 2 * String.length (print (json_of_Block b)) + 2)%nat /\
  (0 + height (json_of_Block b) <= maxNestingDepth)%N /\
  coerce_value (json_of_Block b) = json_of_Block (coerce_Block b).
Proof.
  destruct b as [p txs n h c k].
  assert (Ht : numeric (json_of_Transactions txs) = true /\
               (weight (json_of_Transactions txs)
                <= 2 * String.length (print (json_of_Transactions txs)))%nat /\
               (height (json_of_Transactions txs) <= 2)%N /\
               coerce_value (json_of_Transactions txs)
               = json_of_Transactions (option_map (map coerce_Transaction) txs)).
  { destruct txs as [l|]; [|repeat split; simpl; lia].
    destruct (json_of_Transactions_size l) as (He & Hw & Hh & Hc & Hlen).
    cbn [json_of_Transactions option_map]. split; [exact He|]. split; [|split].
    - cbn [weight]. rewrite Hw, print_JArray, !length_append.
      change (String.length "[") with 1%nat. change (String.length "]") with 1%nat. lia.
    - cbn [height]. lia.
    - cbn [coerce_value]. rewrite Hc. reflexivity. }
  destruct Ht as (He & Hw & Hh & Hc).
  split; [|split; [|split]].
  - unfold json_of_Block.
    cbn [numeric forallb fst snd json_of_int PrevHash Transactions Nonce Hash PrevCID
         BlockNumber].
    rewrite He, !int_literal_json_of_int. reflexivity.
  - unfold json_of_Block at 1. unfold list_sum.
    cbn [weight map fold_right snd json_of_int PrevHash Transactions Nonce Hash PrevCID
         BlockNumber].
    unfold json_of_Block. rewrite print_JObject.
    cbn [map PrevHash Transactions Nonce Hash PrevCID BlockNumber].
    rewrite !concat_cons2. cbn [String.concat]. unfold print_member. cbn [fst snd].
    rewrite !length_append. unfold list_sum. cbn [String.length fold_right]. lia.
  - unfold json_of_Block.
    cbn [height map fold_right snd json_of_int PrevHash Transactions Nonce Hash PrevCID
         BlockNumber].
    unfold maxNestingDepth. lia.
  - unfold json_of_Block, coerce_Block.
    cbn [coerce_value map fst snd json_of_int PrevHash Transactions Nonce Hash PrevCID
         BlockNumber].
    rewrite Hc. reflexivity.
Qed.

Lemma coerce_Block_ok (b : Block) :
  int_ok (Nonce b) = true -> int_ok (BlockNumber b) = true ->
  Block_ok (coerce_Block b) = true.
Proof.
  intros Hn Hk. unfold Block_ok, coerce_Block.
  cbn [PrevHash Transactions Nonce Hash PrevCID BlockNumber].
  rewrite !coerce_utf8_valid, Hn, Hk.
  assert (Ht : forallb Transaction_ok
                 (elems (option_map (map coerce_Transaction) (Transactions b))) = true).
  { destruct (Transactions b) as [l|]; [|reflexivity]. cbn [option_map elems].
    induction l as [|t l IH]; [reflexivity|].
    cbn [map forallb]. rewrite IH. unfold Transaction_ok, coerce_Transaction.
    cbn [ID Data]. rewrite !coerce_utf8_valid. reflexivity. }
  rewrite Ht. reflexivity.
Qed.

(** A block, encoded and decoded, comes back with its strings coerced
    to valid UTF-8. *)
Lemma json_Unmarshal_Marshal (b : Block) :
  int_ok (Nonce b) = true -> int_ok (BlockNumber b) = true ->
  json_Unmarshal (json_Marshal b) = Some (coerce_Block b).
Proof.
  intros Hn Hk.
  destruct (json_of_Block_size b) as (He & Hw & Hh & Hc).
  unfold json_Unmarshal, json_Marshal, parse.
  pose proof (proj1 (parse_print_coerce (2 * String.length (print (json_of_Block b)) + 2))
                (json_of_Block b) 0%N EmptyString Hw He Hh eq_refl) as Hp.
  rewrite append_empty_r in Hp. rewrite Hp. cbn [skip_space]. rewrite Hc.
  apply decode_json_of_Block, coerce_Block_ok; assumption.
Qed.

Lemma coerce_Transactions_fixed (l : list Transaction) :
  forallb Transaction_ok l = true -> map coerce_Transaction l = l.
Proof.
  induction l as [|t l IH]; [reflexivity|].
  cbn [forallb map]. intros H. apply andb_prop in H as [Ht Hl]. rewrite (IH Hl).
  unfold Transaction_ok in Ht. apply andb_prop in Ht as [Hi Hd].
  apply (proj1 (coerce_utf8_fixed _)) in Hi, Hd. destruct t as [i d]. unfold coerce_Transaction.
  cbn [ID Data] in *. rewrite Hi, Hd. reflexivity.
Qed.

(** X12: for every block (its integers being Go ints), the text that
    [json.Marshal] gives is accepted by [json.Unmarshal], and what comes
    back is the block with every string coerced to valid UTF-8: each
    byte that is not part of a well-formed sequence has become U+FFFD.
    That block goes through the encoding unchanged, and it is the
    original exactly when all the strings of the original are valid
    UTF-8. *)
Theorem encoding_coerces_strings (b : Block) :
  int_ok (Nonce b) = true -> int_ok (BlockNumber b) = true ->
  json_Unmarshal (json_Marshal b) = Some (coerce_Block b) /\
  json_Unmarshal (json_Marshal (coerce_Block b)) = Some (coerce_Block b) /\
  (coerce_Block b = b <-> Block_ok b = true).
Proof.
  intros Hn Hk.
  pose proof (coerce_Block_ok b Hn Hk) as Hok.
  split; [apply json_Unmarshal_Marshal; assumption|]. split.
  - rewrite json_Unmarshal_Marshal by assumption. f_equal.
    unfold Block_ok in Hok. repeat (apply andb_prop in Hok as [Hok ?]).
    destruct (coerce_Block b) as [p txs n h c k].
    cbn [PrevHash Transactions Nonce Hash PrevCID BlockNumber] in *.
    unfold coerce_Block. cbn [PrevHash Transactions Nonce Hash PrevCID BlockNumber].
    repeat match goal with
           | H : utf8_ValidString _ = true |- _ =>
               apply (proj1 (coerce_utf8_fixed _)) in H; rewrite H; clear H
           end.
    destruct txs as [l|]; [|reflexivity]. cbn [option_map elems] in *.
    rewrite coerce_Transactions_fixed by assumption. reflexivity.
  - split; [intros <-; exact Hok|].
    intros H. unfold Block_ok in H. repeat (apply andb_prop in H as [H ?]).
    destruct b as [p txs n h c k].
    cbn [PrevHash Transactions Nonce Hash PrevCID BlockNumber] in *.
    unfold coerce_Block. cbn [PrevHash Transactions Nonce Hash PrevCID BlockNumber].
    repeat match goal with
           | H : utf8_ValidString _ = true |- _ =>
               apply (proj1 (coerce_utf8_fixed _)) in H; rewrite H; clear H
           end.
    destruct txs as [l|]; [|reflexivity]. cbn [option_map elems] in *.
    rewrite coerce_Transactions_fixed by assumption. reflexivity.
Qed.

Lemma encoding_coerces_strings_witness :
  json_Unmarshal (json_Marshal binary_block) = Some (coerce_Block binary_block) /\
  json_Unmarshal (json_Marshal (coerce_Block binary_block)) = Some (coerce_Block binary_block) /\
  (coerce_Block binary_block = binary_block <-> Block_ok binary_block = true).
Proof.
  apply (encoding_coerces_strings binary_block); reflexivity.
Defined.

Lemma validate_transactions_coerce (l : list Transaction) :
  validate_transactions (map coerce_Transaction l) = validate_transactions l.
Proof.
  induction l as [|t l IH]; [reflexivity|].
  cbn [map validate_transactions]. rewrite IH. unfold coerce_Transaction at 1. cbn [ID].
  destruct (String.eqb_spec (coerce_utf8 (ID t)) "") as [E | E];
    destruct (String.eqb_spec (ID t) "") as [E' | E']; try reflexivity.
  - apply (proj1 (coerce_utf8_empty _)) in E. contradiction.
  - rewrite E' in E. exfalso. apply E. reflexivity.
Qed.

(** What validation says of a block as it is broadcast. *)
Lemma validateBlock_json_Marshal (b : Block) (prevHash : string) (tgt : Z) :
  int_ok (Nonce b) = true -> int_ok (BlockNumber b) = true ->
  validateBlock (json_Marshal b) prevHash tgt
  = (String.eqb prevHash "-1" || String.eqb (coerce_utf8 (PrevHash b)) prevHash)
    && validate_transactions (elems (Transactions b)).
Proof.
  intros Hn Hk. unfold validateBlock. rewrite json_Unmarshal_Marshal by assumption.
  unfold coerce_Block. cbn [PrevHash Transactions].
  assert (Ht : validate_transactions (elems (option_map (map coerce_Transaction) (Transactions b)))
               = validate_transactions (elems (Transactions b))).
  { destruct (Transactions b) as [l|]; [|reflexivity]. apply validate_transactions_coerce. }
  rewrite Ht.
  destruct (String.eqb prevHash "-1"); destruct (String.eqb _ prevHash); reflexivity.
Qed.

(** X13: the text of a block as it is broadcast passes validation
    exactly when none of its transactions has an empty identifier and
    the expected previous hash is -1 or the block's [PrevHash] (coerced
    to valid UTF-8); with -1, as the receiver calls it, only the
    identifiers count. *)
Theorem broadcast_block_validation (b : Block) (prevHash : string) (tgt : Z) :
  int_ok (Nonce b) = true -> int_ok (BlockNumber b) = true ->
  validateBlock (json_Marshal b) prevHash tgt
  = (String.eqb prevHash "-1" || String.eqb (coerce_utf8 (PrevHash b)) prevHash)
    && validate_transactions (elems (Transactions b)) /\
  validateBlock (json_Marshal b) "-1" target
  = validate_transactions (elems (Transactions b)).
Proof.
  intros Hn Hk. split; [apply validateBlock_json_Marshal; assumption|].
  rewrite validateBlock_json_Marshal by assumption. reflexivity.
Qed.

Lemma broadcast_block_validation_witness :
  validateBlock (json_Marshal blank_block) (Hash run_block) target
  = (String.eqb (Hash run_block) "-1"
     || String.eqb (coerce_utf8 (PrevHash blank_block)) (Hash run_block))
    && validate_transactions (elems (Transactions blank_block)) /\
  validateBlock (json_Marshal blank_block) "-1" target
  = validate_transactions (elems (Transactions blank_block)).
Proof.
  apply (broadcast_block_validation blank_block (Hash run_block) target); reflexivity.
Defined.

(** ** The text of a broadcast block *)

Lemma all_chars_append (p : ascii -> bool) (s t : string) :
  all_chars p (s +:+ t) = all_chars p s && all_chars p t.
Proof.
  induction s as [|a s IH]; [reflexivity|].
  rewrite append_cons. cbn [all_chars]. rewrite IH. apply andb_assoc.
Qed.

Lemma line_safe_ascii (a : ascii) :
  (byte_of_ascii a <? 0x80) = true ->
  all_chars line_safe
    (if htmlSafe (byte_of_ascii a) then String a EmptyString else escape a) = true.
Proof.
  destruct a as [[] [] [] [] [] [] [] []]; intros H;
    first [discriminate H | reflexivity].
Qed.

Lemma line_safe_high (a : ascii) : 0x80 <= byte_of_ascii a -> line_safe a = true.
Proof.
  intros H. unfold line_safe. cbv zeta.
  destruct (Z.leb_spec 0x20 (byte_of_ascii a)); [|lia].
  destruct (Z.eqb_spec (byte_of_ascii a) 0x3C); [lia|].
  destruct (Z.eqb_spec (byte_of_ascii a) 0x3E); [lia|].
  destruct (Z.eqb_spec (byte_of_ascii a) 0x26); [lia|]. reflexivity.
Qed.

(** The bytes that continue a well-formed sequence are not ASCII. *)
Lemma utf8_size_high c r :
  match utf8_size c r, r with
  | 2%nat, String a2 _ => 0x80 <= byte_of_ascii a2
  | 3%nat, String a2 (String a3 _) => 0x80 <= byte_of_ascii a2 /\ 0x80 <= byte_of_ascii a3
  | 4%nat, String a2 (String a3 (String a4 _)) =>
      0x80 <= byte_of_ascii a2 /\ 0x80 <= byte_of_ascii a3 /\ 0x80 <= byte_of_ascii a4
  | _, _ => True
  end.
Proof.
  unfold utf8_size, continuation. cbv zeta.
  destruct r as [|a2 [|a3 [|a4 r4]]];
    repeat match goal with
           | |- context [if ?b then _ else _] => destruct b eqn:?
           end;
    cbv beta iota; try exact I;
    repeat match goal with
           | H : (_ && _) = true |- _ => apply andb_prop in H as [? ?]
           | H : (_ <=? _) = true |- _ => apply Z.leb_le in H
           | H : (_ =? _) = true |- _ => apply Z.eqb_eq in H
           | H : (_ =? _) = false |- _ => apply Z.eqb_neq in H
           | H : context [if ?b then _ else _] |- _ => destruct b
           end;
    repeat split; lia.
Qed.

Lemma quote_body_line_safe_n (n : nat) :
  forall s, (String.length s <= n)%nat -> all_chars line_safe (quote_body s) = true.
Proof.
  induction n as [|n IH]; intros s Hlen.
  - destruct s; [reflexivity | simpl in Hlen; lia].
  - destruct s as [|a1 r1]; [reflexivity|].
    simpl in Hlen. cbn [quote_body]. cbv zeta.
    destruct (byte_of_ascii a1 <? 0x80) eqn:Hasc.
    + pose proof (line_safe_ascii a1 Hasc) as Ha.
      destruct (htmlSafe (byte_of_ascii a1)).
      * cbn [all_chars] in *. rewrite andb_true_r in Ha. rewrite Ha. apply IH. lia.
      * rewrite all_chars_append, Ha. apply IH. lia.
    + assert (H1 : line_safe a1 = true).
      { apply line_safe_high. apply Z.ltb_ge in Hasc. exact Hasc. }
      assert (Hbad : forall esc,
                esc = String "\" (String "u" (String "f" (String "f" (String "f"
                        (String "d" (quote_body r1)))))) ->
                all_chars line_safe esc = true).
      { intros esc ->. transitivity (all_chars line_safe (quote_body r1));
          [reflexivity | apply IH; lia]. }
      pose proof (utf8_size_high (byte_of_ascii a1) r1) as Hhigh.
      destruct (utf8_size (byte_of_ascii a1) r1) as [|[|[|[|[|k]]]]] eqn:Hsz.
      * apply Hbad. reflexivity.
      * destruct r1; apply Hbad; reflexivity.
      * destruct r1 as [|a2 r2]; [apply Hbad; reflexivity|].
        cbn [all_chars]. rewrite H1, (line_safe_high a2 Hhigh).
        apply IH. simpl in Hlen. lia.
      * destruct r1 as [|a2 [|a3 r3]]; try (apply Hbad; reflexivity).
        destruct Hhigh as [Hh2 Hh3].
        destruct ((byte_of_ascii a1 =? 0xE2) && (byte_of_ascii a2 =? 0x80)
                  && ((byte_of_ascii a3 =? 0xA8) || (byte_of_ascii a3 =? 0xA9))) eqn:Hsep.
        -- apply andb_prop in Hsep as [_ H3].
           apply orb_prop in H3 as [H3|H3]; apply byte_of_ascii_eq in H3; subst a3;
             (transitivity (all_chars line_safe (quote_body r3));
              [reflexivity | apply IH; simpl in Hlen; lia]).
        -- cbn [all_chars]. rewrite H1, (line_safe_high a2 Hh2), (line_safe_high a3 Hh3).
           apply IH. simpl in Hlen. lia.
      * destruct r1 as [|a2 [|a3 [|a4 r4]]]; try (apply Hbad; reflexivity).
        destruct Hhigh as (Hh2 & Hh3 & Hh4).
        cbn [all_chars].
        rewrite H1, (line_safe_high a2 Hh2), (line_safe_high a3 Hh3), (line_safe_high a4 Hh4).
        apply IH. simpl in Hlen. lia.
      * destruct r1 as [|a2 [|a3 [|a4 r4]]]; apply Hbad; reflexivity.
Qed.

Lemma quote_line_safe (s : string) : all_chars line_safe (quote s) = true.
Proof.
  unfold quote. cbn [all_chars]. rewrite all_chars_append.
  rewrite (quote_body_line_safe_n (String.length s)) by lia. reflexivity.
Qed.

Lemma string_of_uint_line_safe (d : Decimal.uint) :
  all_chars line_safe (NilEmpty.string_of_uint d) = true.
Proof. induction d; cbn [NilEmpty.string_of_uint all_chars]; try rewrite IHd; reflexivity. Qed.

Lemma fmt_d_line_safe (n : Z) : all_chars line_safe (fmt_d n) = true.
Proof.
  unfold fmt_d, NilZero.string_of_int, NilZero.string_of_uint.
  destruct (Z.to_int n) as [d|d]; destruct d;
    cbn [all_chars]; try rewrite string_of_uint_line_safe; try reflexivity;
    exact (string_of_uint_line_safe _).
Qed.

Lemma json_of_Transactions_line_safe (l : list Transaction) :
  all_chars line_safe (String.concat "," (map print (map json_of_Transaction l))) = true.
Proof.
  assert (Hone : forall t, all_chars line_safe (print (json_of_Transaction t)) = true).
  { intros t. unfold json_of_Transaction. rewrite print_JObject.
    cbn [map]. rewrite concat_cons2. cbn [String.concat]. unfold print_member. cbn [fst snd print].
    rewrite !all_chars_append, !quote_line_safe. reflexivity. }
  induction l as [|t [|t' l] IH]; [reflexivity | apply Hone |].
  cbn [map] in *. rewrite concat_cons2, !all_chars_append, Hone, IH. reflexivity.
Qed.

(** The text of a block holds no control character. *)
Lemma json_Marshal_line_safe (b : Block) : all_chars line_safe (json_Marshal b) = true.
Proof.
  unfold json_Marshal, json_of_Block. rewrite print_JObject.
  cbn [map]. rewrite !concat_cons2. cbn [String.concat]. unfold print_member.
  cbn [fst snd]. unfold json_of_int. cbn [print].
  assert (Ht : all_chars line_safe (print (json_of_Transactions (Transactions b))) = true).
  { destruct (Transactions b) as [l|]; [|reflexivity].
    cbn [json_of_Transactions]. rewrite print_JArray, !all_chars_append.
    rewrite json_of_Transactions_line_safe. reflexivity. }
  rewrite !all_chars_append, !quote_line_safe, !fmt_d_line_safe, Ht. reflexivity.
Qed.


(** ** The receiver's scanner on a broadcast text *)

Lemma line_safe_printable (c : ascii) : line_safe c = true -> 0x20 <= byte_of_ascii c.
Proof.
  unfold line_safe. cbv zeta. intros H. apply andb_prop in H as [H _].
  apply Z.leb_le in H. exact H.
Qed.

Lemma split_lines_one (s : string) :
  all_chars line_safe s = true -> s <> EmptyString -> split_lines s = [s].
Proof.
  induction s as [|c r IH]; intros Hs Hne; [contradiction|].
  cbn [all_chars] in Hs. apply andb_prop in Hs as [Hc Hr].
  apply line_safe_printable in Hc. cbn [split_lines].
  destruct (Z.eqb_spec (byte_of_ascii c) 0x0A) as [E | _]; [lia|].
  destruct r as [|c' r']; [reflexivity|].
  rewrite (IH Hr) by discriminate. reflexivity.
Qed.

Lemma dropCR_line_safe (s : string) : all_chars line_safe s = true -> dropCR s = s.
Proof.
  induction s as [|c r IH]; intros Hs; [reflexivity|].
  cbn [all_chars] in Hs. apply andb_prop in Hs as [Hc Hr].
  apply line_safe_printable in Hc. cbn [dropCR].
  destruct r as [|c' r'].
  - destruct (Z.eqb_spec (byte_of_ascii c) 0x0D) as [E | _]; [lia | reflexivity].
  - rewrite (IH Hr). reflexivity.
Qed.

(** The scanner gives the text of a block as one line when it is
    shorter than the limit of a token, and nothing otherwise. *)
Lemma scanner_lines_json_Marshal (b : Block) :
  scanner_lines (json_Marshal b)
  = if MaxScanTokenSize <=? Z.of_nat (String.length (json_Marshal b)) then []
    else [json_Marshal b].
Proof.
  pose proof (json_Marshal_line_safe b) as H.
  unfold scanner_lines. rewrite (split_lines_one _ H).
  - cbn [scan_tokens]. rewrite (dropCR_line_safe _ H). reflexivity.
  - unfold json_Marshal, json_of_Block. rewrite print_JObject. discriminate.
Qed.

(** ** Dissemination *)

Lemma int_wrap_ok (x : Z) : int_ok (int_wrap x) = true.
Proof.
  unfold int_ok, int_wrap.
  pose proof (Z.mod_pos_bound (x + 2 ^ 63) (2 ^ 64) ltac:(lia)).
  apply andb_true_intro. split; [apply Z.leb_le | apply Z.ltb_lt]; lia.
Qed.

Lemma iter_int_incr_ok (k : nat) (x : Z) :
  int_ok x = true -> int_ok (Nat.iter k int_incr x) = true.
Proof.
  intros H. destruct k as [|k]; [exact H|]. rewrite Nat.iter_succ. apply int_wrap_ok.
Qed.

(** What a run hands to [sendBlockToMiner]. *)
Lemma startMining_broadcast stop ipfs_add fuel prevHash prevCID st o st' evs :
  startMining stop ipfs_add fuel prevHash prevCID st = (o, st', evs) ->
  broadcast evs = match o with
                  | Mined b => map (fun miner => (miner, b)) (connectedMiners st)
                  | _ => []
                  end.
Proof.
  intros H. apply startMining_run in H
    as [(_ & -> & -> & ->) | [(_ & _ & -> & -> & ->) | (_ & _ & evs' & H & ->)]].
  - reflexivity.
  - cbn [broadcast]. rewrite <- (app_nil_r (map EvDequeue _)). apply broadcast_dequeue.
  - cbn [broadcast]. rewrite broadcast_dequeue.
    apply proofOfWork_broadcast in H. exact H.
Qed.

(** The integers of a block returned by the engine are Go ints. *)
Lemma startMining_ints stop ipfs_add fuel prevHash prevCID st st' evs b :
  startMining stop ipfs_add fuel prevHash prevCID st = (Mined b, st', evs) ->
  int_ok (minedBlocks st) = true ->
  int_ok (Nonce b) = true /\ int_ok (BlockNumber b) = true.
Proof.
  intros H Hm. apply startMining_run in H
    as [(_ & E & _) | [(_ & _ & E & _) | (_ & _ & evs' & H & ->)]]; try discriminate E.
  split.
  - apply proofOfWork_first_hit in H as (k & -> & _). apply iter_int_incr_ok. reflexivity.
  - apply proofOfWork_counters in H as (_ & _ & _ & Hb & _).
    rewrite (Hb b eq_refl). apply iter_int_incr_ok. exact Hm.
Qed.

Lemma written_app (l1 l2 : list NetEvent) : written (l1 ++ l2) = written l1 ++ written l2.
Proof.
  induction l1 as [|e l1 IH]; [reflexivity|].
  destruct e; cbn [app written]; rewrite IH; reflexivity.
Qed.

Lemma dialled_app (l1 l2 : list NetEvent) : dialled (l1 ++ l2) = dialled l1 ++ dialled l2.
Proof.
  induction l1 as [|e l1 IH]; [reflexivity|].
  destruct e; cbn [app dialled]; rewrite IH; reflexivity.
Qed.

(** Every miner handed to [sendBlockToMiner] is dialled, whether the
    miners before it were reached or not; what is written is the JSON
    text of the block. *)
Lemma sendBlocks_net dial (calls : list (string * Block)) :
  forall n,
    dialled (sendBlocks dial n calls) = map (fun c => c.1 +:+ ":8081") calls /\
    (forall address blockData,
       In (address, blockData) (written (sendBlocks dial n calls)) ->
       exists miner block,
         In (miner, block) calls /\ address = miner +:+ ":8081" /\
         blockData = json_Marshal block) /\
    ((forall k address, dial k address = true) ->
     written (sendBlocks dial n calls)
     = map (fun c => (c.1 +:+ ":8081", json_Marshal c.2)) calls).
Proof.
  induction calls as [|[miner block] calls IH]; intros n.
  - split; [reflexivity|]. split; [intros ? ? []|reflexivity].
  - destruct (IH (S n)) as (Hd & Hw & Hall). cbn [sendBlocks map fst snd].
    rewrite dialled_app, written_app, Hd. unfold sendBlockToMiner. cbv zeta.
    split; [|split].
    + destruct (dial n _); reflexivity.
    + intros address blockData Hin. apply in_app_or in Hin as [Hin | Hin].
      * destruct (dial n _); [|destruct Hin].
        destruct Hin as [E | []]. inversion E; subst.
        exists miner, block. split; [left; reflexivity | split; reflexivity].
      * apply Hw in Hin as (m & b & Hin & -> & ->).
        exists m, b. split; [right; exact Hin | split; reflexivity].
    + intros Hup. rewrite Hup, (Hall Hup). reflexivity.
Qed.

(** X15: when a run returns a block, every connected miner is dialled
    once on port 8081, in the order of the list, whether the miners
    before it were reached or not; when it returns none, nobody is
    dialled.  Whatever is written is the JSON text of the block
    returned; with every miner reachable, each gets that text once. *)
Theorem dissemination_dials_every_miner
    stop ipfs_add dial fuel prevHash prevCID st o st' evs n :
  startMining stop ipfs_add fuel prevHash prevCID st = (o, st', evs) ->
  dialled (sendBlocks dial n (broadcast evs))
  = match o with
    | Mined _ => map (fun miner => miner +:+ ":8081") (connectedMiners st)
    | _ => []
    end /\
  (forall address blockData,
     In (address, blockData) (written (sendBlocks dial n (broadcast evs))) ->
     exists miner b,
       o = Mined b /\ In miner (connectedMiners st) /\
       address = miner +:+ ":8081" /\ blockData = json_Marshal b) /\
  ((forall k address, dial k address = true) ->
   forall b, o = Mined b ->
   written (sendBlocks dial n (broadcast evs))
   = map (fun miner => (miner +:+ ":8081", json_Marshal b)) (connectedMiners st)).
Proof.
  intros H. apply startMining_broadcast in H.
  destruct (sendBlocks_net dial (broadcast evs) n) as (Hd & Hw & Hall).
  rewrite H in *. split; [|split].
  - rewrite Hd. destruct o; try reflexivity. rewrite map_map. reflexivity.
  - intros address blockData Hin. apply Hw in Hin as (miner & b & Hin & -> & ->).
    destruct o as [|b0| |]; try destruct Hin.
    apply in_map_iff in Hin as (m & E & Hm). inversion E; subst.
    exists miner, b. repeat split; try reflexivity. exact Hm.
  - intros Hup b ->. rewrite (Hall Hup), map_map. reflexivity.
Qed.

Lemma dissemination_dials_every_miner_witness :
  dialled (sendBlocks (fun _ _ => true) 0 (broadcast run_result.2))
  = match run_result.1.1 with
    | Mined _ => map (fun miner => miner +:+ ":8081") (connectedMiners run_state)
    | _ => []
    end /\
  (forall address blockData,
     In (address, blockData)
        (written (sendBlocks (fun _ _ => true) 0 (broadcast run_result.2))) ->
     exists miner b,
       run_result.1.1 = Mined b /\ In miner (connectedMiners run_state) /\
       address = miner +:+ ":8081" /\ blockData = json_Marshal b) /\
  ((forall k address, (fun (_ : nat) (_ : string) => true) k address = true) ->
   forall b, run_result.1.1 = Mined b ->
   written (sendBlocks (fun _ _ => true) 0 (broadcast run_result.2))
   = map (fun miner => (miner +:+ ":8081", json_Marshal b)) (connectedMiners run_state)).
Proof.
  apply (dissemination_dials_every_miner never ipfs_ok (fun _ _ => true) 10 "-1" "-1"
           run_state run_result.1.1 run_result.1.2 run_result.2 0).
  vm_compute. reflexivity.
Defined.

(** The text written for a block of a run passes validation when the
    three transactions of the block have identifiers. *)
Lemma written_text_valid stop ipfs_add dial fuel prevHash prevCID st o st' evs n
    address blockData :
  startMining stop ipfs_add fuel prevHash prevCID st = (o, st', evs) ->
  int_ok (minedBlocks st) = true ->
  validate_transactions (firstn 3 (transactionBuffer st)) = true ->
  In (address, blockData) (written (sendBlocks dial n (broadcast evs))) ->
  (exists miner, In miner (connectedMiners st) /\ address = miner +:+ ":8081") /\
  (exists b, blockData = json_Marshal b) /\
  validateBlock blockData "-1" target = true.
Proof.
  intros H Hm Hv Hin. pose proof H as Hrun. apply startMining_broadcast in H.
  destruct (sendBlocks_net dial (broadcast evs) n) as (_ & Hw & _).
  apply Hw in Hin as (miner & b & Hin & -> & ->). rewrite H in Hin.
  destruct o as [|b0| |]; try destruct Hin.
  apply in_map_iff in Hin as (m & E & Hmin). inversion E; subst.
  split; [exists miner; split; [exact Hmin | reflexivity]|].
  split; [exists b; reflexivity|].
  destruct (startMining_ints _ _ _ _ _ _ _ _ _ Hrun Hm) as [Hn Hk].
  rewrite validateBlock_json_Marshal by assumption.
  assert (Hb : emitted evs b).
  { right. exists miner. clear - H Hmin.
    assert (Hin : In (miner, b) (broadcast evs)).
    { rewrite H. apply in_map_iff. exists miner. split; [reflexivity | exact Hmin]. }
    clear H. induction evs as [|e evs IH]; [destruct Hin|].
    destruct e; cbn [broadcast] in Hin; try (right; apply IH; exact Hin).
    destruct Hin as [E | Hin]; [left; inversion E; reflexivity | right; apply IH; exact Hin]. }
  apply (startMining_emitted _ _ _ _ _ _ _ _ _ _ Hrun) in Hb as (_ & _ & -> & _).
  cbn [elems]. rewrite Hv. reflexivity.
Qed.

(** X16: a block that the engine mines from transactions with
    identifiers, as those of intake are, passes validation.  A receiver
    whose connection delivers the text written for it scans it as one
    line when it is shorter than 64 KiB, the limit of the scanner, and
    the block gets one vote there under the hash of its text; a text of
    64 KiB or more is not scanned, and the receiver does nothing. *)
Theorem mined_block_gets_vote stop ipfs_add dial fuel prevHash prevCID st o st' evs n
    address blockData miners tally :
  startMining stop ipfs_add fuel prevHash prevCID st = (o, st', evs) ->
  int_ok (minedBlocks st) = true ->
  validate_transactions (firstn 3 (transactionBuffer st)) = true ->
  In (address, blockData) (written (sendBlocks dial n (broadcast evs))) ->
  validateBlock blockData "-1" target = true /\
  (Z.of_nat (String.length blockData) < MaxScanTokenSize ->
   scanner_lines blockData = [blockData] /\
   votes (receiveConnection miners tally blockData).1 (getBlockHash blockData)
   = int_incr (votes tally (getBlockHash blockData)) /\
   (Z.quot (Z.of_nat (length miners)) 2 < int_incr (votes tally (getBlockHash blockData)) ->
    (receiveConnection miners tally blockData).2 = [Accepted (getBlockHash blockData)])) /\
  (MaxScanTokenSize <= Z.of_nat (String.length blockData) ->
   scanner_lines blockData = [] /\
   receiveConnection miners tally blockData = (tally, [])).
Proof.
  intros H Hm Hv Hin.
  destruct (written_text_valid _ _ _ _ _ _ _ _ _ _ _ _ _ H Hm Hv Hin) as (_ & [b ->] & Hok).
  split; [exact Hok|]. unfold receiveConnection.
  rewrite scanner_lines_json_Marshal. split.
  - intros Hlen. apply Z.leb_gt in Hlen. rewrite Hlen.
    split; [reflexivity|]. rewrite receiveBlocks_cons. cbn [receiveBlocks fst snd].
    rewrite (receiveBlock_accepted _ _ _ Hok). cbn [fst snd]. rewrite app_nil_r.
    split; [apply votes_insert|].
    intros Hq. apply Z.ltb_lt in Hq. rewrite Hq. reflexivity.
  - intros Hlen. apply Z.leb_le in Hlen. rewrite Hlen. split; reflexivity.
Qed.

Lemma mined_block_gets_vote_witness :
  validateBlock run_line "-1" target = true /\
  (Z.of_nat (String.length run_line) < MaxScanTokenSize ->
   scanner_lines run_line = [run_line] /\
   votes (receiveConnection five_peers no_votes run_line).1 (getBlockHash run_line)
   = int_incr (votes no_votes (getBlockHash run_line)) /\
   (Z.quot (Z.of_nat (length five_peers)) 2 < int_incr (votes no_votes (getBlockHash run_line)) ->
    (receiveConnection five_peers no_votes run_line).2 = [Accepted (getBlockHash run_line)])) /\
  (MaxScanTokenSize <= Z.of_nat (String.length run_line) ->
   scanner_lines run_line = [] /\
   receiveConnection five_peers no_votes run_line = (no_votes, [])).
Proof.
  apply (mined_block_gets_vote never ipfs_ok (fun _ _ => true) 10 "-1" "-1" run_state
           run_result.1.1 run_result.1.2 run_result.2 0 "127.0.0.1:8081" run_line
           five_peers no_votes).
  - vm_compute. reflexivity.
  - reflexivity.
  - vm_compute. reflexivity.
  - vm_compute. left. reflexivity.
Defined.

(** X17: the node as [main] starts it has itself as its only miner, so
    that a block mined from the transactions of intake is written to
    127.0.0.1:8081 and nowhere else.  When the text is shorter than
    64 KiB, the limit of the scanner, the node's own receiver, which
    needs more than [1/2 = 0] votes, prints the acceptance at the first
    vote; a text of 64 KiB or more is not scanned, and the receiver
    prints nothing and counts no vote. *)
Theorem own_block_accepted stop ipfs_add dial ipfs_cat python fuel arrivals o st' evs n
    address blockData :
  Forall (fun tx => exists messages, In tx (processMessages ipfs_cat python messages))
         arrivals ->
  startMining stop ipfs_add fuel main_prevHash main_prevCID (main_state arrivals)
  = (o, st', evs) ->
  In (address, blockData) (written (sendBlocks dial n (broadcast evs))) ->
  address = "127.0.0.1:8081" /\
  (Z.of_nat (String.length blockData) < MaxScanTokenSize ->
   receiveConnection main_connectedMiners no_votes blockData
   = (<[getBlockHash blockData := 1]> no_votes, [Accepted (getBlockHash blockData)])) /\
  (MaxScanTokenSize <= Z.of_nat (String.length blockData) ->
   receiveConnection main_connectedMiners no_votes blockData = (no_votes, [])).
Proof.
  intros Harr H Hin.
  assert (Hv : validate_transactions (firstn 3 (transactionBuffer (main_state arrivals))) = true).
  { apply validate_transactions_Forall. cbn [transactionBuffer main_state].
    apply Forall_take. eapply List.Forall_impl; [|exact Harr]. cbv beta.
    intros tx (messages & Htx).
    pose proof (processMessages_ids ipfs_cat python messages) as Hids.
    rewrite List.Forall_forall in Hids. rewrite (Hids tx Htx).
    apply generateTransactionID_hex. }
  destruct (written_text_valid _ _ _ _ _ _ _ _ _ _ _ _ _ H eq_refl Hv Hin)
    as ((miner & Hm & ->) & [b ->] & Hok).
  split; [destruct Hm as [<- | []]; reflexivity|].
  unfold receiveConnection. rewrite scanner_lines_json_Marshal. split.
  - intros Hlen. apply Z.leb_gt in Hlen. rewrite Hlen.
    rewrite receiveBlocks_cons. cbn [receiveBlocks fst snd].
    rewrite (receiveBlock_accepted _ _ _ Hok). reflexivity.
  - intros Hlen. apply Z.leb_le in Hlen. rewrite Hlen. reflexivity.
Qed.

Lemma own_block_accepted_witness :
  "127.0.0.1:8081" = "127.0.0.1:8081" /\
  (Z.of_nat (String.length main_line) < MaxScanTokenSize ->
   receiveConnection main_connectedMiners no_votes main_line
   = (<[getBlockHash main_line := 1]> no_votes, [Accepted (getBlockHash main_line)])) /\
  (MaxScanTokenSize <= Z.of_nat (String.length main_line) ->
   receiveConnection main_connectedMiners no_votes main_line = (no_votes, [])).
Proof.
  apply (own_block_accepted never ipfs_ok (fun _ _ => true) echo_cat echo_python 10
           main_arrivals main_result.1.1 main_result.1.2 main_result.2 0).
  - repeat (apply Forall_cons; split; [exists main_lines; vm_compute; tauto|]).
    apply Forall_nil. exact I.
  - vm_compute. reflexivity.
  - vm_compute. left. reflexivity.
Defined.

(** ** Intake on the files *)

(** A download writes no file other than its own. *)
Lemma downloadFromIPFS_frame fetch creatable cid outputPath files path :
  path <> outputPath ->
  (downloadFromIPFS fetch creatable cid outputPath files).2 !! path = files !! path.
Proof.
  intros Hne. unfold downloadFromIPFS.
  destruct (fetch cid); destruct (creatable outputPath); cbn [snd];
    rewrite ?lookup_insert_ne by congruence; reflexivity.
Qed.

Lemma processMessage_files_frame fetch creatable python_run message files path :
  (forall files scriptPath dataPath path,
     path <> "data.txt" -> path <> "script.py" ->
     (python_run files scriptPath dataPath).2 !! path = files !! path) ->
  path <> "data.txt" -> path <> "script.py" ->
  (processMessage_files fetch creatable python_run message files).2 !! path = files !! path.
Proof.
  intros Hpy H1 H2. unfold processMessage_files.
  destruct (strings_Split_space message) as [|s [|d [|x l]]]; try reflexivity.
  cbv zeta.
  pose proof (downloadFromIPFS_frame fetch creatable d "data.txt" files path H1) as F1.
  destruct (downloadFromIPFS fetch creatable d "data.txt" files) as [ok files1].
  cbn [snd] in F1. destruct ok; [|exact F1].
  pose proof (downloadFromIPFS_frame fetch creatable s "script.py" files1 path H2) as F2.
  destruct (downloadFromIPFS fetch creatable s "script.py" files1) as [ok' files2].
  cbn [snd] in F2. destruct ok'; [|cbn [snd]; congruence].
  unfold executeScript.
  pose proof (Hpy files2 "script.py" "data.txt" path H1 H2) as F3.
  destruct (python_run files2 "script.py" "data.txt") as [[result|] files3];
    cbn [snd] in *; congruence.
Qed.

(** X18: along the lines of a connection, whatever the lines are and
    however the downloads and the scripts fail, intake writes no file
    other than data.txt and script.py: every other file is at the end
    as it was at the start, as long as the scripts themselves leave it
    alone. *)
Theorem intake_writes_two_files_only fetch creatable python_run messages files path :
  (forall files scriptPath dataPath path,
     path <> "data.txt" -> path <> "script.py" ->
     (python_run files scriptPath dataPath).2 !! path = files !! path) ->
  path <> "data.txt" -> path <> "script.py" ->
  (processMessages_files fetch creatable python_run messages files).2 !! path
  = files !! path.
Proof.
  intros Hpy H1 H2. revert files.
  induction messages as [|message r IH]; intros files; [reflexivity|].
  cbn [processMessages_files].
  pose proof (processMessage_files_frame fetch creatable python_run message files path
                Hpy H1 H2) as Hm.
  destruct (processMessage_files fetch creatable python_run message files) as [t files1].
  specialize (IH files1).
  destruct (processMessages_files fetch creatable python_run r files1) as [ts files2].
  cbn [snd] in *. congruence.
Qed.

Lemma intake_writes_two_files_only_witness :
  (processMessages_files echo_fetch (fun _ => true) echo_run main_lines
     (<["notes.txt" := "kept"]> no_files)).2 !! "notes.txt"
  = (<["notes.txt" := "kept"]> no_files) !! "notes.txt".
Proof.
  apply (intake_writes_two_files_only echo_fetch (fun _ => true) echo_run main_lines
           (<["notes.txt" := "kept"]> no_files) "notes.txt").
  - intros files scriptPath dataPath path _ _. reflexivity.
  - discriminate.
  - discriminate.
Defined.

Lemma downloadFromIPFS_true fetch creatable cid outputPath files files' :
  downloadFromIPFS fetch creatable cid outputPath files = (true, files') ->
  exists content,
    fetch cid = FetchAll content /\ files' = <[outputPath := content]> files.
Proof.
  unfold downloadFromIPFS.
  destruct (fetch cid) as [|copied|content]; [discriminate| |];
    destruct (creatable outputPath); try discriminate.
  intros H; inversion H; subst. eauto.
Qed.

(** X19: when a line gives a transaction, the interpreter has run on
    data.txt and script.py holding what the two words of the line name,
    the data under the second word and the script under the first; no
    other file was written before the run, and the transaction is made
    of the output of that run. *)
Theorem processMessage_files_runs_named_script
    fetch creatable python_run message files tx files' :
  processMessage_files fetch creatable python_run message files = (Some tx, files') ->
  exists scriptHash dataHash script data files2,
    message = scriptHash +:+ String " " dataHash /\
    fetch dataHash = FetchAll data /\ fetch scriptHash = FetchAll script /\
    files2 !! "data.txt" = Some data /\ files2 !! "script.py" = Some script /\
    (forall path, path <> "data.txt" -> path <> "script.py" ->
       files2 !! path = files !! path) /\
    python_run files2 "script.py" "data.txt" = (Some (Data tx), files') /\
    ID tx = generateTransactionID (Data tx).
Proof.
  unfold processMessage_files. intros H.
  destruct (strings_Split_space message) as [|s [|d [|x l]]] eqn:E;
    try discriminate H.
  apply strings_Split_space_two in E as (-> & _ & _). cbv zeta in H.
  destruct (downloadFromIPFS fetch creatable d "data.txt" files) as [[] files1] eqn:E1;
    [|discriminate H].
  destruct (downloadFromIPFS fetch creatable s "script.py" files1) as [[] files2] eqn:E2;
    [|discriminate H].
  unfold executeScript in H.
  destruct (python_run files2 "script.py" "data.txt") as [[result|] files3] eqn:E3;
    [|discriminate H].
  inversion H; subst.
  apply downloadFromIPFS_true in E1 as (data & Hd & ->).
  apply downloadFromIPFS_true in E2 as (script & Hs & ->).
  exists s, d, script, data, (<["script.py" := script]> (<["data.txt" := data]> files)).
  split; [reflexivity|]. split; [exact Hd|]. split; [exact Hs|]. split.
  - rewrite lookup_insert_ne by discriminate. apply lookup_insert_eq.
  - split; [apply lookup_insert_eq|]. split.
    + intros path H1 H2. rewrite !lookup_insert_ne by congruence. reflexivity.
    + split; [exact E3 | reflexivity].
Qed.

(** The handler on the files gives the transaction of the handler on
    the contents, when the interpreter's output is a function of the
    two files. *)
Lemma processMessage_files_contents fetch creatable python_run python message files :
  creatable "data.txt" = true -> creatable "script.py" = true ->
  (forall files script data,
     files !! "script.py" = Some script -> files !! "data.txt" = Some data ->
     (python_run files "script.py" "data.txt").1 = python script data) ->
  (processMessage_files fetch creatable python_run message files).1
  = processMessage (fetched fetch) python message.
Proof.
  intros Hc1 Hc2 Hpy. unfold processMessage_files, processMessage.
  destruct (strings_Split_space message) as [|s [|d [|x l]]]; try reflexivity.
  cbv zeta. unfold downloadFromIPFS, fetched, executeScript. rewrite Hc1, Hc2.
  destruct (fetch d) as [|copied|data]; try reflexivity.
  destruct (fetch s) as [|copied|script]; try reflexivity.
  specialize (Hpy (<["script.py" := script]> (<["data.txt" := data]> files)) script data).
  rewrite <- Hpy.
  - destruct (python_run _ _ _) as [[result|] files3]; reflexivity.
  - apply lookup_insert_eq.
  - rewrite lookup_insert_ne by discriminate. apply lookup_insert_eq.
Qed.

(** X20: along the lines of a connection, the handler on the files puts
    on the buffer the transactions of the handler on the contents, when
    both files can be created and the interpreter's output depends on
    the two files only: the files left by earlier lines, and by lines
    that were dropped, do not show in any transaction. *)
Theorem processMessages_files_contents fetch creatable python_run python messages files :
  creatable "data.txt" = true -> creatable "script.py" = true ->
  (forall files script data,
     files !! "script.py" = Some script -> files !! "data.txt" = Some data ->
     (python_run files "script.py" "data.txt").1 = python script data) ->
  (processMessages_files fetch creatable python_run messages files).1
  = processMessages (fetched fetch) python messages.
Proof.
  intros Hc1 Hc2 Hpy. revert files.
  induction messages as [|message r IH]; intros files; [reflexivity|].
  cbn [processMessages_files processMessages].
  pose proof (processMessage_files_contents fetch creatable python_run python message files
                Hc1 Hc2 Hpy) as Hm.
  destruct (processMessage_files fetch creatable python_run message files) as [t files1].
  cbn [fst] in Hm. rewrite <- Hm.
  specialize (IH files1).
  destruct (processMessages_files fetch creatable python_run r files1) as [ts files2].
  cbn [fst] in *. rewrite <- IH. destruct t; reflexivity.
Qed.

Lemma processMessage_files_runs_named_script_witness :
  exists scriptHash dataHash script data files2,
    "script result-A" = scriptHash +:+ String " " dataHash /\
    echo_fetch dataHash = FetchAll data /\ echo_fetch scriptHash = FetchAll script /\
    files2 !! "data.txt" = Some data /\ files2 !! "script.py" = Some script /\
    (forall path, path <> "data.txt" -> path <> "script.py" ->
       files2 !! path = no_files !! path) /\
    echo_run files2 "script.py" "data.txt"
    = (Some (Data (transaction_of "result-A")),
       <["script.py" := "script"]> (<["data.txt" := "result-A"]> no_files)) /\
    ID (transaction_of "result-A") = generateTransactionID (Data (transaction_of "result-A")).
Proof.
  apply (processMessage_files_runs_named_script echo_fetch (fun _ => true) echo_run
           "script result-A" no_files (transaction_of "result-A")
           (<["script.py" := "script"]> (<["data.txt" := "result-A"]> no_files))).
  vm_compute. reflexivity.
Defined.

Lemma processMessages_files_contents_witness :
  (processMessages_files echo_fetch (fun _ => true) echo_run main_lines no_files).1
  = processMessages (fetched echo_fetch) echo_python main_lines.
Proof.
  apply (processMessages_files_contents echo_fetch (fun _ => true) echo_run echo_python
           main_lines no_files).
  - reflexivity.
  - reflexivity.
  - intros files script data _ Hd. unfold echo_run, echo_python. cbn [fst]. exact Hd.
Defined.

(** ** What the hashed text and the broadcast text determine *)

(** X21: the text hashed by the proof of work does not determine the
    transactions: a space between the identifier and the data of a
    transaction reads the same as a space within either, so two
    different lists of transactions have the same text, meet the target
    at the same nonces and give blocks with the same [Hash]. *)
Theorem blockData_ambiguous prevHash prevCID id word data rest nonce number :
  let transactions := mkTransaction (id +:+ " " +:+ word) data :: rest in
  let transactions' := mkTransaction id (word +:+ " " +:+ data) :: rest in
  transactions <> transactions' /\
  blockData prevHash transactions nonce = blockData prevHash transactions' nonce /\
  hit prevHash transactions nonce = hit prevHash transactions' nonce /\
  Hash (candidate prevHash prevCID transactions nonce number)
  = Hash (candidate prevHash prevCID transactions' nonce number).
Proof.
  intros transactions transactions'.
  assert (E : blockData prevHash transactions nonce = blockData prevHash transactions' nonce).
  { assert (Et : fmt_Transaction (mkTransaction (id +:+ " " +:+ word) data)
                 = fmt_Transaction (mkTransaction id (word +:+ " " +:+ data))).
    { unfold fmt_Transaction. cbn [ID Data]. norm_text. reflexivity. }
    unfold blockData, fmt_Transactions. subst transactions transactions'.
    cbn [map]. rewrite Et. reflexivity. }
  split; [|split; [exact E|split]].
  - subst transactions transactions'. intros H. inversion H as [[Hid Hdata]].
    apply (f_equal String.length) in Hid. rewrite !length_append in Hid.
    simpl in Hid. lia.
  - unfold hit. rewrite E. reflexivity.
  - unfold candidate. cbn [Hash]. rewrite E. reflexivity.
Qed.

(** X22: blocks with the same broadcast text are the same up to the
    coercion of their strings to valid UTF-8; blocks whose strings are
    valid UTF-8 and that have the same text are the same block. *)
Theorem json_Marshal_identifies_block (b1 b2 : Block) :
  int_ok (Nonce b1) = true -> int_ok (BlockNumber b1) = true ->
  int_ok (Nonce b2) = true -> int_ok (BlockNumber b2) = true ->
  json_Marshal b1 = json_Marshal b2 ->
  coerce_Block b1 = coerce_Block b2 /\
  (Block_ok b1 = true -> Block_ok b2 = true -> b1 = b2).
Proof.
  intros Hn1 Hk1 Hn2 Hk2 E.
  pose proof (json_Unmarshal_Marshal b1 Hn1 Hk1) as H1.
  pose proof (json_Unmarshal_Marshal b2 Hn2 Hk2) as H2.
  rewrite E, H2 in H1.
  assert (Hc : coerce_Block b2 = coerce_Block b1) by congruence. clear H1.
  split; [symmetry; exact Hc|].
  intros Hok1 Hok2.
  assert (F : forall b, Block_ok b = true -> coerce_Block b = b).
  { intros b H. unfold Block_ok in H. repeat (apply andb_prop in H as [H ?]).
    destruct b as [p txs n h c k].
    cbn [PrevHash Transactions Nonce Hash PrevCID BlockNumber] in *.
    unfold coerce_Block. cbn [PrevHash Transactions Nonce Hash PrevCID BlockNumber].
    repeat match goal with
           | H : utf8_ValidString _ = true |- _ =>
               apply (proj1 (coerce_utf8_fixed _)) in H; rewrite H; clear H
           end.
    destruct txs as [l|]; [|reflexivity]. cbn [option_map elems] in *.
    rewrite coerce_Transactions_fixed by assumption. reflexivity. }
  rewrite <- (F b1 Hok1), <- (F b2 Hok2). symmetry. exact Hc.
Qed.

Lemma json_Marshal_identifies_block_witness :
  coerce_Block binary_block = coerce_Block other_binary_block /\
  (Block_ok binary_block = true -> Block_ok other_binary_block = true ->
   binary_block = other_binary_block).
Proof.
  apply (json_Marshal_identifies_block binary_block other_binary_block);
    vm_compute; reflexivity.
Defined.

(** X23: when the transactions that arrive in the buffer are those of
    intake, every transaction of an emitted block has as identifier
    the SHA-256 hex digest of its data. *)
Theorem emitted_block_holds_intake_transactions
    stop ipfs_add ipfs_cat python fuel prevHash prevCID st o st' evs b :
  Forall (fun tx => exists messages, In tx (processMessages ipfs_cat python messages))
         (transactionBuffer st) ->
  startMining stop ipfs_add fuel prevHash prevCID st = (o, st', evs) ->
  emitted evs b ->
  Forall (fun tx => ID tx = hex_EncodeToString (sha256_Sum256 (Data tx)) /\
                    exists messages, In tx (processMessages ipfs_cat python messages))
         (elems (Transactions b)).
Proof.
  intros Harr H Hb.
  apply (startMining_emitted _ _ _ _ _ _ _ _ _ _ H) in Hb as (_ & _ & -> & _).
  cbn [elems]. apply Forall_take. eapply List.Forall_impl; [|exact Harr]. cbv beta.
  intros tx (messages & Htx). split; [|exists messages; exact Htx].
  pose proof (processMessages_ids ipfs_cat python messages) as Hids.
  rewrite List.Forall_forall in Hids. exact (Hids tx Htx).
Qed.

Lemma emitted_block_holds_intake_transactions_witness :
  Forall (fun tx => ID tx = hex_EncodeToString (sha256_Sum256 (Data tx)) /\
                    exists messages, In tx (processMessages echo_cat echo_python messages))
         (elems (Transactions main_block)).
Proof.
  apply (emitted_block_holds_intake_transactions never ipfs_ok echo_cat echo_python 10
           main_prevHash main_prevCID (main_state main_arrivals)
           main_result.1.1 main_result.1.2 main_result.2 main_block).
  - repeat (apply Forall_cons; split; [exists main_lines; vm_compute; tauto|]).
    apply Forall_nil. exact I.
  - vm_compute. reflexivity.
  - left. vm_compute. tauto.
Defined.
